(** * noise2same: shapes of the FFT convolution, configuration checks of the
    backbone, and the scoring utilities.

    Shallow embedding of
      - [noise2same/fft_conv.py]  (module [FFTConv]),
      - [noise2same/network.py]   (module [Network]),
      - [noise2same/util.py]      (module [Util]).

    Python integers are [Z]; a tensor is represented by what the code under
    study inspects: its shape ([torch.Size], a [list Z]) for the shape
    arithmetic of [fft_conv], and an abstract value for the data flow of the
    network blocks.  The float64 values of the mutual information are
    [spec_float]s with the IEEE 754 arithmetic of [SpecFloat].  A raised
    exception is the left injection of a sum. *)

From Stdlib Require Import ZArith QArith Lqa List Lia Bool SpecFloat.
From stdpp Require Import base strings list pretty gmap.

Local Open Scope Z_scope.

(** ** Python exceptions and the error monad *)

Inductive exn : Type :=
| ValueError (msg : string)
| AssertionError (line : Z)
| IndexError
| RuntimeError
| AttributeError
| ZeroDivisionError.

Definition result (A : Type) : Type := (exn + A)%type.

Definition ok {A} (a : A) : result A := inr a.
Definition raise {A} (e : exn) : result A := inl e.

Definition bind {A B} (m : result A) (k : A -> result B) : result B :=
  match m with
  | inl e => inl e
  | inr a => k a
  end.

Notation "'do' x <- m ; k" := (bind m (fun x => k))
  (at level 10, x name, m at level 100, k at level 200).

(** Apply [f] to a returned value. *)
Definition on_ok {A B} (f : A -> B) (m : result A) : result B :=
  match m with
  | inl e => inl e
  | inr a => inr (f a)
  end.

(** Python's [x[i]] on a tuple or a [torch.Size], for [i >= 0]. *)
Definition index {A} (l : list A) (i : Z) : result A :=
  if i <? 0 then raise IndexError
  else match l !! Z.to_nat i with
       | Some a => ok a
       | None => raise IndexError
       end.

(** [range(a, b)] *)
Definition range (a b : Z) : list Z := seqZ a (b - a).

(** Run a fallible function over a list, left to right (a list
    comprehension whose body may raise). *)
Fixpoint mapM {A B} (f : A -> result B) (l : list A) : result (list B) :=
  match l with
  | [] => ok []
  | a :: l' => do b <- f a; do bs <- mapM f l'; ok (b :: bs)
  end.

(** * fft_conv.py *)

Module FFTConv.

(** [Union[int, Iterable[int]]] *)
Inductive int_or_tuple : Type :=
| Int (v : Z)
| Tuple (vs : list Z).

(** [padding: Union[int, Iterable[int], str]]; the only string the code
    looks for is ["same"]. *)
Inductive padding_arg : Type :=
| Pad (v : int_or_tuple)
| Same.

(** [to_ntuple(val, n)] *)
Definition to_ntuple (val : int_or_tuple) (n : Z) : result (list Z) :=
  match val with
  | Tuple out =>
      if Z.of_nat (length out) =? n then ok out
      else raise (ValueError ("Cannot cast tuple of length " +:+ pretty (Z.of_nat (length out))
                              +:+ " to length " +:+ pretty n +:+ "."))
  | Int v => ok (replicate (Z.to_nat n) v)
  end.

(** Apply [f] to the last entry of a shape. *)
Definition map_last (f : Z -> Z) (shape : list Z) : list Z :=
  match reverse shape with
  | d :: r => reverse (f d :: r)
  | [] => []
  end.

(** Round the last entry of a shape up to the next even number. *)
Definition even_up : list Z -> list Z := map_last (fun d => d + d mod 2).

(** [signal.ndim] *)
Definition ndim (shape : list Z) : Z := Z.of_nat (length shape).

(** [torch.nn.functional.pad(t, pads)] in constant mode, on shapes: the
    pairs of [pads] are consumed from the last dimension backwards, a
    negative amount crops, and a negative resulting length is refused. *)
Fixpoint pad_rev (rshape pads : list Z) {struct pads} : result (list Z) :=
  match pads with
  | [] => ok rshape
  | l :: r :: pads' =>
      match rshape with
      | [] => raise RuntimeError
      | d :: rs =>
          if d + l + r <? 0 then raise RuntimeError
          else do rest <- pad_rev rs pads'; ok (d + l + r :: rest)
      end
  | [_] => raise RuntimeError
  end.

Definition f_pad (shape pads : list Z) : result (list Z) :=
  do r <- pad_rev (reverse shape) pads; ok (reverse r).

(** [[p for p in padding_[::-1] for _ in range(2)]] *)
Definition signal_padding_of (padding_ : list Z) : list Z :=
  reverse padding_ ≫= (fun p => [p; p]).

(** The kernel padding comprehension of lines 101-105. *)
Definition kernel_padding_of (signal kernel : list Z) : result (list Z) :=
  do ps <- mapM (fun i => do s <- index signal i; do k <- index kernel i; ok [0; s - k])
                (reverse (range 2 (ndim signal)));
  ok (mjoin ps).

(** Shape of [rfftn(t, dim=tuple(range(2, t.ndim)))]: the last dimension
    becomes [n // 2 + 1]; every transformed dimension must be non-empty, and
    there must be one. *)
Definition rfftn_shape (shape : list Z) : result (list Z) :=
  if (3 <=? ndim shape) && forallb (fun d => 1 <=? d) (drop 2 shape)
  then ok (map_last (fun n => n / 2 + 1) shape)
  else raise RuntimeError.

(** Shape of [irfftn(t, dim=tuple(range(2, t.ndim)))] with the default
    output size [2 * (m - 1)] on the last dimension. *)
Definition irfftn_shape (shape : list Z) : result (list Z) :=
  let out := map_last (fun m => 2 * (m - 1)) shape in
  if (3 <=? ndim shape) && forallb (fun d => 1 <=? d) (drop 2 shape)
     && forallb (fun d => 1 <=? d) (drop 2 out)
  then ok out
  else raise RuntimeError.

(** Product of a shape: the number of elements. *)
Definition numel (shape : list Z) : Z := fold_right Z.mul 1 shape.

(** [t.view] with exactly one [-1] among its arguments, given as the dims
    before and after it: the inferred length. *)
Definition view_infer (shape before after : list Z) : result Z :=
  let others := numel before * numel after in
  if forallb (fun d => 0 <=? d) (before ++ after) && (0 <? others)
     && (numel shape mod others =? 0)
  then ok (numel shape / others)
  else raise RuntimeError.

(** Two lengths carried by one einsum subscript must match or be 1. *)
Definition broadcastable (x y : Z) : bool := (x =? y) || (x =? 1) || (y =? 1).

(** [complex_matmul(a, b, groups)] on shapes. *)
Definition complex_matmul (a b : list Z) (groups : Z) : result (list Z) :=
  match a, b with
  | a0 :: a1 :: a_rest, b0 :: b_rest =>
      (* a = a.view(a.size(0), groups, -1, *a.shape[2:]) *)
      do ac <- view_infer a [a0; groups] a_rest;
      (* b = b.view(groups, -1, *b.shape[1:]) *)
      do bo <- view_infer b [groups] b_rest;
      (* einsum "agc..., gbc... -> agb..." *)
      match b_rest with
      | bc :: b_dots =>
          if broadcastable ac bc && bool_decide (a_rest = b_dots)
          then
            let c := a0 :: groups :: bo :: a_rest in
            (* c.view(c.size(0), -1, *c.shape[3:]) *)
            do co <- view_infer c [a0] a_rest;
            ok (a0 :: co :: a_rest)
          else raise RuntimeError
      | [] => raise RuntimeError
      end
  | _, _ => raise IndexError
  end.

(** [complex_matmul] on values, at one position of the trailing axes: a
    tensor of complex numbers is a list of (real, imaginary) pairs over
    [Z]; the views cut the channels into [groups] consecutive blocks, and the
    einsum contracts block [g] of the signal with the rows of block [g] of
    the kernel. *)
Definition dot (u v : list Z) : Z := fold_right Z.add 0 (zip_with Z.mul u v).

Definition split_groups {A} (groups : nat) (l : list A) : list (list A) :=
  reshape (replicate groups (length l / groups)%nat) l.

Definition complex_matmul_row (groups : nat) (a : list (Z * Z)) (b : list (list (Z * Z)))
  : list (list (Z * Z)) :=
  zip_with
    (fun a_g b_g =>
       (fun k => (dot a_g.*1 k.*1 - dot a_g.*2 k.*2,     (* real *)
                  dot a_g.*2 k.*1 + dot a_g.*1 k.*2))    (* imag *)
       <$> b_g)
    (split_groups groups a) (split_groups groups b).

Definition complex_matmul_values (groups : nat) (a b : list (list (Z * Z)))
  : list (list (Z * Z)) :=
  (fun row => mjoin (complex_matmul_row groups row b)) <$> a.

(** Length of [t[slice(0, stop, step)]] along a dimension of length [len]:
    a negative [stop] counts from the end, and torch refuses [step <= 0]. *)
Definition slice_len (len stop step : Z) : result Z :=
  if step <=? 0 then raise (ValueError "step must be greater than zero")
  else
    let stop' := if stop <? 0 then Z.max 0 (stop + len) else Z.min stop len in
    ok ((stop' + step - 1) / step).

(** The crop of lines 121-132, applied to the shape [out] of the inverse
    transform; [signal_size] is the size recorded on line 97. *)
Definition crop (out signal_size kernel stride_ : list Z) (nd : Z) : result (list Z) :=
  do spatial <- mapM (fun i =>
                   do len <- index out i;
                   do s <- index signal_size i;
                   do k <- index kernel i;
                   do st <- index stride_ (i - 2);
                   slice_len len (s - k + k mod 2) st)
                 (range 2 nd);
  ok (take 2 out ++ spatial).

(** [output += bias.view(1, -1, 1, ..., 1)]: the bias must broadcast over
    the channel dimension. *)
Definition add_bias (out : list Z) (bias : option Z) : result (list Z) :=
  match bias with
  | None => ok out
  | Some n =>
      do c <- index out 1;
      if (0 <=? n) && ((n =? c) || (n =? 1)) then ok out else raise RuntimeError
  end.

(** What [fft_conv] computes on the way, on shapes. *)
Record trace : Type := {
  padded_size : list Z;     (* signal_size, line 97 *)
  fft_size : list Z;        (* signal.shape after line 99 *)
  output_shape : list Z     (* the returned tensor *)
}.

(** Lines 77-107 of [fft_conv] with [padding_mode="constant"], on shapes:
    the stride tuple, the size recorded on line 97, the signal handed to the
    transform and the padded kernel. *)
Definition prepare (signal kernel : list Z) (padding : padding_arg) (stride : int_or_tuple)
  : result (list Z * list Z * list Z * list Z) :=
  do stride_ <- to_ntuple stride (ndim signal - 2);
  do padding_ <- match padding with
                 | Pad p => to_ntuple p (ndim signal - 2)
                 | Same => ok ((fun k => k / 2) <$> drop 2 kernel)
                 end;
  let signal_padding := signal_padding_of padding_ in
  do signal <- f_pad signal signal_padding;
  let signal_size := signal in
  do last_size <- match last signal with
                  | Some d => ok d
                  | None => raise IndexError
                  end;
  do signal <- (if negb (last_size mod 2 =? 0) then f_pad signal [0; 1] else ok signal);
  do kernel_padding <- kernel_padding_of signal kernel;
  do padded_kernel <- f_pad kernel kernel_padding;
  ok (stride_, signal_size, signal, padded_kernel).

(** [fft_conv(signal, kernel, bias, padding, stride, groups)] with
    [padding_mode="constant"], on shapes. *)
Definition fft_conv_trace (signal kernel : list Z) (bias : option Z)
    (padding : padding_arg) (stride : int_or_tuple) (groups : Z) : result trace :=
  do prepared <- prepare signal kernel padding stride;
  let '(stride_, signal_size, signal, padded_kernel) := prepared in
  if negb (bool_decide (drop 1 padded_kernel = drop 1 signal))
  then raise (AssertionError 108)
  else
    do signal_fr <- rfftn_shape signal;
    do kernel_fr <- rfftn_shape padded_kernel;
    do output_fr <- complex_matmul signal_fr kernel_fr groups;
    do output <- irfftn_shape output_fr;
    do output <- crop output signal_size kernel stride_ (ndim signal);
    do output <- add_bias output bias;
    ok {| padded_size := signal_size; fft_size := signal; output_shape := output |}.

Definition fft_conv (signal kernel : list Z) (bias : option Z)
    (padding : padding_arg) (stride : int_or_tuple) (groups : Z) : result (list Z) :=
  do t <- fft_conv_trace signal kernel bias padding stride groups; ok (output_shape t).

(** *** Geometry of one spatial axis of a call *)

Record axis : Type := {
  a_in : Z;        (* input length *)
  a_pad : Z;       (* padding on each side *)
  a_kernel : Z;    (* kernel length *)
  a_stride : Z     (* stride *)
}.

#[global] Instance axis_inhabited : Inhabited axis :=
  populate {| a_in := 0; a_pad := 0; a_kernel := 0; a_stride := 0 |}.

Definition padded_len (a : axis) : Z := a_in a + a_pad a + a_pad a.

(** Length left by the crop of lines 121-132. *)
Definition out_len (a : axis) : Z :=
  (padded_len a - a_kernel a + a_kernel a mod 2 + a_stride a - 1) / a_stride a.

(** Output length of a direct convolution ([torch.nn.ConvNd], dilation 1):
    [floor((input_size + 2 * padding - kernel_size) / stride) + 1]. *)
Definition conv_out_len (n p k s : Z) : Z := (n + 2 * p - k) / s + 1.

Definition direct_conv_shape (batch out_channels : Z) (axes : list axis) : list Z :=
  batch :: out_channels
    :: ((fun a => conv_out_len (a_in a) (a_pad a) (a_kernel a) (a_stride a)) <$> axes).

(** The kernel fits in the padded signal and the stride is positive. *)
Definition fits (a : axis) : Prop :=
  1 <= a_kernel a <= padded_len a /\ 1 <= a_stride a.

(** A bias vector that broadcasts over [o] output channels, or none. *)
Definition bias_fits (bias : option Z) (o : Z) : Prop :=
  bias = None \/ bias = Some o \/ bias = Some 1.

(** An [int] or a tuple argument standing for the per-axis values [l]. *)
Definition as_tuple (v : int_or_tuple) (l : list Z) : Prop :=
  v = Tuple l \/ exists p, v = Int p /\ l = replicate (length l) p.

(** *** [_FFTConv.__init__] *)

(** Python's [a % b] on integers. *)
Definition py_mod (a b : Z) : result Z :=
  if b =? 0 then raise ZeroDivisionError else ok (a mod b).

(** Python's [a // b] on integers. *)
Definition py_floordiv (a b : Z) : result Z :=
  if b =? 0 then raise ZeroDivisionError else ok (a / b).

Definition in_channels_message (in_channels groups : Z) : string :=
  "'in_channels' must be divisible by 'groups'." +:+
  "Found: in_channels=" +:+ pretty in_channels +:+ ", groups=" +:+ pretty groups +:+ ".".

Definition out_channels_message (out_channels groups : Z) : string :=
  "'out_channels' must be divisible by 'groups'." +:+
  "Found: out_channels=" +:+ pretty out_channels +:+ ", groups=" +:+ pretty groups +:+ ".".

(** The attributes set by the constructor; the parameters are recorded by
    their shapes. *)
Record FFTConvLayer : Type := {
  in_channels : Z;
  out_channels : Z;
  kernel_size : int_or_tuple;
  padding : int_or_tuple;
  stride : int_or_tuple;
  groups : Z;
  use_bias : bool;
  weight : list Z;
  bias : option (list Z)
}.

(** [torch.randn] refuses a negative length. *)
Definition randn (size : list Z) : result (list Z) :=
  if forallb (fun d => 0 <=? d) size then ok size else raise RuntimeError.

Definition FFTConv_init (in_channels out_channels : Z) (kernel_size padding stride : int_or_tuple)
    (groups : Z) (bias : bool) (ndim : Z) : result FFTConvLayer :=
  do r_in <- py_mod in_channels groups;
  if negb (r_in =? 0) then raise (ValueError (in_channels_message in_channels groups))
  else
    do r_out <- py_mod out_channels groups;
    if negb (r_out =? 0) then raise (ValueError (out_channels_message out_channels groups))
    else
      do kernel_size_ <- to_ntuple kernel_size ndim;
      do per_group <- py_floordiv in_channels groups;
      do w <- randn (out_channels :: per_group :: kernel_size_);
      do b <- (if bias then do t <- randn [out_channels]; ok (Some t) else ok None);
      ok {| in_channels := in_channels; out_channels := out_channels;
            kernel_size := kernel_size; padding := padding; stride := stride;
            groups := groups; use_bias := bias; weight := w; bias := b |}.

(** The two messages of lines 175-184. *)
Definition divisibility_error (e : exn) : Prop :=
  exists n g, e = ValueError (in_channels_message n g)
           \/ e = ValueError (out_channels_message n g).

(** [_FFTConv.forward], lines 192-200: the layer hands its own parameters to
    [fft_conv]; the bias vector enters by its number of entries. *)
Definition FFTConv_forward (layer : FFTConvLayer) (signal : list Z) : result (list Z) :=
  fft_conv signal (weight layer) (numel <$> bias layer) (Pad (padding layer)) (stride layer)
           (groups layer).

(** An axis of a call with [padding="same"]: line 89 pads by half the kernel
    length. *)
Definition same_axis (a : axis) : axis :=
  {| a_in := a_in a; a_pad := a_kernel a / 2; a_kernel := a_kernel a; a_stride := a_stride a |}.

End FFTConv.

(** * network.py *)

Module Network.

(** ** [UNet.__init__] *)

(** The constructor's arguments. *)
Record UNetConfig : Type := {
  in_channels : Z;
  base_channels : Z;
  kernel_size : Z;
  n_dim : Z;
  depth : Z;
  encoding_block_sizes : list Z;
  decoding_block_sizes : list Z;
  downsampling : list string;
  upsampling : list string;
  skip_method : string;
  ffc : bool
}.

(** [len(t)] *)
Definition len {A} (t : list A) : Z := Z.of_nat (length t).

(** [t[-1]] *)
Definition index_last {A} (t : list A) : result A :=
  match last t with
  | Some a => ok a
  | None => raise IndexError
  end.

(** [assert cond], tagged with its source line. *)
Definition assert (line : Z) (cond : bool) : result unit :=
  if cond then ok tt else raise (AssertionError line).

(** Lines 320-326. *)
Definition validate (c : UNetConfig) : result unit :=
  do _ <- assert 320 (depth c =? len (encoding_block_sizes c));
  do first <- index (encoding_block_sizes c) 0;
  do _ <- assert 321 (0 <? first);
  do final <- index_last (encoding_block_sizes c);
  do _ <- assert 322 (final =? 0);
  do _ <- assert 323 (depth c =? len (decoding_block_sizes c) + 1);
  do _ <- assert 324 (depth c =? len (downsampling c) + 1);
  do _ <- assert 325 (len (downsampling c) =? len (upsampling c));
  assert 326 (bool_decide (skip_method c ∈ ["add"; "concat"; "cat"])).

(** What the constructor builds, stage by stage. *)
Record EncoderStage : Type := {
  enc_in : Z;
  enc_out : Z;
  enc_block_size : Z;
  enc_downsampling : option string   (* [None]: the first, plain ResidualBlock *)
}.

Record DecoderStage : Type := {
  up_mode : string;                  (* "conv": transposed convolution *)
  up_in : Z;
  up_out : Z;
  fusion_conv : option (Z * Z);      (* [None]: nn.Identity *)
  dec_in : Z;
  dec_out : Z;
  dec_block_size : Z
}.

Record UNetLayout : Type := {
  config : UNetConfig;
  encoder_blocks : list EncoderStage;
  bottom_block : Z * Z;
  decoder_blocks : list DecoderStage
}.

(** [range(start, stop, -1)] *)
Definition range_down (start stop : Z) : list Z :=
  (fun i => start - i) <$> seqZ 0 (start - stop).

(** [EncoderBlock.__init__], lines 250-268: only "res" and "conv" are built. *)
Definition EncoderBlock_init (c : UNetConfig) (i : Z) : result EncoderStage :=
  let in_c := base_channels c * 2 ^ (i - 2) in
  let out_c := base_channels c * 2 ^ (i - 1) in
  do block_size <- index (encoding_block_sizes c) (i - 1);
  do method <- index (downsampling c) (i - 2);
  if bool_decide (method = "res") || bool_decide (method = "conv")
  then ok {| enc_in := in_c; enc_out := out_c; enc_block_size := block_size;
             enc_downsampling := Some method |}
  else raise (ValueError "downsampling should be `res`. `conv`, `pool`").

(** One turn of the decoder loop, lines 405-465. *)
Definition decoder_stage (c : UNetConfig) (i : Z) : result DecoderStage :=
  let in_c := base_channels c * 2 ^ i in
  let out_c := base_channels c * 2 ^ (i - 1) in
  let add := bool_decide (skip_method c = "add") in
  do method <- index (upsampling c) (i - 1);
  do fusion <-
    (if bool_decide (method = "conv") then
       if ffc c then raise (ValueError "FFC not supported with conv upsampling")
       else ok None
     else if (bool_decide (method ∈ ["nearest"; "bilinear"; "bicubic"]) && (n_dim c =? 2))
             || (bool_decide (method ∈ ["nearest"; "trilinear"]) && (n_dim c =? 3))
     then ok (Some (if add then (out_c, out_c) else (in_c, in_c)))
     else raise (ValueError ("Upsampling method " +:+ method +:+ " not supported for "
                              +:+ pretty (n_dim c) +:+ "D")));
  do block_size <- index (decoding_block_sizes c) (depth c - 1 - i);
  ok {| up_mode := method; up_in := in_c; up_out := out_c; fusion_conv := fusion;
        dec_in := out_c * (if add then 1 else 2); dec_out := out_c;
        dec_block_size := block_size |}.

(** [UNet.__init__] *)
Definition UNet_init (c : UNetConfig) : result UNetLayout :=
  do _ <- validate c;
  do first_size <- index (encoding_block_sizes c) 0;
  let first := {| enc_in := base_channels c; enc_out := base_channels c;
                  enc_block_size := first_size; enc_downsampling := None |} in
  do encoders <- mapM (EncoderBlock_init c) (range 2 (depth c + 1));
  let out_channels := match last encoders with
                      | Some e => enc_out e
                      | None => base_channels c
                      end in
  let bottom := (out_channels, base_channels c * 2 ^ (depth c - 1)) in
  do decoders <- mapM (decoder_stage c) (range_down (depth c - 1) 0);
  ok {| config := c; encoder_blocks := first :: encoders; bottom_block := bottom;
        decoder_blocks := decoders |}.

(** The conditions under which the construction is claimed to fail, as the
    specification lists them. *)
Definition listed_violation (c : UNetConfig) : Prop :=
  depth c <> len (encoding_block_sizes c)
  \/ head (encoding_block_sizes c) = Some 0
  \/ (exists v, last (encoding_block_sizes c) = Some v /\ v <> 0)
  \/ depth c <> len (decoding_block_sizes c) + 1
  \/ depth c <> len (downsampling c) + 1
  \/ len (downsampling c) <> len (upsampling c).

(** The conditions lines 320-325 test. *)
Definition violation (c : UNetConfig) : Prop :=
  depth c <> len (encoding_block_sizes c)
  \/ (exists v, head (encoding_block_sizes c) = Some v /\ v <= 0)
  \/ (exists v, last (encoding_block_sizes c) = Some v /\ v <> 0)
  \/ depth c <> len (decoding_block_sizes c) + 1
  \/ depth c <> len (downsampling c) + 1
  \/ len (downsampling c) <> len (upsampling c).

(** An exception of lines 320-325: a failed assertion, or the [IndexError]
    of subscripting an empty [encoding_block_sizes]. *)
Definition configuration_error (e : exn) : Prop :=
  e = IndexError \/ exists line, e = AssertionError line /\ 320 <= line <= 325.

(** The same arguments with another [skip_method]. *)
Definition set_skip_method (c : UNetConfig) (method : string) : UNetConfig :=
  {| in_channels := in_channels c; base_channels := base_channels c;
     kernel_size := kernel_size c; n_dim := n_dim c; depth := depth c;
     encoding_block_sizes := encoding_block_sizes c;
     decoding_block_sizes := decoding_block_sizes c;
     downsampling := downsampling c; upsampling := upsampling c;
     skip_method := method; ffc := ffc c |}.

(** The modules a layout holds, without the recorded arguments. *)
Definition modules_of (l : UNetLayout) : list EncoderStage * (Z * Z) * list DecoderStage :=
  (encoder_blocks l, bottom_block l, decoder_blocks l).

(** ** [UNet.forward]

    The sub-modules are functions on an abstract tensor type; [torch.cat]
    and the in-place [add_] may refuse their operands. *)
Section Forward.

Context {T : Type}.
Variable add_ : T -> T -> result T.
Variable cat : list T -> result T.

Record UNet : Type := {
  u_conv_first : T -> result T;
  u_encoder_blocks : list (T -> result T);
  u_bottom_block : T -> result T;
  u_upsampling_blocks : list (T -> result T);
  u_decoder_blocks : list (T -> result T);
  u_conv_after_upsample_blocks : list (T -> result T);
  u_skip_method : string
}.

(** The encoder loop of lines 474-476: every input of a downsampling stage
    is appended to [encoder_outputs]. *)
Fixpoint encode (blocks : list (T -> result T)) (outputs : list T) (x : T)
  : result (list T * T) :=
  match blocks with
  | [] => ok (outputs, x)
  | block :: blocks' => do y <- block x; encode blocks' (outputs ++ [x]) y
  end.

(** Lines 490-495. *)
Definition fuse (method : string) (x skip : T) : result T :=
  if bool_decide (method = "add") then add_ x skip
  else if bool_decide (method ∈ ["cat"; "concat"]) then cat [x; skip]
  else raise (ValueError EmptyString).

(** The decoder loop of lines 480-499 over the zipped module lists. *)
Fixpoint decode (method : string) (ups decs : list (T -> result T)) (skips : list T)
    (extras : list (T -> result T)) (x : T) : result T :=
  match ups, decs, skips, extras with
  | up :: ups', dec :: decs', skip :: skips', extra :: extras' =>
      do x <- up x;
      do x <- fuse method x skip;
      do x <- extra x;
      do x <- dec x;
      decode method ups' decs' skips' extras' x
  | _, _, _, _ => ok x
  end.

Definition forward (u : UNet) (x : T) : result T :=
  do x <- u_conv_first u x;
  do first <- index (u_encoder_blocks u) 0;
  do x <- first x;
  do enc <- encode (drop 1 (u_encoder_blocks u)) [] x;
  let '(encoder_outputs, x) := enc in
  do x <- u_bottom_block u x;
  decode (u_skip_method u) (u_upsampling_blocks u) (u_decoder_blocks u)
         (reverse encoder_outputs) (u_conv_after_upsample_blocks u) x.

(** The decoder as the claim about ["cat"] and ["concat"] words it: every
    stage upsamples, concatenates the upsampled tensor with its skip tensor
    along the channels, and hands the result to the convolution after the
    upsampling and to the decoder block.  The stages are the entries of the
    four zipped lists; [add_] and [skip_method] play no part. *)
Definition concat_stage (x : T)
    (stage : (T -> result T) * (T -> result T) * T * (T -> result T)) : result T :=
  let '(up, dec, skip, extra) := stage in
  do upsampled <- up x;
  do fused <- cat [upsampled; skip];
  do y <- extra fused;
  dec y.

Fixpoint concat_decoder
    (stages : list ((T -> result T) * (T -> result T) * T * (T -> result T))) (x : T)
  : result T :=
  match stages with
  | [] => ok x
  | stage :: stages' => do y <- concat_stage x stage; concat_decoder stages' y
  end.

(** The forward pass with that decoder: the skip tensor of the first
    decoder stage is the input of the last encoder stage, and so on
    upwards. *)
Definition concat_forward (u : UNet) (x : T) : result T :=
  do x <- u_conv_first u x;
  do first <- index (u_encoder_blocks u) 0;
  do x <- first x;
  do enc <- encode (drop 1 (u_encoder_blocks u)) [] x;
  do bottom <- u_bottom_block u enc.2;
  concat_decoder (zip (zip (zip (u_upsampling_blocks u) (u_decoder_blocks u))
                           (reverse enc.1))
                      (u_conv_after_upsample_blocks u))
                 bottom.

(** The same network with another [skip_method]. *)
Definition with_skip_method (u : UNet) (method : string) : UNet :=
  {| u_conv_first := u_conv_first u;
     u_encoder_blocks := u_encoder_blocks u;
     u_bottom_block := u_bottom_block u;
     u_upsampling_blocks := u_upsampling_blocks u;
     u_decoder_blocks := u_decoder_blocks u;
     u_conv_after_upsample_blocks := u_conv_after_upsample_blocks u;
     u_skip_method := method |}.

End Forward.

(** ** [ResidualUnit.forward]

    [nn.ReLU(inplace=True)] overwrites its argument, so tensors are
    references into a store of values: a module that is not in place reads
    its argument and allocates its result, the activation writes back to the
    reference it was given.  A module may refuse the value it is given, and
    so may the addition of line 187; the exception ends the forward pass. *)
Section Residual.

Context {V : Type}.

Definition ref : Type := nat.
Definition store : Type := list V.

(** Computations over the store that may raise. *)
Definition M (A : Type) : Type := store -> result (A * store).

Definition ret {A} (a : A) : M A := fun h => ok (a, h).

Definition bindM {A B} (m : M A) (k : A -> M B) : M B :=
  fun h => match m h with
           | inl e => inl e
           | inr (a, h') => k a h'
           end.

Notation "'run' x <- m ; k" := (bindM m (fun x => k))
  (at level 10, x name, m at level 100, k at level 200).

(** The outcome of a computation on values, with the store as it is. *)
Definition lift {A} (m : result A) : M A :=
  fun h => match m with
           | inl e => inl e
           | inr a => ok (a, h)
           end.

Definition read (r : ref) : M V :=
  fun h => match h !! r with
           | Some v => ok (v, h)
           | None => raise RuntimeError
           end.

Definition alloc (v : V) : M ref := fun h => ok (length h, h ++ [v]).

Definition write (r : ref) (v : V) : M unit :=
  fun h => if decide (r < length h)%nat then ok (tt, <[r := v]> h) else raise RuntimeError.

(** A module returning a fresh tensor. *)
Definition call (f : V -> result V) (x : ref) : M ref :=
  run v <- read x; run w <- lift (f v); alloc w.

(** A module working in place. *)
Definition call_inplace (f : V -> result V) (x : ref) : M ref :=
  run v <- read x; run w <- lift (f v); run _ <- write x w; ret x.

(** A module returning a pair of fresh tensors (the FFC blocks). *)
Definition call_pair (f : V -> result (V * V)) (x : ref) : M (ref * ref) :=
  run v <- read x; run p <- lift (f v);
  run a <- alloc (fst p); run b <- alloc (snd p); ret (a, b).

(** A tensor or a tuple of tensors. *)
Inductive output : Type :=
| Tensor (x : ref)
| Tuple (x y : ref).

Record ResidualUnit : Type := {
  ru_in_channels : Z;
  ru_out_channels : Z;
  ru_downsample : bool;
  ru_ffc : bool;
  (* the sub-modules *)
  ru_bn : V -> result V;
  ru_act : V -> result V;                 (* nn.ReLU(inplace=True) *)
  ru_conv_shortcut : V -> result V;       (* 1x1 convolution, when [ffc] is off *)
  ru_layers_conv1 : V -> result V;
  ru_layers_bn : V -> result V;
  ru_layers_conv2 : V -> result V;
  (* Modelled as parameters: the BN_ACT_FFC blocks of noise2same/ffc.py *)
  ru_ffc_shortcut : V -> result (V * V);
  ru_ffc_layers : V -> result (V * V)
}.

(** [x + shortcut] on values. *)
Variable add : V -> V -> result V.

(** [self.layers(x)] *)
Definition layers (u : ResidualUnit) (x : ref) : M output :=
  if ru_ffc u then
    run p <- call_pair (ru_ffc_layers u) x; ret (Tuple (fst p) (snd p))
  else
    run x <- call (ru_layers_conv1 u) x;
    run x <- call (ru_layers_bn u) x;
    run x <- call_inplace (ru_act u) x;
    run x <- call (ru_layers_conv2 u) x;
    ret (Tensor x).

(** [ResidualUnit.forward], lines 173-187. *)
Definition ResidualUnit_forward (u : ResidualUnit) (x : ref) : M ref :=
  run sx <-
    (if ru_ffc u then
       run p <- call_pair (ru_ffc_shortcut u) x; ret (fst p, x)
     else
       let shortcut := x in
       run x <- call (ru_bn u) x;
       run x <- call_inplace (ru_act u) x;
       if negb (ru_in_channels u =? ru_out_channels u) || ru_downsample u
       then run shortcut <- call (ru_conv_shortcut u) x; ret (shortcut, x)
       else ret (shortcut, x));
  let '(shortcut, x) := sx in
  run out <- layers u x;
  let x := match out with
           | Tuple x0 _ => x0
           | Tensor x => x
           end in
  run a <- read x;
  run b <- read shortcut;
  run s <- lift (add a b);
  alloc s.

(** Lines 183-187 on their own: the main branch, then the addition. *)
Definition forward_rest (u : ResidualUnit) (sx : ref * ref) : M ref :=
  let '(shortcut, x) := sx in
  run out <- layers u x;
  let x := match out with
           | Tuple x0 _ => x0
           | Tensor x => x
           end in
  run a <- read x;
  run b <- read shortcut;
  run s <- lift (add a b);
  alloc s.

(** The expression of the claim, on values: [layers(relu(bn(v)))] plus the
    shortcut term, which is [conv_shortcut(relu(bn(v)))] when the channel
    counts differ or [downsample] is set, and [v] otherwise.  It raises what
    the first module to refuse its argument raises. *)
Definition residual_value (u : ResidualUnit) (v : V) : result V :=
  do normed <- ru_bn u v;
  do pre <- ru_act u normed;
  do shortcut <- (if negb (ru_in_channels u =? ru_out_channels u) || ru_downsample u
                  then ru_conv_shortcut u pre else ok v);
  do c1 <- ru_layers_conv1 u pre;
  do c2 <- ru_layers_bn u c1;
  do c3 <- ru_act u c2;
  do main <- ru_layers_conv2 u c3;
  add main shortcut.

End Residual.

(** ** Shapes through the blocks

    The modules of a network built with [ffc=False], as functions on the
    shape [(N, C, d_1, ..., d_D)] of the tensor they are given.  The rules of
    the torch modules are those of their documentation; an exception they
    raise is recorded as torch raises it, except that messages are abridged
    and that the [NotImplementedError] of [nn.Upsample] is recorded as a
    [RuntimeError]. *)
Section Shapes.

(** Whether the modules are in training mode (as they are after their
    construction) or in evaluation mode. *)
Variable training : bool.

(** Number of spatial axes of the modules picked by
    [nn.Conv2d if n_dim == 2 else nn.Conv3d]. *)
Definition spatial_rank (n_dim : Z) : nat := if n_dim =? 2 then 2%nat else 3%nat.

(** A module on the spatial axes of a batched input [(N, C, ...)] or of an
    unbatched one [(C, ...)] with [in_channels] channels. *)
Definition on_spatial (D : nat) (in_channels out_channels : Z)
    (spatial : list Z -> result (list Z)) (x : list Z) : result (list Z) :=
  if decide (length x = S (S D)) then
    match x with
    | n :: c :: sp =>
        if c =? in_channels then on_ok (fun sp' => n :: out_channels :: sp') (spatial sp)
        else raise RuntimeError
    | _ => raise RuntimeError
    end
  else if decide (length x = S D) then
    match x with
    | c :: sp =>
        if c =? in_channels then on_ok (fun sp' => out_channels :: sp') (spatial sp)
        else raise RuntimeError
    | [] => raise RuntimeError
    end
  else raise RuntimeError.

(** [nn.ConvNd(in_channels, out_channels, kernel_size, padding=padding,
    stride=stride)] with integer arguments: the kernel must fit in the
    padded input. *)
Definition Conv (D : nat) (in_channels out_channels kernel_size padding stride : Z)
  : list Z -> result (list Z) :=
  on_spatial D in_channels out_channels (fun sp =>
    if (1 <=? kernel_size) && (0 <=? padding) && (1 <=? stride)
       && forallb (fun d => (0 <=? d) && (kernel_size <=? d + 2 * padding)) sp
    then ok ((fun d => FFTConv.conv_out_len d padding kernel_size stride) <$> sp)
    else raise RuntimeError).

(** [nn.ConvTransposeNd(in_channels, out_channels, kernel_size,
    stride=stride)] with integer arguments. *)
Definition ConvTranspose (D : nat) (in_channels out_channels kernel_size stride : Z)
  : list Z -> result (list Z) :=
  on_spatial D in_channels out_channels (fun sp =>
    if (1 <=? kernel_size) && (1 <=? stride) && forallb (fun d => 1 <=? d) sp
    then ok ((fun d => (d - 1) * stride + kernel_size) <$> sp)
    else raise RuntimeError).

(** [nn.BatchNormNd(num_features)]: the input must be batched; in training
    mode a single value per channel is refused. *)
Definition BatchNorm (D : nat) (num_features : Z) (x : list Z) : result (list Z) :=
  match x with
  | n :: c :: sp =>
      if negb (bool_decide (length sp = D))
      then raise (ValueError ("expected " +:+ pretty (Z.of_nat (S (S D))) +:+ "D input (got "
                              +:+ pretty (Z.of_nat (length x)) +:+ "D input)"))
      else if training && (n * FFTConv.numel sp =? 1)
      then raise (ValueError "Expected more than 1 value per channel when training")
      else if c =? num_features then ok x else raise RuntimeError
  | _ => raise (ValueError ("expected " +:+ pretty (Z.of_nat (S (S D))) +:+ "D input (got "
                            +:+ pretty (Z.of_nat (length x)) +:+ "D input)"))
  end.

(** [nn.ReLU(inplace=True)] and [nn.Identity()] keep the shape. *)
Definition ReLU (x : list Z) : result (list Z) := ok x.
Definition Identity (x : list Z) : result (list Z) := ok x.

(** [nn.Upsample(mode=mode, scale_factor=2)]: every mode has its ranks, and
    no axis but the first may be empty. *)
Definition Upsample (mode : string) (x : list Z) : result (list Z) :=
  let ranks : list nat :=
    if bool_decide (mode ∈ ["nearest"; "area"; "nearest-exact"]) then [3; 4; 5]%nat
    else if bool_decide (mode = "linear") then [3]%nat
    else if bool_decide (mode ∈ ["bilinear"; "bicubic"]) then [4]%nat
    else if bool_decide (mode = "trilinear") then [5]%nat
    else [] in
  match x with
  | n :: c :: sp =>
      if bool_decide (length x ∈ ranks) && forallb (fun d => 1 <=? d) (c :: sp)
      then ok (n :: c :: ((fun d => 2 * d) <$> sp))
      else raise RuntimeError
  | _ => raise RuntimeError
  end.

(** [nn.Sequential]: the modules in turn. *)
Fixpoint Sequential (modules : list (list Z -> result (list Z))) (x : list Z)
  : result (list Z) :=
  match modules with
  | [] => ok x
  | m :: modules' => do y <- m x; Sequential modules' y
  end.

(** Broadcasting of two shapes, aligned at their last axes. *)
Fixpoint broadcast_rev (a b : list Z) : result (list Z) :=
  match a, b with
  | [], _ => ok b
  | _, [] => ok a
  | x :: a', y :: b' =>
      do r <- broadcast_rev a' b';
      if x =? y then ok (x :: r)
      else if x =? 1 then ok (y :: r)
      else if y =? 1 then ok (x :: r)
      else raise RuntimeError
  end.

(** [x + y] *)
Definition add (x y : list Z) : result (list Z) :=
  on_ok reverse (broadcast_rev (reverse x) (reverse y)).

(** [x.add_(y)]: in place, so [y] must broadcast to the shape of [x]. *)
Definition add_ (x y : list Z) : result (list Z) :=
  do r <- add x y; if decide (r = x) then ok x else raise RuntimeError.

(** [torch.cat(tensors, dim=1)]: empty one-dimensional tensors are skipped;
    the others must agree on every axis but the second. *)
Definition cat (tensors : list (list Z)) : result (list Z) :=
  match filter (fun t => t <> [0]) tensors with
  | [] => if decide (tensors = []) then raise RuntimeError else ok [0]
  | [] :: _ => raise RuntimeError
  | [_] :: _ => raise IndexError
  | (n :: c :: sp) :: others =>
      do cs <- mapM (fun t => match t with
                              | n' :: c' :: sp' =>
                                  if decide (n' = n /\ sp' = sp) then ok c'
                                  else raise RuntimeError
                              | _ => raise RuntimeError
                              end) others;
      ok (n :: fold_right Z.add 0 (c :: cs) :: sp)
  end.


(** The arguments of a [ResidualUnit] built with [ffc=False]. *)
Record ResidualUnitArgs : Type := {
  unit_in : Z;
  unit_out : Z;
  unit_n_dim : Z;
  unit_kernel_size : Z;
  unit_downsample : bool
}.

(** [ResidualUnit.forward], lines 173-187, for [ffc=False], with the modules
    of lines 99-171. *)
Definition ResidualUnit_shape (u : ResidualUnitArgs) (x : list Z) : result (list Z) :=
  let D := spatial_rank (unit_n_dim u) in
  let stride := if unit_downsample u then 2 else 1 in
  let conv_shortcut := Conv D (unit_in u) (unit_out u) 1 0 stride in
  let bn := BatchNorm D (unit_in u) in
  let layers :=
    Sequential [ Conv D (unit_in u) (unit_out u)
                      (if unit_downsample u then 2 else unit_kernel_size u)
                      (if unit_downsample u then 0 else unit_kernel_size u / 2)
                      stride;
                 BatchNorm D (unit_out u);
                 ReLU;
                 Conv D (unit_out u) (unit_out u) (unit_kernel_size u)
                      (unit_kernel_size u / 2) 1 ] in
  let shortcut := x in
  do x <- bn x;
  do x <- ReLU x;
  do shortcut <- (if negb (unit_in u =? unit_out u) || unit_downsample u
                  then conv_shortcut x else ok shortcut);
  do x <- layers x;
  add x shortcut.

(** The units of [ResidualBlock.__init__], lines 209-221. *)
Definition ResidualBlock_units (in_channels out_channels block_size n_dim kernel_size : Z)
    (downsample : bool) : list ResidualUnitArgs :=
  (fun i => {| unit_in := if i =? 0 then in_channels else out_channels;
               unit_out := out_channels;
               unit_n_dim := n_dim;
               unit_kernel_size := kernel_size;
               unit_downsample := if i =? 0 then downsample else false |})
  <$> range 0 block_size.

(** [ResidualBlock.forward] *)
Definition ResidualBlock_shape (in_channels out_channels block_size n_dim kernel_size : Z)
    (downsample : bool) : list Z -> result (list Z) :=
  Sequential (ResidualUnit_shape
                <$> ResidualBlock_units in_channels out_channels block_size n_dim kernel_size
                                        downsample).

(** The block of an encoder stage: the plain [ResidualBlock] of lines
    361-368, or the [EncoderBlock] of lines 250-281 with its "res" or "conv"
    downsampling. *)
Definition EncoderBlock_shape (n_dim kernel_size : Z) (e : EncoderStage)
  : list Z -> result (list Z) :=
  match enc_downsampling e with
  | None =>
      ResidualBlock_shape (enc_in e) (enc_out e) (enc_block_size e) n_dim kernel_size false
  | Some method =>
      Sequential
        [ if bool_decide (method = "res")
          then ResidualBlock_shape (enc_in e) (enc_out e) 1 n_dim kernel_size true
          else Conv (spatial_rank n_dim) (enc_in e) (enc_out e) 2 0 2;
          ResidualBlock_shape (enc_out e) (enc_out e) (enc_block_size e) n_dim kernel_size
                              false ]
  end.

(** The three modules of a decoder stage, lines 410-465. *)
Definition upsampling_block_shape (n_dim kernel_size : Z) (d : DecoderStage)
  : list Z -> result (list Z) :=
  if bool_decide (up_mode d = "conv")
  then ConvTranspose (spatial_rank n_dim) (up_in d) (up_out d) 2 2
  else Sequential [ Upsample (up_mode d);
                    Conv (spatial_rank n_dim) (up_in d) (up_out d) kernel_size
                         (kernel_size / 2) 1 ].

Definition conv_after_upsample_shape (n_dim kernel_size : Z) (d : DecoderStage)
  : list Z -> result (list Z) :=
  match fusion_conv d with
  | None => Identity
  | Some (ci, co) => Conv (spatial_rank n_dim) ci co kernel_size (kernel_size / 2) 1
  end.

Definition decoder_block_shape (n_dim kernel_size : Z) (d : DecoderStage)
  : list Z -> result (list Z) :=
  ResidualBlock_shape (dec_in d) (dec_out d) (dec_block_size d) n_dim kernel_size false.

(** The modules of a network built by [UNet.__init__] with [ffc=False]; the
    FFC modules of a network built with [ffc=True] are not part of this
    development. *)
Definition UNet_modules (l : UNetLayout) : option (UNet (T := list Z)) :=
  let c := config l in
  let n := n_dim c in
  let k := kernel_size c in
  if ffc c then None
  else Some {| u_conv_first := Conv (spatial_rank n) (in_channels c) (base_channels c) k (k / 2) 1;
               u_encoder_blocks := EncoderBlock_shape n k <$> encoder_blocks l;
               u_bottom_block :=
                 ResidualBlock_shape (bottom_block l).1 (bottom_block l).2 1 n k false;
               u_upsampling_blocks := upsampling_block_shape n k <$> decoder_blocks l;
               u_decoder_blocks := decoder_block_shape n k <$> decoder_blocks l;
               u_conv_after_upsample_blocks :=
                 conv_after_upsample_shape n k <$> decoder_blocks l;
               u_skip_method := skip_method c |}.

(** [UNet(...)(x)]: construction, then the forward pass. *)
Definition UNet_shape (c : UNetConfig) (x : list Z) : option (result (list Z)) :=
  match UNet_init c with
  | inl e => Some (raise e)
  | inr l => (fun u => forward add_ cat u x) <$> UNet_modules l
  end.



(** A batched input of the blocks: [D] spatial axes, none of them empty,
    and more than one sample in training mode, as batch normalisation
    wants. *)
Definition well_formed (D : nat) (n : Z) (sp : list Z) : Prop :=
  length sp = D /\ (training = false \/ 2 <= n) /\ Forall (fun d => 1 <= d) sp.

(** Shape of the tensors at level [j] of a network, for an input whose
    spatial lengths are [2 ^ (depth - 1)] times [ms]. *)
Definition level (c : UNetConfig) (n : Z) (ms : list Z) (j : Z) : list Z :=
  n :: base_channels c * 2 ^ j :: ((fun m => 2 ^ (depth c - 1 - j) * m) <$> ms).

(** Two lengths that differ, neither of them 1, cannot be broadcast. *)
Definition clash (p : Z * Z) : Prop := p.1 <> p.2 /\ p.1 <> 1 /\ p.2 <> 1.

(** A batched shape whose spatial lengths are even, or an unbatched shape. *)
Definition even_shape (D : nat) (x : list Z) : Prop :=
  (exists n c sp, x = n :: c :: sp /\ length sp = D /\ Forall (fun d => d mod 2 = 0) sp)
  \/ length x = S D.

End Shapes.

(** The sub-modules [ResidualUnit.__init__] builds with [ffc=False], lines
    99-171, on shapes; the FFC blocks, which such a unit never calls, refuse
    every argument. *)
Definition ResidualUnit_init (training : bool) (a : ResidualUnitArgs)
  : ResidualUnit (V := list Z) :=
  let D := spatial_rank (unit_n_dim a) in
  let stride := if unit_downsample a then 2 else 1 in
  {| ru_in_channels := unit_in a;
     ru_out_channels := unit_out a;
     ru_downsample := unit_downsample a;
     ru_ffc := false;
     ru_bn := BatchNorm training D (unit_in a);
     ru_act := ReLU;
     ru_conv_shortcut := Conv D (unit_in a) (unit_out a) 1 0 stride;
     ru_layers_conv1 := Conv D (unit_in a) (unit_out a)
                             (if unit_downsample a then 2 else unit_kernel_size a)
                             (if unit_downsample a then 0 else unit_kernel_size a / 2)
                             stride;
     ru_layers_bn := BatchNorm training D (unit_out a);
     ru_layers_conv2 := Conv D (unit_out a) (unit_out a) (unit_kernel_size a)
                             (unit_kernel_size a / 2) 1;
     ru_ffc_shortcut := fun _ => raise RuntimeError;
     ru_ffc_layers := fun _ => raise RuntimeError |}.

End Network.

(** * util.py *)

Module Util.

(** ** [crop_as] and [center_crop]

    An array is represented by its shape, and what an indexing [x[sl]] keeps
    by the window [(start, stop)] it leaves on every axis. *)

(** [np.array(a) - np.array(b)] on two shape tuples: numpy subtracts entry
    by entry, stretches an operand of length 1 and refuses other pairs of
    lengths (the message is abridged). *)
Definition np_sub (a b : list Z) : result (list Z) :=
  if decide (length a = length b) then ok (zip_with Z.sub a b)
  else match a, b with
       | _, [y] => ok ((fun x => x - y) <$> a)
       | [x], _ => ok ((fun y => x - y) <$> b)
       | _, _ => raise (ValueError "operands could not be broadcast together")
       end.

(** [slice(start, stop)] on an axis of length [len]: a negative bound counts
    from the end, both bounds are clipped to the axis, and an empty window
    starts and stops at the same place. *)
Definition np_slice (len start stop : Z) : Z * Z :=
  let clip i := if i <? 0 then Z.max 0 (i + len) else Z.min i len in
  (clip start, Z.max (clip start) (clip stop)).

(** Shape of [x[sl]] for a tuple of slices no longer than the rank of [x]:
    axes without a slice are kept whole. *)
Definition sliced_shape (x : list Z) (sl : list (Z * Z)) : list Z :=
  ((fun w => w.2 - w.1) <$> sl) ++ drop (length sl) x.

(** [crop_as(x, gt)], lines 45-60, given the shapes of [x] and [gt]: the
    windows of the crop. *)
Definition crop_as (x gt : list Z) : result (list (Z * Z)) :=
  do diff <- np_sub x gt;
  do _ <- Network.assert 54 (forallb (fun d => 0 <=? d) diff);
  let top_left := (fun d => d / 2) <$> diff in
  let bottom_right := zip_with Z.sub diff top_left in
  let sl := zip_with (fun tl s_br => np_slice s_br.1 tl (s_br.1 - s_br.2))
                     top_left (zip x bottom_right) in
  do _ <- Network.assert 59 (bool_decide (sliced_shape x sl = gt));
  ok sl.

(** [center_crop(x, size)], lines 63-72, given the shape of [x]. *)
Definition center_crop (x : list Z) (size : Z) : list (Z * Z) :=
  let h := size / 2 in
  (fun d => np_slice d (Z.max 0 (d / 2 - h)) (Z.min (d / 2 + h + 1) d)) <$> x.

(** ** [normalize_min_mse]

    Array entries are exact rationals; a division by zero (numpy's [nan])
    is [None]. *)
Section MinMSE.

Local Open Scope Q_scope.

Definition sumQ (l : list Q) : Q := fold_right Qplus 0 l.

Definition sizeQ (l : list Q) : Q := inject_Z (Z.of_nat (length l)).

Definition divQ (a b : Q) : option Q :=
  if Qeq_bool b 0 then None else Some (a / b).

(** [np.mean(x)] *)
Definition np_mean (x : list Q) : option Q := divQ (sumQ x) (sizeQ x).

(** Sum of products of deviations from the means, divided by [N - ddof]. *)
Definition covariance (ddof : Z) (x y : list Q) : option Q :=
  mx ← np_mean x;
  my ← np_mean y;
  divQ (sumQ (zip_with (fun a b => (a - mx) * (b - my)) x y)) (sizeQ x - inject_Z ddof).

(** [np.cov(x, y)[0, 1]]: numpy's default is [ddof=1]. *)
Definition np_cov01 (x y : list Q) : option Q := covariance 1 x y.

(** [np.var(x)]: numpy's default is [ddof=0]. *)
Definition np_var (x : list Q) : option Q := covariance 0 x x.

(** Line 221: [np.cov(x, gt)[0, 1] / np.var(x)]. *)
Definition line_221 (x gt : list Q) : option Q :=
  c ← np_cov01 x gt;
  v ← np_var x;
  divQ c v.

(** Modelled as a parameter: [normalize_percentile(gt, 0.1, 99.9)], which
    rests on [np.percentile]. *)
Variable normalize_percentile : list Q -> list Q.

(** The scale of line 221 and the returned pair of line 222. *)
Definition normalize_min_mse_scaled (gt x : list Q) (normalize_gt : bool)
  : option (Q * (list Q * list Q)) :=
  let gt := if normalize_gt then normalize_percentile gt else gt in
  mx ← np_mean x;
  let x := (fun v => v - mx) <$> x in
  mg ← np_mean gt;
  let gt := (fun v => v - mg) <$> gt in
  scale ← line_221 x gt;
  Some (scale, (gt, (fun v => scale * v) <$> x)).

Definition normalize_min_mse (gt x : list Q) (normalize_gt : bool)
  : option (list Q * list Q) :=
  snd <$> normalize_min_mse_scaled gt x normalize_gt.

(** The least-squares scale of the claim: covariance over variance, both
    with the same divisor. *)
Definition min_mse_scale (ddof : Z) (gt x : list Q) : option Q :=
  c ← covariance ddof x gt;
  v ← covariance ddof x x;
  divQ c v.

(** Mean squared error between two arrays. *)
Definition mse (a b : list Q) : option Q :=
  divQ (sumQ (zip_with (fun u v => (u - v) * (u - v)) a b)) (sizeQ a).

End MinMSE.

(** ** [load_checkpoint_to_module] *)
Section Checkpoint.

(** State of a sub-module, and the state dictionaries stored for it. *)
Context {S D : Type}.

(** Modelled as a parameter: [torch.nn.Module.load_state_dict]; the state it
    leaves and the exception it raised, if any. *)
Variable load_state_dict : S -> D -> S * option exn.

(** What [getattr(module, attr)] may find: an object with a
    [load_state_dict] method, or one without (an [int], [None]). *)
Inductive attribute : Type :=
| Stateful (s : S)
| Plain.

Definition skip_message (attr : string) : string :=
  "Attribute " +:+ attr +:+ " is present in the checkpoint but absent in the class, do not load".

(** One turn of the loop of lines 305-311; the printed lines are collected. *)
Definition load_entry (st : gmap string attribute * list string) (entry : string * D)
  : result (gmap string attribute * list string) :=
  let '(module, log) := st in
  let '(attr, state_dict) := entry in
  match module !! attr with
  | None => ok (module, log ++ [skip_message attr])
  | Some Plain => ok (module, log ++ [skip_message attr])
  | Some (Stateful s) =>
      let '(s', raised) := load_state_dict s state_dict in
      let module := <[attr := Stateful s']> module in
      match raised with
      | None => ok (module, log)
      | Some AttributeError => ok (module, log ++ [skip_message attr])
      | Some e => raise e
      end
  end.

Fixpoint load_entries (st : gmap string attribute * list string) (items : list (string * D))
  : result (gmap string attribute * list string) :=
  match items with
  | [] => ok st
  | entry :: items' => do st' <- load_entry st entry; load_entries st' items'
  end.


(** [attr] is not an attribute of the module. *)
Definition absent (module : gmap string attribute) (attr : string) : bool :=
  match module !! attr with
  | None => true
  | Some _ => false
  end.

(** [getattr(module, attr).load_state_dict] raises [AttributeError]: the
    attribute is absent, or it is present and has no such method. *)
Definition skipped (module : gmap string attribute) (attr : string) : bool :=
  match module !! attr with
  | Some (Stateful _) => false
  | _ => true
  end.


End Checkpoint.

(** ** [mutual_information]

    A float64 is a [spec_float] with the arithmetic of the binary64 format
    ([prec = 53], [emax = 1024]), rounded to nearest even.  Three functions
    of numpy are parameters: [np.log2] (the logarithm of the platform), the
    reduction [.sum()] of an array of floats (numpy adds in blocks,
    pairwise), and the bin in which [np.histogram2d] puts a value on one
    axis.  The table holds counts; their sums are integers that float64
    holds exactly below [2 ^ 53], in whatever order they are added, and are
    taken in [Z]. *)
Section MutualInformation.

Definition float64 : Type := spec_float.

Definition fadd : float64 -> float64 -> float64 := SFadd 53 1024.
Definition fsub : float64 -> float64 -> float64 := SFsub 53 1024.
Definition fmul : float64 -> float64 -> float64 := SFmul 53 1024.
Definition fdiv : float64 -> float64 -> float64 := SFdiv 53 1024.
Definition fneg : float64 -> float64 := SFopp.

(** Python's [x <= y] on floats. *)
Definition fle : float64 -> float64 -> bool := SFleb.

(** An integer as a float64. *)
Definition of_int (z : Z) : float64 := binary_normalize 53 1024 z 0 false.

(** [np.isfinite] *)
Definition isfinite (x : float64) : bool :=
  match x with
  | S754_zero _ | S754_finite _ _ _ => true
  | S754_infinity _ | S754_nan => false
  end.

(** Neither a zero nor a finite number. *)
Definition nan_or_inf (x : float64) : Prop := x = S754_nan \/ exists s, x = S754_infinity s.

(** [0 <= x <= 1] *)
Definition in_unit_interval (x : float64) : bool := fle (of_int 0) x && fle x (of_int 1).

(** Modelled as parameters: [np.log2] on a float64, the sum of a
    one-dimensional array of float64, and the index of the bin of [v] when
    [np.histogram2d] cuts the range of the sample [xs] into [bins] bins. *)
Variable np_log2 : float64 -> float64.
Variable np_sum : list float64 -> float64.
Variable bin_of : list float64 -> nat -> float64 -> nat.

(** A two-dimensional array of counts: its shape and its entries. *)
Record table : Type := {
  rows : nat;
  cols : nat;
  entry : nat -> nat -> Z
}.

(** All index pairs, in row-major order. *)
Definition cells (t : table) : list (nat * nat) :=
  i ← seq 0 (rows t); j ← seq 0 (cols t); [(i, j)].

Definition sumZ (l : list Z) : Z := fold_right Z.add 0%Z l.

(** [np.nonzero(contingency)] *)
Definition nonzero (t : table) : list (nat * nat) :=
  filter (fun ij => entry t ij.1 ij.2 <> 0%Z) (cells t).

(** [contingency.sum()] *)
Definition table_sum (t : table) : Z :=
  sumZ ((fun ij => entry t ij.1 ij.2) <$> cells t).

(** [contingency.sum(axis=1)[i]] and [contingency.sum(axis=0)[j]] *)
Definition row_sum (t : table) (i : nat) : Z :=
  sumZ ((fun j => entry t i j) <$> seq 0 (cols t)).
Definition col_sum (t : table) (j : nat) : Z :=
  sumZ ((fun i => entry t i j) <$> seq 0 (rows t)).

(** The product of two [np.int64] wraps around. *)
Definition mul_int64 (x y : Z) : Z := (x * y + 2 ^ 63) mod 2 ^ 64 - 2 ^ 63.

(** Lines 349-368. *)
Definition joint_entropy_from_contingency (t : table) : float64 :=
  let contingency_sum := of_int (table_sum t) in
  np_sum ((fun ij =>
             let nz_val := of_int (entry t ij.1 ij.2) in
             let p := fdiv nz_val contingency_sum in
             let log_p := np_log2 p in
             fmul (fneg p) log_p) <$> nonzero t).

(** Lines 371-397. *)
Definition mutual_info_from_contingency (t : table) : float64 :=
  let contingency_sum := of_int (table_sum t) in
  let pi_sum := of_int (sumZ (row_sum t <$> seq 0 (rows t))) in
  let pj_sum := of_int (sumZ (col_sum t <$> seq 0 (cols t))) in
  np_sum ((fun ij =>
             let nz_val := of_int (entry t ij.1 ij.2) in
             let log_contingency_nm := np_log2 nz_val in
             let contingency_nm := fdiv nz_val contingency_sum in
             let outer := mul_int64 (row_sum t ij.1) (col_sum t ij.2) in
             let log_outer :=
               fadd (fadd (fneg (np_log2 (of_int outer))) (np_log2 pi_sum)) (np_log2 pj_sum) in
             fadd (fmul contingency_nm (fsub log_contingency_nm (np_log2 contingency_sum)))
                  (fmul contingency_nm log_outer)) <$> nonzero t).

(** Lines 344-346, given the contingency table: the division is the
    float64 one, which returns [nan] or an infinity for a zero divisor. *)
Definition mutual_information_of (c_xy : table) (normalised : bool) : float64 :=
  let mi := mutual_info_from_contingency c_xy in
  if normalised then fdiv mi (joint_entropy_from_contingency c_xy) else mi.

(** The counts of [np.histogram2d(x, y, bins)[0]] for an integer [bins]:
    cell [(i, j)] counts the pairs whose first value falls in bin [i] of
    [x] and whose second value falls in bin [j] of [y]. *)
Definition histogram_counts (x y : list float64) (bins : nat) : table :=
  {| rows := bins; cols := bins;
     entry := fun i j =>
       Z.of_nat (length (filter (fun uv => bin_of x bins uv.1 = i /\ bin_of y bins uv.2 = j)
                                (zip x y))) |}.

(** [np.histogram2d(x, y, bins)[0]]: the two samples must have one length,
    [bins] must be positive and every value finite (the messages are
    abridged). *)
Definition histogram2d (x y : list float64) (bins : nat) : result table :=
  if negb (length x =? length y)%nat
  then raise (ValueError "x and y must have the same length.")
  else if (bins =? 0)%nat
  then raise (ValueError "`bins[0]` must be positive, when an integer")
  else if negb (forallb isfinite (x ++ y))
  then raise (ValueError "autodetected range is not finite")
  else ok (histogram_counts x y bins).

(** [mutual_information(image_a, image_b, bins, normalised)] on flattened
    images. *)
Definition mutual_information (image_a image_b : list float64) (bins : nat) (normalised : bool)
  : result float64 :=
  do c_xy <- histogram2d image_a image_b bins;
  ok (mutual_information_of c_xy normalised).

End MutualInformation.

End Util.

(** * Facts *)

Lemma bind_ok {A B} (a : A) (k : A -> result B) : bind (ok a) k = k a.
Proof. reflexivity. Qed.

Lemma bind_raise {A B} (e : exn) (k : A -> result B) : bind (raise e) k = raise e.
Proof. reflexivity. Qed.

Lemma mapM_ok {A B} (f : A -> result B) (g : A -> B) (l : list A) :
  Forall (fun a => f a = ok (g a)) l -> mapM f l = ok (g <$> l).
Proof.
  induction 1 as [|a l Ha _ IH]; [reflexivity|].
  cbn. rewrite Ha, IH. reflexivity.
Qed.

Lemma index_lookup {A} (l : list A) (i : nat) (a : A) :
  l !! i = Some a -> index l (Z.of_nat i) = ok a.
Proof.
  intros H. unfold index.
  destruct (Z.ltb_spec (Z.of_nat i) 0); [lia|].
  rewrite Nat2Z.id, H. reflexivity.
Qed.

Section FFTConvShapes.
Import FFTConv.

(** A few calls, evaluated. *)
Example fft_conv_3x3_stride_2 :
  fft_conv [1; 1; 5; 7] [1; 1; 3; 3] None (Pad (Int 1)) (Int 2) 1 = ok [1; 1; 3; 4].
Proof. reflexivity. Qed.

Example fft_conv_same_even_kernel :
  fft_conv [2; 3; 9; 9; 9] [5; 3; 4; 4; 4] (Some 5) Same (Tuple [1; 2; 3]) 1
  = ok [2; 5; 9; 5; 3].
Proof. reflexivity. Qed.

Example fft_conv_stride_0 :
  fft_conv [1; 1; 8] [1; 1; 3] None (Pad (Int 0)) (Int 0) 1
  = raise (ValueError "step must be greater than zero").
Proof. reflexivity. Qed.

(** A kernel longer than the padded signal is cropped by its negative
    padding; the stop of the crop is then negative and counts from the end
    of the axis handed to the transform. *)
Example fft_conv_kernel_longer_than_signal :
  fft_conv [1; 1; 3] [1; 1; 5] None (Pad (Int 0)) (Int 1) 1 = ok [1; 1; 3]
  /\ fft_conv [1; 1; 4] [1; 1; 6] None (Pad (Int 0)) (Int 1) 1 = ok [1; 1; 2].
Proof. split; reflexivity. Qed.

Example to_ntuple_wrong_length :
  to_ntuple (Tuple [1; 2]) 3 = raise (ValueError "Cannot cast tuple of length 2 to length 3.").
Proof. reflexivity. Qed.

Example FFTConv2d_grouped_weight :
  on_ok weight (FFTConv_init 4 6 (Int 3) (Int 0) (Int 1) 2 true 2) = ok [6; 2; 3; 3].
Proof. reflexivity. Qed.

Lemma map_last_snoc f l x : map_last f (l ++ [x]) = l ++ [f x].
Proof.
  unfold map_last. rewrite reverse_snoc, reverse_cons, reverse_involutive.
  reflexivity.
Qed.

Lemma map_last_cons f a l : l <> [] -> map_last f (a :: l) = a :: map_last f l.
Proof.
  intros Hl. destruct (exists_last Hl) as [l' [x ->]].
  rewrite app_comm_cons, !map_last_snoc. reflexivity.
Qed.

Lemma pad_rev_map {X} (d l r : X -> Z) (xs : list X) (tl : list Z) :
  Forall (fun x => 0 <= d x + l x + r x) xs ->
  pad_rev ((d <$> xs) ++ tl) (xs ≫= (fun x => [l x; r x]))
  = ok (((fun x => d x + l x + r x) <$> xs) ++ tl).
Proof.
  induction 1 as [|x xs Hx _ IH]; [reflexivity|].
  cbn [fmap list_fmap mbind list_bind app pad_rev].
  destruct (Z.ltb_spec (d x + l x + r x) 0); [lia|].
  cbn in IH. rewrite IH. reflexivity.
Qed.

Lemma f_pad_map {X} (d l r : X -> Z) (xs : list X) (b c : Z) :
  Forall (fun x => 0 <= d x + l x + r x) xs ->
  f_pad (b :: c :: (d <$> xs)) (reverse xs ≫= (fun x => [l x; r x]))
  = ok (b :: c :: ((fun x => d x + l x + r x) <$> xs)).
Proof.
  intros H. unfold f_pad.
  replace (reverse (b :: c :: (d <$> xs))) with ((d <$> reverse xs) ++ [c; b]).
  2:{ rewrite !reverse_cons, fmap_reverse, <- app_assoc. reflexivity. }
  rewrite pad_rev_map by (apply Forall_reverse; exact H).
  cbn. rewrite reverse_app, fmap_reverse, reverse_involutive. reflexivity.
Qed.

Lemma mjoin_fmap {A B} (g : A -> list B) (l : list A) : mjoin (g <$> l) = l ≫= g.
Proof. induction l as [|a l IH]; csimpl; [reflexivity | rewrite IH; reflexivity]. Qed.

Lemma index_spatial (b c : Z) (L : list Z) (j : Z) :
  2 <= j < 2 + Z.of_nat (length L) ->
  index (b :: c :: L) j = ok (L !!! Z.to_nat (j - 2)).
Proof.
  intros Hj. replace j with (Z.of_nat (S (S (Z.to_nat (j - 2))))) at 1 by lia.
  apply index_lookup. cbn. apply list_lookup_lookup_total_lt. lia.
Qed.

Lemma index_stride (L : list Z) (j : Z) :
  2 <= j < 2 + Z.of_nat (length L) ->
  index L (j - 2) = ok (L !!! Z.to_nat (j - 2)).
Proof.
  intros Hj. replace (j - 2) with (Z.of_nat (Z.to_nat (j - 2))) at 1 by lia.
  apply index_lookup. apply list_lookup_lookup_total_lt. lia.
Qed.

Lemma fmap_seqZ_lookup {A} `{!Inhabited A} (L : list A) :
  (fun j => L !!! Z.to_nat (j - 2)) <$> seqZ 2 (Z.of_nat (length L)) = L.
Proof.
  apply list_eq. intros i. rewrite list_lookup_fmap.
  destruct (decide (i < length L)%nat) as [Hi|Hi].
  - rewrite lookup_seqZ_lt by lia. cbn.
    replace (Z.to_nat (2 + Z.of_nat i - 2)) with i by lia.
    symmetry. apply list_lookup_lookup_total_lt. exact Hi.
  - rewrite lookup_seqZ_ge by lia. cbn. symmetry. apply lookup_ge_None. lia.
Qed.

Lemma fmap_seqZ_lookup_fmap {A B} `{!Inhabited A} (f : A -> B) (L : list A) :
  (fun j => f (L !!! Z.to_nat (j - 2))) <$> seqZ 2 (Z.of_nat (length L)) = f <$> L.
Proof.
  rewrite <- (fmap_seqZ_lookup L) at 2. rewrite <- list_fmap_compose. reflexivity.
Qed.

(** The even-length step of lines 97-99. *)
Lemma last_spatial (b c : Z) (P : list Z) : P <> [] -> last (b :: c :: P) = last P.
Proof. destruct P as [|x P]; [congruence|]. reflexivity. Qed.

Lemma f_pad_one_more (shape : list Z) (x : Z) :
  0 <= x -> f_pad (shape ++ [x]) [0; 1] = ok (shape ++ [x + 1]).
Proof.
  intros Hx. unfold f_pad. rewrite reverse_snoc. cbn.
  destruct (Z.ltb_spec (x + 0 + 1) 0); [lia|]. cbn [bind ok].
  rewrite reverse_cons, reverse_involutive. do 3 f_equal. lia.
Qed.

Lemma even_step (shape : list Z) (x : Z) :
  0 <= x ->
  (if negb (x mod 2 =? 0) then f_pad (shape ++ [x]) [0; 1] else ok (shape ++ [x]))
  = ok (even_up (shape ++ [x])).
Proof.
  intros Hx. unfold even_up. rewrite map_last_snoc.
  destruct (Z.eqb_spec (x mod 2) 0) as [E|E]; cbn.
  - rewrite E, Z.add_0_r. reflexivity.
  - rewrite f_pad_one_more by exact Hx.
    replace (x mod 2) with 1 by (pose proof (Z.mod_pos_bound x 2); lia). reflexivity.
Qed.

Lemma kernel_padding_ok (b c o cg : Z) (S K : list Z) :
  length K = length S ->
  kernel_padding_of (b :: c :: S) (o :: cg :: K)
  = ok (reverse (seqZ 2 (Z.of_nat (length S)))
          ≫= (fun j => [0; S !!! Z.to_nat (j - 2) - K !!! Z.to_nat (j - 2)])).
Proof.
  intros HK. unfold kernel_padding_of, range, ndim.
  replace (Z.of_nat (length (b :: c :: S)) - 2) with (Z.of_nat (length S)) by (cbn; lia).
  erewrite mapM_ok.
  - cbn [bind ok]. rewrite mjoin_fmap. reflexivity.
  - apply Forall_reverse, Forall_seqZ. intros j Hj.
    rewrite !index_spatial by lia. reflexivity.
Qed.

Lemma f_pad_kernel (o cg : Z) (S K : list Z) :
  length K = length S -> Forall (fun s => 0 <= s) S ->
  f_pad (o :: cg :: K)
    (reverse (seqZ 2 (Z.of_nat (length S)))
       ≫= (fun j => [0; S !!! Z.to_nat (j - 2) - K !!! Z.to_nat (j - 2)]))
  = ok (o :: cg :: S).
Proof.
  intros HK HS.
  rewrite <- (fmap_seqZ_lookup K) at 1. rewrite HK.
  rewrite (f_pad_map (fun j => K !!! Z.to_nat (j - 2)) (fun _ => 0)).
  - do 3 f_equal. etransitivity; [|apply (fmap_seqZ_lookup S)].
    apply list_fmap_ext. intros i j _. lia.
  - apply Forall_seqZ. intros j Hj.
    assert (0 <= S !!! Z.to_nat (j - 2)); [|lia].
    rewrite Forall_lookup in HS. apply (HS (Z.to_nat (j - 2))).
    apply list_lookup_lookup_total_lt. lia.
Qed.

Lemma to_ntuple_as_tuple (v : int_or_tuple) (l : list Z) :
  as_tuple v l -> to_ntuple v (Z.of_nat (length l)) = ok l.
Proof.
  intros [-> | [p [-> Hl]]]; cbn.
  - rewrite Z.eqb_refl. reflexivity.
  - rewrite Nat2Z.id, <- Hl. reflexivity.
Qed.

Lemma bind_fmap_list {A B C} (f : A -> B) (g : B -> list C) (l : list A) :
  (f <$> l) ≫= g = l ≫= (fun a => g (f a)).
Proof. induction l as [|a l IH]; csimpl; [reflexivity | rewrite IH; reflexivity]. Qed.

Lemma length_map_last f l : length (map_last f l) = length l.
Proof.
  destruct l as [|a l] using rev_ind; [reflexivity|].
  rewrite map_last_snoc, !length_app. reflexivity.
Qed.

Lemma map_last_Forall (Q : Z -> Prop) f l :
  (forall d, Q d -> Q (f d)) -> Forall Q l -> Forall Q (map_last f l).
Proof.
  intros Hf. destruct l as [|a l _] using rev_ind; [intros; constructor|].
  rewrite map_last_snoc, !Forall_app, !Forall_singleton. intros [? ?]. auto.
Qed.

Lemma even_up_ge (d : Z) : 0 <= d mod 2 <= 1.
Proof. pose proof (Z.mod_pos_bound d 2). lia. Qed.

Lemma even_step_spatial (b c : Z) (P : list Z) :
  P <> [] -> Forall (fun d => 0 <= d) P ->
  exists x, last (b :: c :: P) = Some x
    /\ (if negb (x mod 2 =? 0) then f_pad (b :: c :: P) [0; 1] else ok (b :: c :: P))
       = ok (b :: c :: even_up P).
Proof.
  intros Hne HP. destruct (exists_last Hne) as [front [x ->]].
  rewrite Forall_app, Forall_singleton in HP. destruct HP as [_ Hx].
  exists x. rewrite !app_comm_cons, last_snoc. split; [reflexivity|].
  rewrite even_step by exact Hx. unfold even_up. rewrite !map_last_snoc. reflexivity.
Qed.

(** Lines 77-107 on a well-formed call: the signal is padded axis by axis,
    its last axis is rounded up to an even length, and the kernel is padded
    to the very same spatial size. *)
Lemma prepare_ok (b c o cg : Z) (axes : list axis) (pad stride : int_or_tuple) :
  axes <> [] ->
  Forall (fun a => 0 <= padded_len a) axes ->
  as_tuple pad (a_pad <$> axes) ->
  as_tuple stride (a_stride <$> axes) ->
  prepare (b :: c :: (a_in <$> axes)) (o :: cg :: (a_kernel <$> axes)) (Pad pad) stride
  = ok (a_stride <$> axes,
        b :: c :: (padded_len <$> axes),
        b :: c :: even_up (padded_len <$> axes),
        o :: cg :: even_up (padded_len <$> axes)).
Proof.
  intros Hne Hpos Hpad Hstride. unfold prepare.
  assert (Hnd : ndim (b :: c :: (a_in <$> axes)) - 2 = Z.of_nat (length axes)).
  { unfold ndim. cbn. rewrite length_fmap. lia. }
  rewrite Hnd.
  rewrite <- (length_fmap a_stride axes) at 1.
  rewrite (to_ntuple_as_tuple _ _ Hstride). cbn [bind ok].
  rewrite <- (length_fmap a_pad axes).
  rewrite (to_ntuple_as_tuple _ _ Hpad). cbn [bind ok].
  unfold signal_padding_of. rewrite <- fmap_reverse, bind_fmap_list.
  rewrite (f_pad_map a_in a_pad a_pad) by exact Hpos. cbn [bind ok].
  change (fun x => a_in x + a_pad x + a_pad x) with padded_len.
  set (P := padded_len <$> axes).
  assert (HP : Forall (fun d => 0 <= d) P) by (apply Forall_fmap; exact Hpos).
  assert (HPne : P <> []) by (unfold P; destruct axes; [congruence | discriminate]).
  destruct (even_step_spatial b c P HPne HP) as (x & Hlast & Hstep).
  rewrite Hlast. cbn [bind ok]. rewrite Hstep. cbn [bind ok].
  assert (HlenK : length (a_kernel <$> axes) = length (even_up P)).
  { unfold even_up, P. rewrite length_map_last, !length_fmap. reflexivity. }
  rewrite (kernel_padding_ok b c o cg (even_up P) _ HlenK). cbn [bind ok].
  rewrite f_pad_kernel; [reflexivity | exact HlenK |].
  unfold even_up. apply map_last_Forall; [|exact HP].
  intros d Hd. pose proof (even_up_ge d). lia.
Qed.

Lemma forallb_ge (m : Z) (l : list Z) :
  Forall (fun d => m <= d) l -> forallb (fun d => m <=? d) l = true.
Proof.
  induction 1 as [|d l Hd _ IH]; [reflexivity|].
  cbn. rewrite IH. destruct (Z.leb_spec m d); [reflexivity | lia].
Qed.

Lemma numel_cons (d : Z) (l : list Z) : numel (d :: l) = d * numel l.
Proof. reflexivity. Qed.

Lemma numel_nil : numel [] = 1.
Proof. reflexivity. Qed.

Lemma numel_pos (l : list Z) : Forall (fun d => 1 <= d) l -> 1 <= numel l.
Proof.
  induction 1 as [|d l Hd _ IH]; [rewrite numel_nil; lia|].
  rewrite numel_cons. nia.
Qed.

Lemma map_last_spatial f (b c : Z) (S : list Z) :
  S <> [] -> map_last f (b :: c :: S) = b :: c :: map_last f S.
Proof. intros HS. rewrite !map_last_cons; [reflexivity | exact HS | discriminate]. Qed.

Lemma map_last_map_last f g l : map_last f (map_last g l) = map_last (fun d => f (g d)) l.
Proof.
  destruct l as [|a l _] using rev_ind; [reflexivity|].
  rewrite !map_last_snoc. reflexivity.
Qed.

Lemma map_last_ext f g l : (forall d, f d = g d) -> map_last f l = map_last g l.
Proof.
  intros H. destruct l as [|a l _] using rev_ind; [reflexivity|].
  rewrite !map_last_snoc, H. reflexivity.
Qed.

Lemma map_last_nonempty f l : l <> [] -> map_last f l <> [].
Proof.
  intros Hl E. apply (f_equal length) in E. rewrite length_map_last in E.
  destruct l; [congruence | discriminate].
Qed.

Lemma rfftn_ok (b c : Z) (S : list Z) :
  S <> [] -> Forall (fun d => 1 <= d) S ->
  rfftn_shape (b :: c :: S) = ok (b :: c :: map_last (fun n => n / 2 + 1) S).
Proof.
  intros Hne HS. unfold rfftn_shape, ndim.
  destruct (Z.leb_spec 3 (Z.of_nat (length (b :: c :: S)))) as [_|Hlen].
  2:{ destruct S; [congruence | cbn [length] in Hlen; lia]. }
  cbn [skipn andb]. rewrite drop_0, forallb_ge by exact HS.
  rewrite map_last_spatial by exact Hne. reflexivity.
Qed.

Lemma view_infer_ok (n : Z) (shape before after : list Z) :
  Forall (fun d => 0 <= d) (before ++ after) ->
  0 < numel before * numel after ->
  numel shape = n * (numel before * numel after) ->
  view_infer shape before after = ok n.
Proof.
  intros Hnn Hpos Hn. unfold view_infer.
  rewrite forallb_ge by exact Hnn.
  destruct (Z.ltb_spec 0 (numel before * numel after)); [|lia].
  rewrite Hn, Z.mod_mul, Z.div_mul by lia. reflexivity.
Qed.

Lemma Forall_ge_weaken (m n : Z) (l : list Z) :
  m <= n -> Forall (fun d => n <= d) l -> Forall (fun d => m <= d) l.
Proof. intros Hmn H. eapply Forall_impl; [exact H|]. intros d Hd. cbn in *. lia. Qed.

(** Ungrouped multiplication: batch and spatial axes are kept, the channel
    axis is contracted against the kernel's. *)
Lemma complex_matmul_ok (b c o : Z) (F : list Z) :
  1 <= b -> 1 <= c -> 0 <= o -> Forall (fun d => 1 <= d) F ->
  complex_matmul (b :: c :: F) (o :: c :: F) 1 = ok (b :: o :: F).
Proof.
  intros Hb Hc Ho HF. pose proof (numel_pos F HF) as HnF.
  assert (HF0 : Forall (fun d => 0 <= d) F) by (apply (Forall_ge_weaken 0 1); [lia | exact HF]).
  unfold complex_matmul.
  rewrite (view_infer_ok c).
  2:{ cbn [app]. constructor; [lia|]. constructor; [lia|]. exact HF0. }
  2:{ rewrite !numel_cons, numel_nil. nia. }
  2:{ rewrite !numel_cons, numel_nil. nia. }
  cbn [bind ok].
  rewrite (view_infer_ok o).
  2:{ cbn [app]. constructor; [lia|]. constructor; [lia|]. exact HF0. }
  2:{ rewrite !numel_cons, numel_nil. nia. }
  2:{ rewrite !numel_cons, numel_nil. nia. }
  cbn [bind ok].
  unfold broadcastable. rewrite Z.eqb_refl. cbn [orb andb].
  rewrite bool_decide_eq_true_2 by reflexivity.
  rewrite (view_infer_ok o).
  - reflexivity.
  - constructor; [lia | exact HF0].
  - rewrite !numel_cons, numel_nil. nia.
  - rewrite !numel_cons, numel_nil. nia.
Qed.

Lemma even_up_half (d : Z) : 2 * ((d + d mod 2) / 2 + 1 - 1) = d + d mod 2.
Proof.
  pose proof (Z.div_mod (d + d mod 2) 2 ltac:(lia)) as Hdm.
  assert (Hz : (d + d mod 2) mod 2 = 0).
  { rewrite Zplus_mod_idemp_r. replace (d + d) with (d * 2) by lia. apply Z.mod_mul. lia. }
  lia.
Qed.

Lemma irfftn_ok (b o : Z) (P : list Z) :
  P <> [] -> Forall (fun d => 1 <= d) P ->
  irfftn_shape (b :: o :: map_last (fun n => n / 2 + 1) (even_up P))
  = ok (b :: o :: even_up P).
Proof.
  intros Hne HP. unfold irfftn_shape, ndim.
  assert (Hne' : map_last (fun n => n / 2 + 1) (even_up P) <> []).
  { apply map_last_nonempty, map_last_nonempty, Hne. }
  rewrite map_last_spatial by exact Hne'.
  assert (Hback : map_last (fun m => 2 * (m - 1)) (map_last (fun n => n / 2 + 1) (even_up P))
                  = even_up P).
  { unfold even_up. rewrite !map_last_map_last. apply map_last_ext.
    intros d. apply even_up_half. }
  rewrite Hback.
  destruct (Z.leb_spec 3 (Z.of_nat (length (b :: o :: map_last (fun n => n / 2 + 1) (even_up P)))))
    as [_|Hlen].
  2:{ unfold even_up in Hlen. cbn [length] in Hlen. rewrite !length_map_last in Hlen.
      destruct P; [congruence | cbn [length] in Hlen; lia]. }
  cbn [skipn andb].
  assert (HE : Forall (fun d => 1 <= d) (even_up P)).
  { unfold even_up. apply map_last_Forall; [|exact HP].
    intros d Hd. pose proof (even_up_ge d). lia. }
  rewrite !drop_0. rewrite (forallb_ge 1 (even_up P)) by exact HE.
  rewrite forallb_ge; [reflexivity|].
  apply map_last_Forall; [|exact HE].
  intros d Hd. pose proof (Z.div_pos d 2). lia.
Qed.

Lemma even_up_ge_pointwise (P : list Z) : Forall2 Z.le P (even_up P).
Proof.
  unfold even_up. destruct P as [|x P _] using rev_ind; [constructor|].
  rewrite map_last_snoc. apply Forall2_app.
  - apply Forall_Forall2_diag, Forall_forall. intros; lia.
  - constructor; [|constructor]. pose proof (even_up_ge x). lia.
Qed.

Lemma slice_len_fits (len p k s : Z) :
  1 <= k <= p -> p <= len -> 1 <= s ->
  slice_len len (p - k + k mod 2) s = ok ((p - k + k mod 2 + s - 1) / s).
Proof.
  intros Hk Hlen Hs. unfold slice_len. pose proof (even_up_ge k).
  destruct (Z.leb_spec s 0); [lia|].
  destruct (Z.ltb_spec (p - k + k mod 2) 0); [lia|].
  rewrite Z.min_l by lia. reflexivity.
Qed.

Lemma index_axes (f : axis -> Z) (b c : Z) (axes : list axis) (j : Z) :
  2 <= j < 2 + Z.of_nat (length axes) ->
  index (b :: c :: (f <$> axes)) j = ok (f (axes !!! Z.to_nat (j - 2))).
Proof.
  intros Hj. rewrite index_spatial by (rewrite length_fmap; lia).
  rewrite (list_lookup_total_fmap f axes) by lia. reflexivity.
Qed.

(** Lines 121-132 on a well-formed call: each spatial axis keeps
    [ceil((padded - kernel + kernel % 2) / stride)] entries, whatever the
    length [S] of the axis being cropped, as long as it is no shorter than
    the recorded padded length. *)
Lemma crop_ok (b c o o' cg : Z) (axes : list axis) (S : list Z) :
  Forall fits axes ->
  Forall2 Z.le (padded_len <$> axes) S ->
  crop (b :: o :: S) (b :: c :: (padded_len <$> axes)) (o' :: cg :: (a_kernel <$> axes))
       (a_stride <$> axes) (ndim (b :: c :: S))
  = ok (b :: o :: (out_len <$> axes)).
Proof.
  intros Hfits HS. unfold crop, range, ndim.
  assert (HlenS : length S = length axes).
  { apply Forall2_length in HS. rewrite length_fmap in HS. lia. }
  replace (Z.of_nat (length (b :: c :: S)) - 2) with (Z.of_nat (length axes))
    by (cbn [length]; lia).
  rewrite (mapM_ok _ (fun j => out_len (axes !!! Z.to_nat (j - 2)))).
  - cbn [bind ok]. rewrite fmap_seqZ_lookup_fmap. reflexivity.
  - apply Forall_seqZ. intros j Hj.
    assert (Hi : (Z.to_nat (j - 2) < length axes)%nat) by lia.
    destruct (lookup_lt_is_Some_2 axes _ Hi) as [a Ha].
    rewrite (list_lookup_total_correct _ _ _ Ha).
    rewrite index_spatial by lia.
    rewrite !index_axes by lia.
    rewrite (list_lookup_total_correct _ _ _ Ha).
    rewrite <- (length_fmap a_stride axes) in Hj.
    rewrite index_stride by lia.
    rewrite (list_lookup_total_fmap a_stride axes) by lia.
    rewrite (list_lookup_total_correct _ _ _ Ha).
    cbn [bind ok].
    rewrite Forall_lookup in Hfits. destruct (Hfits _ _ Ha) as [Hk Hs].
    destruct (lookup_lt_is_Some_2 S (Z.to_nat (j - 2)) ltac:(lia)) as [len Hlen].
    rewrite (list_lookup_total_correct _ _ _ Hlen).
    assert (Hle : padded_len a <= len).
    { eapply (Forall2_lookup_lr _ _ _ _ _ _ HS); [|exact Hlen].
      rewrite list_lookup_fmap, Ha. reflexivity. }
    unfold out_len. apply slice_len_fits; assumption.
Qed.

Lemma add_bias_ok (b o : Z) (rest : list Z) (bias : option Z) :
  0 <= o -> bias_fits bias o -> add_bias (b :: o :: rest) bias = ok (b :: o :: rest).
Proof.
  intros Ho [-> | [-> | ->]]; [reflexivity| |]; unfold add_bias; cbn [index bind ok].
  - change (index (b :: o :: rest) 1) with (ok (A:=Z) o). cbn [bind ok].
    destruct (Z.leb_spec 0 o); [|lia]. rewrite Z.eqb_refl. reflexivity.
  - change (index (b :: o :: rest) 1) with (ok (A:=Z) o). cbn [bind ok].
    rewrite orb_true_r. reflexivity.
Qed.

Lemma fits_padded_pos (axes : list axis) :
  Forall fits axes -> Forall (fun d => 1 <= d) (padded_len <$> axes).
Proof.
  intros H. apply Forall_fmap. eapply Forall_impl; [exact H|].
  intros a [Hk _]. cbn. lia.
Qed.

Lemma fits_padded_nonneg (axes : list axis) :
  Forall fits axes -> Forall (fun a => 0 <= padded_len a) axes.
Proof. intros H. eapply Forall_impl; [exact H|]. intros a [Hk _]. cbn. lia. Qed.

(** The whole of [fft_conv] on a well-formed ungrouped call. *)
Lemma fft_conv_trace_ok (b c o : Z) (axes : list axis) (bias : option Z)
    (pad stride : int_or_tuple) :
  1 <= b -> 1 <= c -> 1 <= o ->
  axes <> [] -> Forall fits axes ->
  as_tuple pad (a_pad <$> axes) -> as_tuple stride (a_stride <$> axes) ->
  bias_fits bias o ->
  fft_conv_trace (b :: c :: (a_in <$> axes)) (o :: c :: (a_kernel <$> axes))
                 bias (Pad pad) stride 1
  = ok {| padded_size := b :: c :: (padded_len <$> axes);
          fft_size := b :: c :: even_up (padded_len <$> axes);
          output_shape := b :: o :: (out_len <$> axes) |}.
Proof.
  intros Hb Hc Ho Hne Hfits Hpad Hstride Hbias. unfold fft_conv_trace.
  rewrite prepare_ok by (auto using fits_padded_nonneg). cbn [bind ok].
  set (P := padded_len <$> axes).
  assert (HP : Forall (fun d => 1 <= d) P) by (apply fits_padded_pos; exact Hfits).
  assert (HPne : P <> []) by (unfold P; destruct axes; [congruence | discriminate]).
  assert (HE : Forall (fun d => 1 <= d) (even_up P)).
  { unfold even_up. apply map_last_Forall; [|exact HP].
    intros d Hd. pose proof (even_up_ge d). lia. }
  assert (HEne : even_up P <> []) by (apply map_last_nonempty; exact HPne).
  cbn [skipn].
  rewrite bool_decide_eq_true_2 by reflexivity. cbn [negb].
  rewrite !rfftn_ok by assumption. cbn [bind ok].
  rewrite complex_matmul_ok; [| lia | lia | lia |].
  2:{ apply map_last_Forall; [|exact HE]. intros d Hd. pose proof (Z.div_pos d 2). lia. }
  cbn [bind ok].
  rewrite irfftn_ok by assumption. cbn [bind ok].
  subst P. rewrite crop_ok; [| exact Hfits | apply even_up_ge_pointwise].
  cbn [bind ok].
  rewrite add_bias_ok by (assumption || lia). reflexivity.
Qed.

(** With a kernel whose channel axis differs from the signal's, the
    assertion of line 108 fails. *)
Lemma fft_conv_channel_mismatch (b c o cg groups : Z) (axes : list axis) (bias : option Z)
    (pad stride : int_or_tuple) :
  cg <> c ->
  axes <> [] -> Forall fits axes ->
  as_tuple pad (a_pad <$> axes) -> as_tuple stride (a_stride <$> axes) ->
  fft_conv (b :: c :: (a_in <$> axes)) (o :: cg :: (a_kernel <$> axes))
           bias (Pad pad) stride groups
  = raise (AssertionError 108).
Proof.
  intros Hcg Hne Hfits Hpad Hstride. unfold fft_conv, fft_conv_trace.
  rewrite prepare_ok by (auto using fits_padded_nonneg). cbn [bind ok].
  cbn [skipn].
  rewrite bool_decide_eq_false_2 by congruence. reflexivity.
Qed.

Lemma out_len_odd (a : axis) :
  1 <= a_stride a -> a_kernel a mod 2 = 1 ->
  out_len a = conv_out_len (a_in a) (a_pad a) (a_kernel a) (a_stride a).
Proof.
  intros Hs Hodd. unfold out_len, conv_out_len, padded_len. rewrite Hodd.
  rewrite <- Z.div_add by lia. f_equal. lia.
Qed.

Lemma out_len_even (a : axis) :
  1 <= a_stride a -> a_kernel a mod 2 = 0 ->
  out_len a = conv_out_len (a_in a) (a_pad a) (a_kernel a + 1) (a_stride a).
Proof.
  intros Hs Heven. unfold out_len, conv_out_len, padded_len. rewrite Heven.
  rewrite <- Z.div_add by lia. f_equal. lia.
Qed.

(** C1 (counterexample): with an even kernel the result is one entry shorter
    than a direct convolution's: a length-4 signal and a length-2 kernel,
    no padding, stride 1, give length 2 where the direct convolution gives
    [floor((4 + 0 - 2) / 1) + 1 = 3]. *)
Lemma fft_conv_even_kernel_shorter :
  let a := {| a_in := 4; a_pad := 0; a_kernel := 2; a_stride := 1 |} in
  fft_conv [1; 1; 4] [1; 1; 2] None (Pad (Int 0)) (Int 1) 1 = ok [1; 1; 2]
  /\ direct_conv_shape 1 1 [a] = [1; 1; 3]
  /\ fft_conv [1; 1; 4] [1; 1; 2] None (Pad (Int 0)) (Int 1) 1 <> ok (direct_conv_shape 1 1 [a]).
Proof. cbv zeta. repeat split. discriminate. Qed.

(** C1 (amended): for an ungrouped call whose kernel fits in the padded
    signal on every axis and whose strides are positive, [fft_conv] returns
    shape [(batch, out_channels, ...)] where every spatial length is
    [ceil((input + 2 * padding - kernel + kernel % 2) / stride)].  On an axis
    with an odd kernel this is the direct convolution's
    [floor((input + 2 * padding - kernel) / stride) + 1]; on an axis with an
    even kernel it is the direct convolution's length for a kernel one tap
    longer.  With odd kernels throughout the shape is the direct
    convolution's. *)
Theorem fft_conv_output_shape (b c o : Z) (axes : list axis) (bias : option Z)
    (pad stride : int_or_tuple) :
  1 <= b -> 1 <= c -> 1 <= o ->
  axes <> [] -> Forall fits axes ->
  as_tuple pad (a_pad <$> axes) -> as_tuple stride (a_stride <$> axes) ->
  bias_fits bias o ->
  fft_conv (b :: c :: (a_in <$> axes)) (o :: c :: (a_kernel <$> axes)) bias (Pad pad) stride 1
  = ok (b :: o :: (out_len <$> axes))
  /\ Forall (fun a =>
       (a_kernel a mod 2 = 1 ->
        out_len a = conv_out_len (a_in a) (a_pad a) (a_kernel a) (a_stride a))
       /\ (a_kernel a mod 2 = 0 ->
        out_len a = conv_out_len (a_in a) (a_pad a) (a_kernel a + 1) (a_stride a))) axes
  /\ (Forall (fun a => a_kernel a mod 2 = 1) axes ->
      fft_conv (b :: c :: (a_in <$> axes)) (o :: c :: (a_kernel <$> axes)) bias (Pad pad) stride 1
      = ok (direct_conv_shape b o axes)).
Proof.
  intros Hb Hc Ho Hne Hfits Hpad Hstride Hbias.
  assert (Hrun : fft_conv (b :: c :: (a_in <$> axes)) (o :: c :: (a_kernel <$> axes))
                          bias (Pad pad) stride 1 = ok (b :: o :: (out_len <$> axes))).
  { unfold fft_conv. rewrite fft_conv_trace_ok by assumption. reflexivity. }
  split; [exact Hrun|]. split.
  - eapply Forall_impl; [exact Hfits|]. intros a [_ Hs]. split; intros Hk.
    + apply out_len_odd; assumption.
    + apply out_len_even; assumption.
  - intros Hodd. rewrite Hrun. unfold direct_conv_shape. do 3 f_equal.
    apply Forall_fmap_ext_1.
    rewrite Forall_forall in Hfits, Hodd. apply Forall_forall. intros a Ha.
    destruct (Hfits a Ha) as [_ Hs]. apply out_len_odd; auto.
Qed.

Lemma fft_conv_output_shape_witness :
  fft_conv [2; 3; 8; 5] [4; 3; 3; 2] (Some 4) (Pad (Int 1)) (Tuple [1; 2]) 1 = ok [2; 4; 8; 3].
Proof.
  refine (proj1 (fft_conv_output_shape 2 3 4
            [ {| a_in := 8; a_pad := 1; a_kernel := 3; a_stride := 1 |};
              {| a_in := 5; a_pad := 1; a_kernel := 2; a_stride := 2 |} ]
            (Some 4) (Int 1) (Tuple [1; 2]) _ _ _ _ _ _ _ _)).
  - lia.
  - lia.
  - lia.
  - discriminate.
  - repeat (constructor; [unfold fits, padded_len; cbn; lia|]). constructor.
  - right. exists 1. split; reflexivity.
  - left. reflexivity.
  - right. left. reflexivity.
Defined.

(** C2: a grouped call never reaches the grouped multiplication.  For every
    [groups >= 2] dividing the channel counts, with the kernel shaped
    [(out_channels, in_channels / groups, ...)] as [_FFTConv] builds it, the
    assertion on line 108 compares the kernel's channel axis with the
    signal's and fails. *)
Theorem fft_conv_grouped_assertion_fails (b c o groups : Z) (axes : list axis)
    (bias : option Z) (pad stride : int_or_tuple) :
  2 <= groups -> 1 <= c -> c mod groups = 0 -> o mod groups = 0 ->
  axes <> [] -> Forall fits axes ->
  as_tuple pad (a_pad <$> axes) -> as_tuple stride (a_stride <$> axes) ->
  fft_conv (b :: c :: (a_in <$> axes)) (o :: c / groups :: (a_kernel <$> axes))
           bias (Pad pad) stride groups
  = raise (AssertionError 108).
Proof.
  intros Hg Hc _ _ Hne Hfits Hpad Hstride.
  apply fft_conv_channel_mismatch; try assumption.
  pose proof (Z.div_lt c groups). lia.
Qed.

Lemma fft_conv_grouped_assertion_fails_witness :
  fft_conv [1; 4; 8] [4; 2; 3] None (Pad (Int 0)) (Int 1) 2 = raise (AssertionError 108).
Proof.
  refine (fft_conv_grouped_assertion_fails 1 4 4 2
            [ {| a_in := 8; a_pad := 0; a_kernel := 3; a_stride := 1 |} ]
            None (Int 0) (Int 1) _ _ _ _ _ _ _ _).
  - lia.
  - lia.
  - reflexivity.
  - reflexivity.
  - discriminate.
  - repeat (constructor; [unfold fits, padded_len; cbn; lia|]). constructor.
  - right. exists 0. split; reflexivity.
  - right. exists 1. split; reflexivity.
Defined.

(** The output channels of a group are computed from the input channels of
    that group alone. *)
Lemma complex_matmul_group_independent (groups g : nat) (a a' : list (Z * Z))
    (b : list (list (Z * Z))) :
  split_groups groups a !! g = split_groups groups a' !! g ->
  complex_matmul_row groups a b !! g = complex_matmul_row groups a' b !! g.
Proof.
  intros H. unfold complex_matmul_row. rewrite !lookup_zip_with, H. reflexivity.
Qed.

Example complex_matmul_two_groups :
  complex_matmul_values 2 [[(1, 0); (2, 0); (3, 0); (4, 0)]]
                          [[(1, 0); (1, 0)]; [(0, 1); (0, 0)]]
  = [[(3, 0); (0, 3)]].
Proof. reflexivity. Qed.

(** C5: for [groups > 1], the constructor raises the [ValueError] naming
    [in_channels] and [groups] when [in_channels % groups != 0], otherwise
    the one naming [out_channels] and [groups] when
    [out_channels % groups != 0]; when both remainders are zero, whatever
    it may still raise is neither of these two errors. *)
Theorem FFTConv_init_divisibility (in_c out_c : Z) (ksize pad stride : int_or_tuple)
    (groups : Z) (bias : bool) (nd : Z) :
  1 < groups ->
  (in_c mod groups <> 0 ->
   FFTConv_init in_c out_c ksize pad stride groups bias nd
   = raise (ValueError (in_channels_message in_c groups)))
  /\ (in_c mod groups = 0 -> out_c mod groups <> 0 ->
   FFTConv_init in_c out_c ksize pad stride groups bias nd
   = raise (ValueError (out_channels_message out_c groups)))
  /\ (in_c mod groups = 0 -> out_c mod groups = 0 ->
   forall e, FFTConv_init in_c out_c ksize pad stride groups bias nd = raise e ->
             ~ divisibility_error e).
Proof.
  intros Hg. unfold FFTConv_init, py_mod, py_floordiv.
  destruct (Z.eqb_spec groups 0) as [|_]; [lia|]. cbn [bind ok].
  repeat split.
  - intros Hin. destruct (Z.eqb_spec (in_c mod groups) 0); [contradiction | reflexivity].
  - intros Hin Hout. rewrite Hin. cbn [Z.eqb negb].
    destruct (Z.eqb_spec (out_c mod groups) 0); [contradiction | reflexivity].
  - intros Hin Hout e. rewrite Hin, Hout. cbn [Z.eqb negb].
    intros Hrun [n [g Hmsg]].
    destruct ksize as [v | vs]; cbn [to_ntuple bind ok] in Hrun.
    + unfold randn in Hrun.
      repeat match type of Hrun with
             | context [if ?c then _ else _] => destruct c; cbn [bind ok raise] in Hrun
             end;
        try discriminate Hrun;
        injection Hrun as <-; destruct Hmsg; discriminate.
    + destruct (Z.of_nat (length vs) =? nd); cbn [bind ok raise] in Hrun.
      * unfold randn in Hrun.
        repeat match type of Hrun with
               | context [if ?c then _ else _] => destruct c; cbn [bind ok raise] in Hrun
               end;
          try discriminate Hrun;
          injection Hrun as <-; destruct Hmsg; discriminate.
      * injection Hrun as <-.
        unfold in_channels_message, out_channels_message in Hmsg.
        destruct Hmsg as [H | H]; cbn [String.append] in H; discriminate H.
Qed.

Lemma FFTConv_init_divisibility_witness :
  FFTConv_init 3 4 (Int 3) (Int 0) (Int 1) 2 true 1
  = raise (ValueError "'in_channels' must be divisible by 'groups'.Found: in_channels=3, groups=2.").
Proof.
  refine (proj1 (FFTConv_init_divisibility 3 4 (Int 3) (Int 0) (Int 1) 2 true 1 _) _).
  - lia.
  - vm_compute. discriminate.
Defined.

(** ** More of [fft_conv] and of the layer *)

Lemma prepare_same (signal kernel : list Z) (stride : int_or_tuple) :
  length kernel = length signal -> (2 <= length signal)%nat ->
  prepare signal kernel Same stride
  = prepare signal kernel (Pad (Tuple ((fun k => k / 2) <$> drop 2 kernel))) stride.
Proof.
  intros Hlen Hrank. unfold prepare.
  destruct (to_ntuple stride (ndim signal - 2)) as [e | stride_]; [reflexivity|].
  cbn [bind to_ntuple].
  rewrite length_fmap, length_drop, Hlen. unfold ndim.
  destruct (Z.eqb_spec (Z.of_nat (length signal - 2)) (Z.of_nat (length signal) - 2)); [|lia].
  reflexivity.
Qed.

Lemma fft_conv_trace_same (signal kernel : list Z) (bias : option Z) (stride : int_or_tuple)
    (groups : Z) :
  length kernel = length signal -> (2 <= length signal)%nat ->
  fft_conv_trace signal kernel bias Same stride groups
  = fft_conv_trace signal kernel bias (Pad (Tuple ((fun k => k / 2) <$> drop 2 kernel))) stride
                   groups.
Proof. intros Hlen Hrank. unfold fft_conv_trace. rewrite prepare_same by assumption. reflexivity. Qed.

Lemma same_axis_fits (a : axis) :
  1 <= a_in a -> 1 <= a_kernel a -> 1 <= a_stride a -> fits (same_axis a).
Proof.
  intros Hn Hk Hs. unfold fits, padded_len, same_axis. cbn.
  pose proof (Z.div_mod (a_kernel a) 2 ltac:(lia)).
  pose proof (Z.mod_pos_bound (a_kernel a) 2 ltac:(lia)). lia.
Qed.

Lemma same_axis_out_len (a : axis) :
  out_len (same_axis a) = (a_in a + a_stride a - 1) / a_stride a.
Proof.
  unfold out_len, padded_len, same_axis. cbn. f_equal.
  pose proof (Z.div_mod (a_kernel a) 2 ltac:(lia)). lia.
Qed.

(** X1: with [padding="same"] an ungrouped call returns, on every spatial
    axis, [ceil(input / stride)] entries whatever the kernel length, even or
    odd; with stride 1 the spatial shape of the signal is kept. *)
Theorem fft_conv_same_padding_shape (b c o : Z) (axes : list axis) (bias : option Z)
    (stride : int_or_tuple) :
  1 <= b -> 1 <= c -> 1 <= o -> axes <> [] ->
  Forall (fun a => 1 <= a_in a /\ 1 <= a_kernel a /\ 1 <= a_stride a) axes ->
  as_tuple stride (a_stride <$> axes) -> bias_fits bias o ->
  fft_conv (b :: c :: (a_in <$> axes)) (o :: c :: (a_kernel <$> axes)) bias Same stride 1
  = ok (b :: o :: ((fun a => (a_in a + a_stride a - 1) / a_stride a) <$> axes))
  /\ (Forall (fun a => a_stride a = 1) axes ->
      fft_conv (b :: c :: (a_in <$> axes)) (o :: c :: (a_kernel <$> axes)) bias Same stride 1
      = ok (b :: o :: (a_in <$> axes))).
Proof.
  intros Hb Hc Ho Hne Haxes Hstride Hbias.
  assert (Hrun : fft_conv (b :: c :: (a_in <$> axes)) (o :: c :: (a_kernel <$> axes)) bias Same stride 1
                 = ok (b :: o :: ((fun a => (a_in a + a_stride a - 1) / a_stride a) <$> axes))).
  { assert (Hin : a_in <$> axes = a_in <$> (same_axis <$> axes))
      by (rewrite <- list_fmap_compose; reflexivity).
    assert (Hker : a_kernel <$> axes = a_kernel <$> (same_axis <$> axes))
      by (rewrite <- list_fmap_compose; reflexivity).
    assert (Hstr : a_stride <$> axes = a_stride <$> (same_axis <$> axes))
      by (rewrite <- list_fmap_compose; reflexivity).
    unfold fft_conv.
    rewrite fft_conv_trace_same by (cbn [length]; rewrite ?length_fmap; lia).
    cbn [skipn]. rewrite drop_0.
    rewrite Hin, Hker at 1. rewrite (fft_conv_trace_ok b c o (same_axis <$> axes)).
    - cbn [bind ok output_shape]. do 3 f_equal. rewrite <- list_fmap_compose.
      apply list_fmap_ext. intros i a _. apply same_axis_out_len.
    - exact Hb.
    - exact Hc.
    - exact Ho.
    - destruct axes; [congruence | discriminate].
    - apply Forall_fmap. eapply Forall_impl; [exact Haxes|].
      intros a (Hn & Hk & Hs). apply same_axis_fits; assumption.
    - left. rewrite Hker, <- !list_fmap_compose. reflexivity.
    - rewrite <- Hstr. exact Hstride.
    - exact Hbias. }
  split; [exact Hrun|].
  intros Hone. rewrite Hrun. do 3 f_equal.
  apply Forall_fmap_ext_1. eapply Forall_impl; [exact Hone|].
  intros a Ha. cbn in Ha. rewrite Ha. replace (a_in a + 1 - 1) with (a_in a) by lia.
  apply Z.div_1_r.
Qed.

Lemma fft_conv_same_padding_shape_witness :
  fft_conv [1; 2; 5; 6] [3; 2; 4; 3] (Some 3) Same (Int 1) 1 = ok [1; 3; 5; 6].
Proof.
  refine (proj2 (fft_conv_same_padding_shape 1 2 3
            [ {| a_in := 5; a_pad := 0; a_kernel := 4; a_stride := 1 |};
              {| a_in := 6; a_pad := 0; a_kernel := 3; a_stride := 1 |} ]
            (Some 3) (Int 1) _ _ _ _ _ _ _) _).
  - lia.
  - lia.
  - lia.
  - discriminate.
  - repeat (constructor; [cbn; lia|]). constructor.
  - right. exists 1. split; reflexivity.
  - right. left. reflexivity.
  - repeat (constructor; [reflexivity|]). constructor.
Defined.


Lemma randn_ok (size : list Z) : Forall (fun d => 0 <= d) size -> randn size = ok size.
Proof. intros H. unfold randn. rewrite forallb_ge by exact H. reflexivity. Qed.

Lemma fits_kernel_nonneg (axes : list axis) :
  Forall fits axes -> Forall (fun d => 0 <= d) (a_kernel <$> axes).
Proof.
  intros H. apply Forall_fmap. eapply Forall_impl; [exact H|].
  intros a [Hk _]. cbn. lia.
Qed.

(** What the constructor builds when the group count divides both channel
    counts. *)
Lemma FFTConv_init_ok (c o g : Z) (axes : list axis) (ksize pad stride : int_or_tuple)
    (use_bias : bool) :
  1 <= g -> 0 <= c -> 0 <= o -> c mod g = 0 -> o mod g = 0 ->
  Forall (fun d => 0 <= d) (a_kernel <$> axes) ->
  as_tuple ksize (a_kernel <$> axes) ->
  FFTConv_init c o ksize pad stride g use_bias (Z.of_nat (length axes))
  = ok {| in_channels := c; out_channels := o; kernel_size := ksize; padding := pad;
          stride := stride; groups := g; use_bias := use_bias;
          weight := o :: c / g :: (a_kernel <$> axes);
          bias := if use_bias then Some [o] else None |}.
Proof.
  intros Hg Hc Ho Hcg Hog Hk Hks. unfold FFTConv_init, py_mod, py_floordiv.
  destruct (Z.eqb_spec g 0); [lia|]. cbn [bind ok].
  rewrite Hcg, Hog. cbn [Z.eqb negb bind ok].
  rewrite <- (length_fmap a_kernel axes), (to_ntuple_as_tuple _ _ Hks). cbn [bind ok].
  rewrite randn_ok.
  2:{ constructor; [lia|]. constructor; [apply Z.div_pos; lia | exact Hk]. }
  cbn [bind ok]. destruct use_bias.
  - rewrite randn_ok by (constructor; [lia | constructor]). reflexivity.
  - reflexivity.
Qed.



(** X3: a layer with [groups >= 2] dividing both channel counts is built,
    with a weight of shape [(out_channels, in_channels // groups,
    *kernel_size)], but its forward pass on a signal with [in_channels]
    channels raises the [AssertionError] of line 108. *)
Theorem FFTConv_grouped_layer_forward_fails (b c o g : Z) (axes : list axis)
    (ksize pad stride : int_or_tuple) (use_bias : bool) :
  2 <= g -> 1 <= c -> 0 <= o -> c mod g = 0 -> o mod g = 0 ->
  axes <> [] -> Forall fits axes ->
  as_tuple ksize (a_kernel <$> axes) ->
  as_tuple pad (a_pad <$> axes) -> as_tuple stride (a_stride <$> axes) ->
  exists layer,
    FFTConv_init c o ksize pad stride g use_bias (Z.of_nat (length axes)) = ok layer
    /\ weight layer = o :: c / g :: (a_kernel <$> axes)
    /\ FFTConv_forward layer (b :: c :: (a_in <$> axes)) = raise (AssertionError 108).
Proof.
  intros Hg Hc Ho Hcg Hog Hne Hfits Hks Hpad Hstride.
  eexists. split.
  { apply FFTConv_init_ok; try lia; try assumption.
    apply fits_kernel_nonneg. exact Hfits. }
  cbn [weight]. split; [reflexivity|].
  unfold FFTConv_forward. cbn [weight bias padding FFTConv.stride groups].
  apply fft_conv_channel_mismatch; try assumption.
  pose proof (Z.div_lt c g). lia.
Qed.

Lemma FFTConv_grouped_layer_forward_fails_witness :
  exists layer,
    FFTConv_init 4 6 (Int 3) (Int 0) (Int 1) 2 true 1 = ok layer
    /\ weight layer = [6; 2; 3]
    /\ FFTConv_forward layer [1; 4; 8] = raise (AssertionError 108).
Proof.
  refine (FFTConv_grouped_layer_forward_fails 1 4 6 2
            [ {| a_in := 8; a_pad := 0; a_kernel := 3; a_stride := 1 |} ]
            (Int 3) (Int 0) (Int 1) true _ _ _ _ _ _ _ _ _ _).
  - lia.
  - lia.
  - lia.
  - reflexivity.
  - reflexivity.
  - discriminate.
  - repeat (constructor; [unfold fits, padded_len; cbn; lia|]). constructor.
  - right. exists 3. split; reflexivity.
  - right. exists 0. split; reflexivity.
  - right. exists 1. split; reflexivity.
Defined.


(** X4: [groups = 0] makes the constructor raise [ZeroDivisionError] (the
    remainder of line 175 is taken first).  The constructor returns exactly
    when [groups] is not zero and divides both channel counts, [kernel_size]
    is an integer or a tuple of length [ndim], and no length of the weight
    [(out_channels, in_channels // groups, *kernel_size)] is negative; the
    layer then holds the arguments, this weight, and a bias of shape
    [(out_channels,)] or none. *)
Theorem FFTConv_init_succeeds_iff (in_c out_c : Z) (ksize pad stride : int_or_tuple)
    (g : Z) (use_bias : bool) (nd : Z) :
  (g = 0 -> FFTConv_init in_c out_c ksize pad stride g use_bias nd = raise ZeroDivisionError)
  /\ forall layer,
       FFTConv_init in_c out_c ksize pad stride g use_bias nd = ok layer
       <-> g <> 0 /\ in_c mod g = 0 /\ out_c mod g = 0
           /\ exists ks,
                to_ntuple ksize nd = ok ks
                /\ Forall (fun d => 0 <= d) (out_c :: in_c / g :: ks)
                /\ layer = {| in_channels := in_c; out_channels := out_c;
                              kernel_size := ksize; padding := pad; FFTConv.stride := stride;
                              groups := g; FFTConv.use_bias := use_bias;
                              weight := out_c :: in_c / g :: ks;
                              bias := if use_bias then Some [out_c] else None |}.
Proof.
  split.
  { intros ->. reflexivity. }
  intros layer. unfold FFTConv_init, py_mod, py_floordiv, randn.
  destruct (Z.eqb_spec g 0) as [-> | Hg].
  { split; [discriminate | intros [H _]; congruence]. }
  cbn [bind ok].
  destruct (Z.eqb_spec (in_c mod g) 0) as [Hin | Hin]; cbn [negb].
  2:{ split; [discriminate | intros (_ & H & _); contradiction]. }
  destruct (Z.eqb_spec (out_c mod g) 0) as [Hout | Hout]; cbn [negb].
  2:{ split; [discriminate | intros (_ & _ & H & _); contradiction]. }
  destruct (to_ntuple ksize nd) as [e | ks]; cbn [bind ok].
  { split; [discriminate | intros (_ & _ & _ & ks & H & _); discriminate H]. }
  destruct (forallb (fun d => 0 <=? d) (out_c :: in_c / g :: ks)) eqn:Hdims; cbn [bind ok].
  2:{ split; [discriminate|]. intros (_ & _ & _ & ks' & [= <-] & Hnn & _).
      rewrite forallb_ge in Hdims by exact Hnn. discriminate. }
  assert (Hnn : Forall (fun d => 0 <= d) (out_c :: in_c / g :: ks)).
  { apply Forall_forall. intros d Hd.
    rewrite forallb_forall in Hdims. apply Z.leb_le, Hdims.
    apply list_elem_of_In. exact Hd. }
  assert (Hout_c : forallb (fun d => 0 <=? d) [out_c] = true).
  { apply forallb_ge. constructor; [|constructor]. inversion Hnn; assumption. }
  destruct use_bias; rewrite ?Hout_c; cbn [bind ok].
  - split.
    + intros [= <-]. repeat split; try assumption. exists ks. repeat split. exact Hnn.
    + intros (_ & _ & _ & ks' & [= <-] & _ & ->). reflexivity.
  - split.
    + intros [= <-]. repeat split; try assumption. exists ks. repeat split. exact Hnn.
    + intros (_ & _ & _ & ks' & [= <-] & _ & ->). reflexivity.
Qed.

Lemma pad_rev_spec (rshape : list Z) :
  forall pads r,
    pad_rev rshape pads = ok r ->
    length r = length rshape
    /\ forall i, (length pads <= 2 * i)%nat -> r !! i = rshape !! i.
Proof.
  induction rshape as [|d rs IH]; intros pads r Hrun.
  - destruct pads as [|l [|r0 pads]]; cbn in Hrun; try discriminate Hrun.
    injection Hrun as <-. split; reflexivity.
  - destruct pads as [|l [|r0 pads]]; cbn [pad_rev] in Hrun; try discriminate Hrun.
    + injection Hrun as <-. split; reflexivity.
    + destruct (d + l + r0 <? 0); [discriminate Hrun|].
      destruct (pad_rev rs pads) as [e | rest] eqn:Hrest; [discriminate Hrun|].
      cbn [bind ok] in Hrun. injection Hrun as <-.
      destruct (IH _ _ Hrest) as [Hlen Hkeep].
      split; [cbn [length]; lia|].
      intros [|i] Hi; cbn [length] in Hi; [lia|].
      cbn. apply Hkeep. lia.
Qed.

Lemma f_pad_spec (shape pads s' : list Z) :
  f_pad shape pads = ok s' ->
  length s' = length shape
  /\ forall i, (2 * i + length pads + 2 <= 2 * length shape)%nat -> s' !! i = shape !! i.
Proof.
  unfold f_pad. destruct (pad_rev (reverse shape) pads) as [e | r] eqn:Hr; [discriminate|].
  cbn [bind ok]. intros [= <-].
  destruct (pad_rev_spec _ _ _ Hr) as [Hlen Hkeep]. rewrite length_reverse in Hlen.
  split; [rewrite length_reverse; exact Hlen|].
  intros i Hi.
  rewrite reverse_lookup by lia.
  rewrite Hkeep by lia.
  rewrite reverse_lookup by lia.
  f_equal. lia.
Qed.

Lemma mapM_length {A B} (f : A -> result B) (l : list A) (r : list B) :
  mapM f l = ok r -> length r = length l.
Proof.
  revert r. induction l as [|a l IH]; intros r; cbn.
  - intros [= <-]. reflexivity.
  - destruct (f a) as [e | b]; [discriminate|]. cbn [bind].
    destruct (mapM f l) as [e | bs]; [discriminate|]. cbn [bind ok].
    intros [= <-]. cbn. rewrite (IH bs eq_refl). reflexivity.
Qed.

Lemma mapM_Forall {A B} (f : A -> result B) (P : B -> Prop) (l : list A) (r : list B) :
  (forall a b, f a = ok b -> P b) -> mapM f l = ok r -> Forall P r.
Proof.
  intros Hf. revert r. induction l as [|a l IH]; intros r; cbn.
  - intros [= <-]. constructor.
  - destruct (f a) as [e | b] eqn:Hb; [discriminate|]. cbn [bind].
    destruct (mapM f l) as [e | bs]; [discriminate|]. cbn [bind ok].
    intros [= <-]. constructor; [apply (Hf a); exact Hb | apply IH; reflexivity].
Qed.

Lemma length_mjoin_pairs (ps : list (list Z)) :
  Forall (fun p => length p = 2%nat) ps -> length (mjoin ps) = (2 * length ps)%nat.
Proof.
  induction 1 as [|p ps Hp _ IH]; [reflexivity|].
  csimpl. rewrite length_app, IH, Hp. lia.
Qed.

Lemma kernel_padding_length (signal kernel kp : list Z) :
  kernel_padding_of signal kernel = ok kp ->
  length kp = (2 * (length signal - 2))%nat.
Proof.
  unfold kernel_padding_of.
  destruct (mapM _ (reverse (range 2 (ndim signal)))) as [e | ps] eqn:Hps; [discriminate|].
  cbn [bind ok]. intros [= <-].
  rewrite length_mjoin_pairs.
  - rewrite (mapM_length _ _ _ Hps), length_reverse. unfold range, ndim.
    rewrite length_seqZ. lia.
  - eapply mapM_Forall; [|exact Hps]. intros i p. cbn beta.
    destruct (index signal i); [discriminate|]. cbn [bind].
    destruct (index kernel i); [discriminate|]. cbn [bind ok].
    intros [= <-]. reflexivity.
Qed.

Lemma to_ntuple_length (val : int_or_tuple) (n : Z) (out : list Z) :
  to_ntuple val n = ok out -> length out = Z.to_nat n.
Proof.
  destruct val as [v | vs]; cbn.
  - intros [= <-]. apply length_replicate.
  - destruct (Z.eqb_spec (Z.of_nat (length vs)) n); [|discriminate].
    intros [= <-]. lia.
Qed.

Lemma length_signal_padding (padding_ : list Z) :
  length (signal_padding_of padding_) = (2 * length padding_)%nat.
Proof.
  unfold signal_padding_of. rewrite <- (length_reverse padding_).
  induction (reverse padding_) as [|p l IH]; [reflexivity|].
  csimpl. rewrite IH. lia.
Qed.

(** X5: whatever the padding, stride, groups and bias, [fft_conv] returns
    only when signal and kernel have the same number of axes, at least
    three, and the same length on axis 1: a kernel whose channel axis
    differs from the signal's never gets past line 108. *)
Theorem fft_conv_returns_only_for_matching_channels (signal kernel : list Z) (bias : option Z)
    (padding : padding_arg) (stride : int_or_tuple) (groups : Z) (out : list Z) :
  fft_conv signal kernel bias padding stride groups = ok out ->
  (3 <= length signal)%nat
  /\ length kernel = length signal
  /\ kernel !! 1%nat = signal !! 1%nat.
Proof.
  unfold fft_conv, fft_conv_trace.
  destruct (prepare signal kernel padding stride) as [e | [[[stride_ ssize] sig] pk]] eqn:Hprep;
    [discriminate|].
  cbn [bind].
  destruct (bool_decide_reflect (drop 1 pk = drop 1 sig)) as [Hassert | _]; [|discriminate].
  cbn [negb].
  destruct (rfftn_shape sig) as [e | sfr] eqn:Hrfft; [discriminate|].
  intros _.
  assert (Hrank : (3 <= length sig)%nat).
  { unfold rfftn_shape, ndim in Hrfft.
    destruct (Z.leb_spec 3 (Z.of_nat (length sig))); [lia | discriminate Hrfft]. }
  clear Hrfft sfr.
  unfold prepare in Hprep.
  destruct (to_ntuple stride (ndim signal - 2)) as [e | st]; [discriminate|].
  cbn [bind] in Hprep.
  destruct (match padding with
            | Pad p => to_ntuple p (ndim signal - 2)
            | Same => ok ((fun k => k / 2) <$> drop 2 kernel)
            end) as [e | padding_] eqn:Hpadding; [discriminate|].
  cbn [bind] in Hprep.
  destruct (f_pad signal (signal_padding_of padding_)) as [e | s1] eqn:Hs1; [discriminate|].
  cbn [bind] in Hprep.
  destruct (last s1) as [d|]; [|discriminate]. cbn [bind ok] in Hprep.
  destruct (if negb (d mod 2 =? 0) then f_pad s1 [0; 1] else ok s1) as [e | s2] eqn:Hs2;
    [discriminate|].
  cbn [bind] in Hprep.
  destruct (kernel_padding_of s2 kernel) as [e | kp] eqn:Hkp; [discriminate|].
  cbn [bind] in Hprep.
  destruct (f_pad kernel kp) as [e | pk'] eqn:Hpk; [discriminate|].
  cbn [bind ok] in Hprep. injection Hprep as _ _ -> ->.
  destruct (f_pad_spec _ _ _ Hs1) as [Hlen1 Hkeep1].
  destruct (f_pad_spec _ _ _ Hpk) as [Hlenk Hkeepk].
  apply kernel_padding_length in Hkp.
  assert (Hs2' : length sig = length s1
                 /\ forall i, (2 * i + 4 <= 2 * length s1)%nat -> sig !! i = s1 !! i).
  { destruct (negb (d mod 2 =? 0)).
    - destruct (f_pad_spec _ _ _ Hs2) as [Hl Hk]. split; [exact Hl|].
      intros i Hi. apply Hk. cbn [length]. lia.
    - injection Hs2 as <-. split; reflexivity. }
  destruct Hs2' as [Hlen2 Hkeep2].
  assert (Hlenpk : length pk = length sig).
  { apply (f_equal length) in Hassert. rewrite !length_drop in Hassert. lia. }
  assert (Hk : length kernel = length signal) by lia.
  split; [lia|]. split; [exact Hk|].
  assert (Hpad_len : length padding_ = (length signal - 2)%nat).
  { destruct padding as [p|].
    - apply to_ntuple_length in Hpadding. unfold ndim in Hpadding. lia.
    - injection Hpadding as <-. rewrite length_fmap, length_drop. lia. }
  rewrite <- (Hkeepk 1%nat) by lia.
  rewrite <- (Hkeep1 1%nat) by (rewrite length_signal_padding; lia).
  rewrite <- (Hkeep2 1%nat) by lia.
  apply (f_equal (fun l => l !! 0%nat)) in Hassert.
  rewrite !lookup_drop in Hassert. exact Hassert.
Qed.

Lemma fft_conv_returns_only_for_matching_channels_witness :
  (3 <= length [1; 2; 5; 7])%nat
  /\ length [4; 2; 3; 3] = length [1; 2; 5; 7]
  /\ [4; 2; 3; 3] !! 1%nat = [1; 2; 5; 7] !! 1%nat.
Proof.
  apply (fft_conv_returns_only_for_matching_channels [1; 2; 5; 7] [4; 2; 3; 3] None
           (Pad (Int 1)) (Int 2) 1 [1; 4; 3; 4]).
  reflexivity.
Defined.

(** ** The extra zero of line 99 *)

Lemma mapM_ext_in {A B} (f g : A -> result B) (l : list A) :
  (forall a, a ∈ l -> f a = g a) -> mapM f l = mapM g l.
Proof.
  intros H. induction l as [|a l IH]; [reflexivity|].
  cbn. rewrite (H a) by left. rewrite IH; [reflexivity|].
  intros b Hb. apply H. right. exact Hb.
Qed.

(** Line 99 on a shape: one more entry on the last axis. *)
Lemma f_pad_one_more_inv (front : list Z) (d : Z) (s : list Z) :
  f_pad (front ++ [d]) [0; 1] = ok s -> s = front ++ [d + 1].
Proof.
  unfold f_pad. rewrite reverse_snoc. cbn [pad_rev].
  destruct (d + 0 + 1 <? 0); [discriminate|]. cbn [bind ok].
  intros [= <-]. rewrite reverse_cons, reverse_involutive. do 2 f_equal. lia.
Qed.

(** Lines 77-107: the size recorded on line 97 ends with some length [d],
    and the signal handed to the transform is that size with [d] rounded up
    to the next even number. *)
Lemma prepare_inv (signal kernel : list Z) (padding : padding_arg) (stride : int_or_tuple)
    (stride_ ssize sig pk : list Z) :
  prepare signal kernel padding stride = ok (stride_, ssize, sig, pk) ->
  to_ntuple stride (ndim signal - 2) = ok stride_
  /\ length pk = length kernel
  /\ exists front d,
       ssize = front ++ [d] /\ sig = front ++ [if Z.odd d then d + 1 else d].
Proof.
  unfold prepare.
  destruct (to_ntuple stride (ndim signal - 2)) as [e | st]; [discriminate|].
  cbn [bind].
  destruct (match padding with
            | Pad p => to_ntuple p (ndim signal - 2)
            | Same => ok ((fun k => k / 2) <$> drop 2 kernel)
            end) as [e | padding_]; [discriminate|].
  cbn [bind].
  destruct (f_pad signal (signal_padding_of padding_)) as [e | s1]; [discriminate|].
  cbn [bind].
  destruct (last s1) as [d|] eqn:Hlast; [|discriminate]. cbn [bind ok].
  apply last_Some in Hlast as [front ->].
  destruct (if negb (d mod 2 =? 0) then f_pad (front ++ [d]) [0; 1] else ok (front ++ [d]))
    as [e | s2] eqn:Hs2; [discriminate|].
  cbn [bind].
  destruct (kernel_padding_of s2 kernel) as [e | kp]; [discriminate|].
  cbn [bind].
  destruct (f_pad kernel kp) as [e | pk'] eqn:Hpk; [discriminate|].
  cbn [bind ok]. intros [= <- <- <- <-].
  split; [reflexivity|]. split; [apply (f_pad_spec _ _ _ Hpk)|].
  exists front, d. split; [reflexivity|].
  rewrite Zmod_odd in Hs2. destruct (Z.odd d); cbn in Hs2.
  - apply f_pad_one_more_inv in Hs2. exact Hs2.
  - injection Hs2 as <-. reflexivity.
Qed.

Lemma rfftn_shape_inv (shape r : list Z) :
  rfftn_shape shape = ok r ->
  (3 <= length shape)%nat /\ r = map_last (fun n => n / 2 + 1) shape.
Proof.
  unfold rfftn_shape, ndim.
  destruct (Z.leb_spec 3 (Z.of_nat (length shape))); [|discriminate].
  cbn [andb]. destruct (forallb _ _); [|discriminate].
  intros [= <-]. split; [lia | reflexivity].
Qed.

Lemma irfftn_shape_inv (shape r : list Z) :
  irfftn_shape shape = ok r -> r = map_last (fun m => 2 * (m - 1)) shape.
Proof.
  unfold irfftn_shape.
  destruct (_ && _); [|discriminate]. intros [= <-]. reflexivity.
Qed.

(** The product keeps the batch axis and the trailing axes of its first
    operand. *)
Lemma complex_matmul_inv (a b r : list Z) (groups : Z) :
  complex_matmul a b groups = ok r ->
  exists a0 a1 rest co, a = a0 :: a1 :: rest /\ r = a0 :: co :: rest.
Proof.
  unfold complex_matmul.
  destruct a as [|a0 [|a1 rest]]; try discriminate.
  destruct b as [|b0 b_rest]; [discriminate|].
  destruct (view_infer _ _ rest) as [e | ac]; [discriminate|]. cbn [bind].
  destruct (view_infer _ _ b_rest) as [e | bo]; [discriminate|]. cbn [bind].
  destruct b_rest as [|bc b_dots]; [discriminate|].
  destruct (_ && _); [|discriminate].
  destruct (view_infer _ _ rest) as [e | co]; [discriminate|]. cbn [bind ok].
  intros [= <-]. eauto 6.
Qed.

Lemma add_bias_inv (out r : list Z) (bias : option Z) : add_bias out bias = ok r -> r = out.
Proof.
  unfold add_bias. destruct bias as [n|]; [|intros [= <-]; reflexivity].
  destruct (index out 1) as [e | c]; [discriminate|]. cbn [bind].
  destruct (_ && _); [|discriminate]. intros [= <-]. reflexivity.
Qed.

(** The inverse transform gives back the spatial axes handed to the
    transform, when the last of them is even. *)
Lemma transform_round_trip (front sfr kfr ofr out : list Z) (d groups : Z) :
  d mod 2 = 0 ->
  rfftn_shape (front ++ [d]) = ok sfr ->
  complex_matmul sfr kfr groups = ok ofr ->
  irfftn_shape ofr = ok out ->
  exists n c co spatial, front = n :: c :: spatial /\ out = n :: co :: spatial ++ [d].
Proof.
  intros Heven Hs Hm Hi.
  apply rfftn_shape_inv in Hs as [Hlen ->]. rewrite map_last_snoc in Hm.
  apply complex_matmul_inv in Hm as (a0 & a1 & rest & co & Ha & ->).
  apply irfftn_shape_inv in Hi as ->.
  rewrite length_app in Hlen. cbn [length] in Hlen.
  destruct front as [|n [|c spatial]]; cbn [length] in Hlen; try lia.
  cbn [app] in Ha. injection Ha as <- <- <-.
  exists n, c, co, spatial. split; [reflexivity|].
  change (n :: co :: spatial ++ [d / 2 + 1]) with ((n :: co :: spatial) ++ [d / 2 + 1]).
  rewrite map_last_snoc. cbn [app].
  replace (2 * (d / 2 + 1 - 1)) with d; [reflexivity|].
  pose proof (Z.div_mod d 2 ltac:(lia)). lia.
Qed.

Lemma even_up_even (d : Z) : (if Z.odd d then d + 1 else d) mod 2 = 0.
Proof.
  destruct (Z.odd d) eqn:Hodd.
  - rewrite Zmod_odd, Z.odd_add, Hodd. reflexivity.
  - rewrite Zmod_odd, Hodd. reflexivity.
Qed.

Lemma slice_len_within (len len' stop step : Z) :
  0 <= stop <= len -> len <= len' -> slice_len len' stop step = slice_len len stop step.
Proof.
  intros Hstop Hlen. unfold slice_len. destruct (step <=? 0); [reflexivity|].
  destruct (Z.ltb_spec stop 0); [lia|]. rewrite !Z.min_l by lia. reflexivity.
Qed.

(** What a call that returns has gone through. *)
Lemma fft_conv_trace_inv (signal kernel : list Z) (bias : option Z) (padding : padding_arg)
    (stride : int_or_tuple) (groups : Z) (t : trace) :
  fft_conv_trace signal kernel bias padding stride groups = ok t ->
  exists n c co spatial d stride_,
    padded_size t = n :: c :: spatial ++ [d]
    /\ fft_size t = n :: c :: spatial ++ [if Z.odd d then d + 1 else d]
    /\ to_ntuple stride (ndim signal - 2) = ok stride_
    /\ length kernel = length (fft_size t)
    /\ crop (n :: co :: spatial ++ [if Z.odd d then d + 1 else d]) (padded_size t) kernel
            stride_ (ndim (fft_size t))
       = ok (output_shape t).
Proof.
  unfold fft_conv_trace.
  destruct (prepare signal kernel padding stride) as [e | [[[stride_ ssize] sig] pk]] eqn:Hprep;
    [discriminate|].
  cbn [bind].
  destruct (bool_decide_reflect (drop 1 pk = drop 1 sig)) as [Hassert | _]; [|discriminate].
  cbn [negb].
  destruct (rfftn_shape sig) as [e | sfr] eqn:Hsfr; [discriminate|]. cbn [bind].
  destruct (rfftn_shape pk) as [e | kfr]; [discriminate|]. cbn [bind].
  destruct (complex_matmul sfr kfr groups) as [e | ofr] eqn:Hofr; [discriminate|]. cbn [bind].
  destruct (irfftn_shape ofr) as [e | out0] eqn:Hout0; [discriminate|]. cbn [bind].
  destruct (crop out0 ssize kernel stride_ (ndim sig)) as [e | out1] eqn:Hcrop; [discriminate|].
  cbn [bind].
  destruct (add_bias out1 bias) as [e | out] eqn:Hbias; [discriminate|]. cbn [bind ok].
  intros [= <-]. cbn [padded_size fft_size output_shape].
  apply add_bias_inv in Hbias as ->.
  destruct (prepare_inv _ _ _ _ _ _ _ _ Hprep) as (Hstride & Hpk & front & d & -> & ->).
  destruct (transform_round_trip _ _ _ _ _ _ _ (even_up_even d) Hsfr Hofr Hout0)
    as (n & c & co & spatial & -> & ->).
  exists n, c, co, spatial, d, stride_.
  split; [reflexivity|]. split; [reflexivity|]. split; [exact Hstride|].
  split; [|exact Hcrop].
  apply (f_equal length) in Hassert. rewrite !length_drop in Hassert.
  cbn [app length] in *. rewrite !length_app in *. cbn [length] in *. lia.
Qed.

(** C6 (counterexample): a kernel of length 5 on a signal of length 3.  The
    padded length 3 is odd, one zero is appended, and the stop of the crop,
    [3 - 5 + 1 = -1], counts from the end of the extended axis: the call
    returns 3 entries, where the same crop of an axis of the recorded
    length 3 leaves 2. *)
Lemma fft_conv_extra_zero_changes_crop :
  exists t,
    fft_conv_trace [1; 1; 3] [1; 1; 5] None (Pad (Int 0)) (Int 1) 1 = ok t
    /\ padded_size t = [1; 1; 3]
    /\ fft_size t = [1; 1; 4]
    /\ output_shape t = [1; 1; 3]
    /\ crop [1; 1; 4] (padded_size t) [1; 1; 5] [1] 3 = ok [1; 1; 3]
    /\ crop [1; 1; 3] (padded_size t) [1; 1; 5] [1] 3 = ok [1; 1; 2].
Proof. eexists. repeat split. Qed.

(** C6 (amended): a well-formed ungrouped call returns; and in every call
    that returns, the signal handed to the transform is the padded signal
    with exactly one more entry on the last axis when that axis has odd
    padded length [d], and unchanged otherwise; the size recorded on line 97
    is the padded size, and the returned shape is the crop, with stops
    computed from the recorded size, of the inverse transform's result,
    whose spatial axes are those handed to the transform.  When the stop on
    the last axis is not negative (the kernel length [k] there, rounded down
    to even, is at most [d]), the same crop of a tensor with the recorded
    length on the last axis yields the same shape: the returned shape does
    not depend on the extra entry. *)
Theorem fft_conv_even_length_padding :
  (forall (b c o : Z) (axes : list axis) (bias : option Z) (pad stride : int_or_tuple),
     1 <= b -> 1 <= c -> 1 <= o -> axes <> [] -> Forall fits axes ->
     as_tuple pad (a_pad <$> axes) -> as_tuple stride (a_stride <$> axes) ->
     bias_fits bias o ->
     exists t,
       fft_conv_trace (b :: c :: (a_in <$> axes)) (o :: c :: (a_kernel <$> axes))
                      bias (Pad pad) stride 1 = ok t)
  /\ (forall (signal kernel : list Z) (bias : option Z) (padding : padding_arg)
             (stride : int_or_tuple) (groups : Z) (t : trace),
        fft_conv_trace signal kernel bias padding stride groups = ok t ->
        exists n c co spatial d stride_,
          padded_size t = n :: c :: spatial ++ [d]
          /\ fft_size t = n :: c :: spatial ++ [if Z.odd d then d + 1 else d]
          /\ to_ntuple stride (ndim signal - 2) = ok stride_
          /\ crop (n :: co :: spatial ++ [if Z.odd d then d + 1 else d]) (padded_size t)
                  kernel stride_ (ndim (fft_size t))
             = ok (output_shape t)
          /\ (forall k, last kernel = Some k -> 0 <= k -> k - k mod 2 <= d ->
                crop (n :: co :: spatial ++ [d]) (padded_size t) kernel stride_
                     (ndim (padded_size t))
                = ok (output_shape t))).
Proof.
  split.
  { intros b c o axes bias pad stride Hb Hc Ho Hne Hfits Hpad Hstride Hbias.
    eexists. apply fft_conv_trace_ok; assumption. }
  intros signal kernel bias padding stride groups t Hrun.
  destruct (fft_conv_trace_inv _ _ _ _ _ _ _ Hrun)
    as (n & c & co & spatial & d & stride_ & Hp & Hf & Hstride & Hlen & Hcrop).
  exists n, c, co, spatial, d, stride_.
  split; [exact Hp|]. split; [exact Hf|]. split; [exact Hstride|]. split; [exact Hcrop|].
  intros k Hlast Hk Hstop. rewrite <- Hcrop. rewrite Hp, Hf. unfold crop, ndim.
  apply last_Some in Hlast as [kf ->].
  rewrite Hf in Hlen. cbn [length] in Hlen. rewrite !length_app in Hlen. cbn [length] in Hlen.
  cbn [length take]. rewrite !length_app. cbn [length].
  set (nd := Z.of_nat (S (S (length spatial + 1)))).
  rewrite (mapM_ext_in _
             (fun i => do len <- index (n :: co :: spatial ++ [if Z.odd d then d + 1 else d]) i;
                       do s <- index (n :: c :: spatial ++ [d]) i;
                       do k0 <- index (kf ++ [k]) i;
                       do st <- index stride_ (i - 2);
                       slice_len len (s - k0 + k0 mod 2) st)
             (range 2 nd)); [reflexivity|].
  intros i Hi. unfold range in Hi. apply elem_of_seqZ in Hi. unfold nd in Hi.
  unfold index. destruct (Z.ltb_spec i 0); [lia|].
  destruct (decide (Z.to_nat i < S (S (length spatial)))%nat) as [Hin | Hlast'].
  - change (n :: co :: spatial ++ ?x) with ((n :: co :: spatial) ++ x).
    rewrite !(lookup_app_l (n :: co :: spatial)) by (cbn [length]; lia). reflexivity.
  - assert (Hi' : Z.to_nat i = length (n :: co :: spatial)) by (cbn [length]; lia).
    change (n :: co :: spatial ++ ?x) with ((n :: co :: spatial) ++ x).
    change (n :: c :: spatial ++ ?x) with ((n :: c :: spatial) ++ x).
    rewrite !(lookup_app_r (n :: co :: spatial)) by lia.
    rewrite (lookup_app_r (n :: c :: spatial)) by (cbn [length] in *; lia).
    rewrite (lookup_app_r kf) by lia.
    replace (Z.to_nat i - length (n :: co :: spatial))%nat with 0%nat by lia.
    replace (Z.to_nat i - length (n :: c :: spatial))%nat with 0%nat by (cbn [length] in *; lia).
    replace (Z.to_nat i - length kf)%nat with 0%nat by (cbn [length] in *; lia).
    cbn [lookup list_lookup bind ok].
    destruct (i - 2 <? 0); [reflexivity|].
    destruct (stride_ !! Z.to_nat (i - 2)) as [st|]; [|reflexivity]. cbn [bind ok].
    symmetry. apply slice_len_within.
    + pose proof (Z.mod_pos_bound k 2 ltac:(lia)).
      pose proof (Z.mod_le k 2 Hk ltac:(lia)). lia.
    + destruct (Z.odd d); lia.
Qed.

(** C6 on a signal of shape [(1, 1, 6, 5)] padded by 1. *)
Lemma fft_conv_even_length_padding_witness :
  let t := {| padded_size := [1; 1; 8; 7]; fft_size := [1; 1; 8; 8];
              output_shape := [1; 1; 6; 5] |} in
  fft_conv_trace [1; 1; 6; 5] [1; 1; 3; 3] None (Pad (Int 1)) (Int 1) 1 = ok t
  /\ crop [1; 1; 8; 8] (padded_size t) [1; 1; 3; 3] [1; 1] 4 = ok (output_shape t)
  /\ crop [1; 1; 8; 7] (padded_size t) [1; 1; 3; 3] [1; 1] 4 = ok (output_shape t).
Proof.
  intros t. split; [reflexivity|].
  destruct (proj2 fft_conv_even_length_padding [1; 1; 6; 5] [1; 1; 3; 3] None (Pad (Int 1))
              (Int 1) 1 t eq_refl) as (n & c & co & spatial & d & stride_ & Hp & Hf & Hst & Hcrop & Hind).
  cbn [padded_size fft_size output_shape t] in *.
  destruct spatial as [|s0 [|s1 sp]]; try discriminate Hp;
    [|destruct sp; discriminate Hp].
  injection Hp as <- <- <- <-. injection Hst as <-.
  assert (Hco : co = 1) by (injection Hcrop as <-; reflexivity).
  subst co. split; [exact Hcrop|]. apply (Hind 3); [reflexivity | lia | vm_compute; discriminate].
Defined.

End FFTConvShapes.

Section UNetConstruction.
Import Network.

(** The default arguments of [UNet], with one input channel. *)
Example unet_default_layout :
  let c := {| in_channels := 1; base_channels := 96; kernel_size := 3; n_dim := 2;
              depth := 3; encoding_block_sizes := [1; 1; 0]; decoding_block_sizes := [1; 1];
              downsampling := ["conv"; "conv"]; upsampling := ["conv"; "conv"];
              skip_method := "concat"; ffc := false |} in
  on_ok (fun l => (enc_out <$> encoder_blocks l, bottom_block l,
                   (fun d => (up_in d, up_out d, dec_in d, dec_out d)) <$> decoder_blocks l))
        (UNet_init c)
  = ok ([96; 192; 384], (384, 384), [(384, 192, 384, 192); (192, 96, 192, 96)]).
Proof. reflexivity. Qed.

Lemma validate_init (c : UNetConfig) (e : exn) :
  validate c = raise e -> UNet_init c = raise e.
Proof. intros H. unfold UNet_init. rewrite H. reflexivity. Qed.

(** C4 (counterexample): a first block size of -1 meets none of the listed
    conditions, yet the assertion of line 321 fails. *)
Lemma unet_negative_first_block_size :
  let c := {| in_channels := 1; base_channels := 4; kernel_size := 3; n_dim := 2;
              depth := 2; encoding_block_sizes := [-1; 0]; decoding_block_sizes := [1];
              downsampling := ["conv"]; upsampling := ["conv"];
              skip_method := "concat"; ffc := false |} in
  ~ listed_violation c
  /\ validate c = raise (AssertionError 321)
  /\ UNet_init c = raise (AssertionError 321).
Proof.
  cbv zeta. split; [|split; reflexivity].
  unfold listed_violation, len. cbn.
  intros [H | [H | [[v [H Hv]] | [H | [H | H]]]]]; try discriminate H; try lia.
  injection H as <-. lia.
Qed.

Lemma len_nonneg {A} (t : list A) : 0 <= len t.
Proof. unfold len. lia. Qed.

Lemma last_is_Some_cons {A} (a : A) (l : list A) : exists v, last (a :: l) = Some v.
Proof.
  destruct (last (a :: l)) as [v|] eqn:E; [eauto|].
  apply last_None in E. discriminate.
Qed.

(** The three outcomes of lines 320-326. *)
Lemma unet_validation_cases (c : UNetConfig) :
  validate c = ok tt
  \/ (exists e, validate c = raise e /\ configuration_error e)
  \/ (validate c = raise (AssertionError 326)
      /\ ~ skip_method c ∈ ["add"; "concat"; "cat"]).
Proof.
  unfold validate, assert.
  destruct (Z.eqb_spec (depth c) (len (encoding_block_sizes c))) as [Hd | Hd]; cbn [bind ok].
  2:{ right. left. exists (AssertionError 320).
      split; [reflexivity|]. right. exists 320. split; [reflexivity | lia]. }
  destruct (encoding_block_sizes c) as [|first rest] eqn:Hebs.
  { right. left. exists IndexError. split; [reflexivity | left; reflexivity]. }
  change (index (first :: rest) 0) with (ok (A:=Z) first). cbn [bind ok].
  destruct (Z.ltb_spec 0 first) as [Hf | Hf]; cbn [bind ok].
  2:{ right. left. exists (AssertionError 321).
      split; [reflexivity|]. right. exists 321. split; [reflexivity | lia]. }
  unfold index_last. destruct (last_is_Some_cons first rest) as [final Hlast].
  rewrite Hlast. cbn [bind ok].
  destruct (Z.eqb_spec final 0) as [Hz | Hz]; cbn [bind ok].
  2:{ right. left. exists (AssertionError 322).
      split; [reflexivity|]. right. exists 322. split; [reflexivity | lia]. }
  destruct (Z.eqb_spec (depth c) (len (decoding_block_sizes c) + 1)) as [H3 | H3]; cbn [bind ok].
  2:{ right. left. exists (AssertionError 323).
      split; [reflexivity|]. right. exists 323. split; [reflexivity | lia]. }
  destruct (Z.eqb_spec (depth c) (len (downsampling c) + 1)) as [H4 | H4]; cbn [bind ok].
  2:{ right. left. exists (AssertionError 324).
      split; [reflexivity|]. right. exists 324. split; [reflexivity | lia]. }
  destruct (Z.eqb_spec (len (downsampling c)) (len (upsampling c))) as [H5 | H5]; cbn [bind ok].
  2:{ right. left. exists (AssertionError 325).
      split; [reflexivity|]. right. exists 325. split; [reflexivity | lia]. }
  destruct (bool_decide_reflect (skip_method c ∈ ["add"; "concat"; "cat"])) as [Hin | Hin].
  - left. reflexivity.
  - right. right. split; [reflexivity | exact Hin].
Qed.

(** C4 (amended): lines 320-325 raise exactly when [depth] differs from
    [len(encoding_block_sizes)], or the first block size is not positive, or
    the last one is not zero, or [depth] differs from
    [len(decoding_block_sizes) + 1] or from [len(downsampling) + 1], or
    [downsampling] and [upsampling] differ in length; the exception is a
    failed assertion, or the [IndexError] of subscripting an empty
    [encoding_block_sizes], and it ends the construction. *)
Theorem unet_validation (c : UNetConfig) :
  (violation c <-> exists e, validate c = raise e /\ configuration_error e)
  /\ (forall e, validate c = raise e -> UNet_init c = raise e).
Proof.
  split; [|intros e; apply validate_init].
  unfold validate, violation, assert.
  pose proof (len_nonneg (decoding_block_sizes c)) as Hdbs.
  destruct (Z.eqb_spec (depth c) (len (encoding_block_sizes c))) as [Hd | Hd]; cbn [bind ok].
  2:{ split; [|tauto]. intros _. exists (AssertionError 320).
      split; [reflexivity|]. right. exists 320. split; [reflexivity | lia]. }
  destruct (encoding_block_sizes c) as [|first rest] eqn:Hebs.
  { cbn [index Z.ltb Z.compare Z.to_nat lookup list_lookup bind raise].
    split.
    - intros _. exists IndexError. split; [reflexivity | left; reflexivity].
    - intros _. right. right. right. left. unfold len in Hd. cbn in Hd. lia. }
  change (index (first :: rest) 0) with (ok (A:=Z) first). cbn [bind ok head].
  destruct (Z.ltb_spec 0 first) as [Hf | Hf]; cbn [bind ok].
  2:{ split.
      - intros _. exists (AssertionError 321).
        split; [reflexivity|]. right. exists 321. split; [reflexivity | lia].
      - intros _. right. left. exists first. split; [reflexivity | lia]. }
  unfold index_last. destruct (last_is_Some_cons first rest) as [final Hlast].
  rewrite Hlast. cbn [bind ok].
  destruct (Z.eqb_spec final 0) as [Hz | Hz]; cbn [bind ok].
  2:{ split.
      - intros _. exists (AssertionError 322).
        split; [reflexivity|]. right. exists 322. split; [reflexivity | lia].
      - intros _. right. right. left. exists final. split; [reflexivity | exact Hz]. }
  clear Hlast.
  destruct (Z.eqb_spec (depth c) (len (decoding_block_sizes c) + 1)) as [H3 | H3]; cbn [bind ok].
  2:{ split; [|tauto]. intros _. exists (AssertionError 323).
      split; [reflexivity|]. right. exists 323. split; [reflexivity | lia]. }
  destruct (Z.eqb_spec (depth c) (len (downsampling c) + 1)) as [H4 | H4]; cbn [bind ok].
  2:{ split; [|tauto]. intros _. exists (AssertionError 324).
      split; [reflexivity|]. right. exists 324. split; [reflexivity | lia]. }
  destruct (Z.eqb_spec (len (downsampling c)) (len (upsampling c))) as [H5 | H5]; cbn [bind ok].
  2:{ split; [|tauto]. intros _. exists (AssertionError 325).
      split; [reflexivity|]. right. exists 325. split; [reflexivity | lia]. }
  split.
  - intros [H | [[v [H Hv]] | [[v [H Hv]] | [H | [H | H]]]]]; try contradiction.
    + injection H as <-. lia.
    + injection H as <-. contradiction.
  - intros [e [Hrun Herr]]. exfalso.
    destruct (bool_decide (skip_method c ∈ ["add"; "concat"; "cat"])); [discriminate Hrun|].
    injection Hrun as <-.
    destruct Herr as [H | [line [H Hline]]]; [discriminate H|].
    injection H as <-. lia.
Qed.

Lemma mapM_ext {A B} (f g : A -> result B) (l : list A) :
  (forall a, f a = g a) -> mapM f l = mapM g l.
Proof. intros H. induction l as [|a l IH]; cbn; [reflexivity | rewrite H, IH; reflexivity]. Qed.

Lemma validate_cat_concat (c : UNetConfig) :
  validate (set_skip_method c "cat") = validate (set_skip_method c "concat").
Proof. reflexivity. Qed.

Lemma decoder_stage_cat_concat (c : UNetConfig) (i : Z) :
  decoder_stage (set_skip_method c "cat") i = decoder_stage (set_skip_method c "concat") i.
Proof. reflexivity. Qed.

Lemma validate_skip_method_passes (c : UNetConfig) (e : exn) :
  skip_method c ∈ ["add"; "concat"; "cat"] ->
  validate c = raise e -> configuration_error e.
Proof.
  intros Hin Hrun. destruct (unet_validation_cases c) as [H | [H | H]].
  - rewrite H in Hrun. discriminate Hrun.
  - destruct H as [e' [He' Hc]]. rewrite He' in Hrun. injection Hrun as <-. exact Hc.
  - destruct H as [Hrun' Hnot]. contradiction.
Qed.

Lemma UNet_init_cat_concat (c : UNetConfig) :
  on_ok modules_of (UNet_init (set_skip_method c "cat"))
  = on_ok modules_of (UNet_init (set_skip_method c "concat")).
Proof.
  unfold UNet_init.
  change (validate (set_skip_method c "cat")) with (validate (set_skip_method c "concat")).
  destruct (validate (set_skip_method c "concat")) as [e | []]; [reflexivity|].
  cbn [bind ok].
  change (encoding_block_sizes (set_skip_method c "cat")) with (encoding_block_sizes c).
  change (encoding_block_sizes (set_skip_method c "concat")) with (encoding_block_sizes c).
  destruct (index (encoding_block_sizes c) 0) as [e | first]; [reflexivity|].
  cbn [bind ok].
  change (depth (set_skip_method c "cat")) with (depth c).
  change (depth (set_skip_method c "concat")) with (depth c).
  rewrite (mapM_ext (EncoderBlock_init (set_skip_method c "cat"))
                    (EncoderBlock_init (set_skip_method c "concat"))) by reflexivity.
  destruct (mapM (EncoderBlock_init (set_skip_method c "concat")) (range 2 (depth c + 1)))
    as [e | encoders]; [reflexivity|].
  cbn [bind ok].
  rewrite (mapM_ext (decoder_stage (set_skip_method c "cat"))
                    (decoder_stage (set_skip_method c "concat")))
    by (apply decoder_stage_cat_concat).
  destruct (mapM (decoder_stage (set_skip_method c "concat")) (range_down (depth c - 1) 0))
    as [e | decoders]; reflexivity.
Qed.

Section ForwardFacts.
Context {T : Type} (add_ : T -> T -> result T) (cat : list T -> result T).

Lemma fuse_cat (x skip : T) : fuse add_ cat "cat" x skip = cat [x; skip].
Proof. reflexivity. Qed.

Lemma fuse_concat (x skip : T) : fuse add_ cat "concat" x skip = cat [x; skip].
Proof. reflexivity. Qed.

Lemma decode_ext (m1 m2 : string) :
  (forall x skip, fuse add_ cat m1 x skip = fuse add_ cat m2 x skip) ->
  forall ups decs skips extras x,
    decode add_ cat m1 ups decs skips extras x = decode add_ cat m2 ups decs skips extras x.
Proof.
  intros Hfuse ups.
  induction ups as [|up ups IH]; intros decs skips extras x; [reflexivity|].
  destruct decs as [|dec decs], skips as [|skip skips], extras as [|extra extras];
    try reflexivity.
  cbn [decode]. destruct (up x) as [e | y]; [reflexivity|]. cbn [bind].
  rewrite Hfuse. destruct (fuse add_ cat m2 y skip) as [e | z]; [reflexivity|]. cbn [bind].
  destruct (extra z) as [e | w]; [reflexivity|]. cbn [bind].
  destruct (dec w) as [e | v]; [reflexivity|]. cbn [bind].
  apply IH.
Qed.

Lemma forward_cat_concat (u : UNet) (x : T) :
  forward add_ cat (with_skip_method u "cat") x
  = forward add_ cat (with_skip_method u "concat") x.
Proof.
  unfold forward, with_skip_method. cbn [u_conv_first u_encoder_blocks u_bottom_block
    u_upsampling_blocks u_decoder_blocks u_conv_after_upsample_blocks u_skip_method].
  destruct (u_conv_first u x) as [e | x1]; [reflexivity|]. cbn [bind].
  destruct (index (u_encoder_blocks u) 0) as [e | first]; [reflexivity|]. cbn [bind].
  destruct (first x1) as [e | x2]; [reflexivity|]. cbn [bind].
  destruct (encode (drop 1 (u_encoder_blocks u)) [] x2) as [e | [outs x3]]; [reflexivity|].
  cbn [bind].
  destruct (u_bottom_block u x3) as [e | x4]; [reflexivity|]. cbn [bind].
  apply decode_ext. intros. reflexivity.
Qed.

(** With ["cat"] or ["concat"] the loop of lines 480-499 is the
    concatenating decoder. *)
Lemma decode_concat (m : string) :
  m = "cat" \/ m = "concat" ->
  forall ups decs skips extras x,
    decode add_ cat m ups decs skips extras x
    = concat_decoder cat (zip (zip (zip ups decs) skips) extras) x.
Proof.
  intros Hm ups.
  induction ups as [|up ups IH]; intros decs skips extras x; [reflexivity|].
  destruct decs as [|dec decs]; [reflexivity|].
  destruct skips as [|skip skips]; [reflexivity|].
  destruct extras as [|extra extras]; [reflexivity|].
  cbn [decode zip zip_with concat_decoder concat_stage].
  destruct (up x) as [e | y]; [reflexivity|]. cbn [bind].
  assert (Hfuse : fuse add_ cat m y skip = cat [y; skip])
    by (destruct Hm as [-> | ->]; reflexivity).
  rewrite Hfuse. destruct (cat [y; skip]) as [e | z]; [reflexivity|]. cbn [bind].
  destruct (extra z) as [e | w]; [reflexivity|]. cbn [bind].
  destruct (dec w) as [e | v]; [reflexivity|]. cbn [bind].
  apply IH.
Qed.

Lemma forward_concat (u : UNet) (m : string) (x : T) :
  m = "cat" \/ m = "concat" ->
  forward add_ cat (with_skip_method u m) x = concat_forward cat u x.
Proof.
  intros Hm. unfold forward, concat_forward, with_skip_method.
  cbn [u_conv_first u_encoder_blocks u_bottom_block
    u_upsampling_blocks u_decoder_blocks u_conv_after_upsample_blocks u_skip_method].
  destruct (u_conv_first u x) as [e | x1]; [reflexivity|]. cbn [bind].
  destruct (index (u_encoder_blocks u) 0) as [e | first]; [reflexivity|]. cbn [bind].
  destruct (first x1) as [e | x2]; [reflexivity|]. cbn [bind].
  destruct (encode (drop 1 (u_encoder_blocks u)) [] x2) as [e | [outs x3]]; [reflexivity|].
  cbn [bind fst snd].
  destruct (u_bottom_block u x3) as [e | x4]; [reflexivity|]. cbn [bind].
  apply decode_concat. exact Hm.
Qed.

End ForwardFacts.

(** C10: ["cat"] and ["concat"] are interchangeable: the validation and the
    modules built are the same for both, and neither fails the check of
    line 326.  With either of them every decoder stage of [forward] fuses
    by [torch.cat([x, skip], dim=1)]: the decoder loop is the concatenating
    decoder over the zipped module lists and the reversed encoder outputs,
    and the whole pass is the forward pass with that decoder, in which the
    in-place addition plays no part.  Any [skip_method] other than ["add"],
    ["concat"] and ["cat"] makes the constructor raise. *)
Theorem unet_skip_method_cat_is_concat (c : UNetConfig) :
  validate (set_skip_method c "cat") = validate (set_skip_method c "concat")
  /\ on_ok modules_of (UNet_init (set_skip_method c "cat"))
     = on_ok modules_of (UNet_init (set_skip_method c "concat"))
  /\ (forall m e, m = "cat" \/ m = "concat" ->
        validate (set_skip_method c m) = raise e -> configuration_error e)
  /\ (forall (T : Type) (add_ : T -> T -> result T) (cat : list T -> result T)
             (u : UNet) (m : string),
        m = "cat" \/ m = "concat" ->
        (forall x skip, fuse add_ cat m x skip = cat [x; skip])
        /\ (forall ups decs skips extras x,
              decode add_ cat m ups decs skips extras x
              = concat_decoder cat (zip (zip (zip ups decs) skips) extras) x)
        /\ (forall x, forward add_ cat (with_skip_method u m) x = concat_forward cat u x))
  /\ (~ skip_method c ∈ ["add"; "concat"; "cat"] -> exists e, UNet_init c = raise e).
Proof.
  split; [apply validate_cat_concat|].
  split; [apply UNet_init_cat_concat|].
  split.
  { intros m e Hm. apply validate_skip_method_passes.
    destruct Hm as [-> | ->]; cbn; set_solver. }
  split.
  { intros T add_ cat u m Hm. split; [|split].
    - intros x skip. destruct Hm as [-> | ->]; reflexivity.
    - apply decode_concat. exact Hm.
    - intros x. apply forward_concat. exact Hm. }
  intros Hnot. destruct (unet_validation_cases c) as [H | [H | H]].
  - exfalso. unfold validate in H.
    destruct (bool_decide_reflect (skip_method c ∈ ["add"; "concat"; "cat"])) as [Hin | _];
      [contradiction|].
    repeat match type of H with
           | context [bind ?m _] => destruct m as [? | ?]; cbn [bind] in H; try discriminate H
           end.
  - destruct H as [e [He _]]. exists e. apply validate_init. exact He.
  - destruct H as [He _]. exists (AssertionError 326). apply validate_init. exact He.
Qed.

(** C10 on a network of depth 3 whose modules write their names around the
    text they are given: with ["cat"] the first decoder stage concatenates
    with the input of the last encoder stage and the second with the input
    of the one before; and ["sum"] is refused. *)
Lemma unet_skip_method_cat_is_concat_witness :
  let c := {| in_channels := 1; base_channels := 4; kernel_size := 3; n_dim := 2;
              depth := 2; encoding_block_sizes := [1; 0]; decoding_block_sizes := [1];
              downsampling := ["conv"]; upsampling := ["conv"];
              skip_method := "sum"; ffc := false |} in
  let named := fun (name x : string) => ok (name +:+ "(" +:+ x +:+ ")") in
  let add_ := fun x y : string => ok ("add_(" +:+ x +:+ ", " +:+ y +:+ ")") in
  let cat := fun l : list string => ok ("cat[" +:+ String.concat ", " l +:+ "]") in
  let u := {| u_conv_first := named "conv_first";
              u_encoder_blocks := [named "enc0"; named "enc1"; named "enc2"];
              u_bottom_block := named "bottom";
              u_upsampling_blocks := [named "up0"; named "up1"];
              u_decoder_blocks := [named "dec0"; named "dec1"];
              u_conv_after_upsample_blocks := [named "extra0"; named "extra1"];
              u_skip_method := "add" |} in
  forward add_ cat (with_skip_method u "cat") "x"
  = ok ("dec1(extra1(cat[up1(dec0(extra0(cat[up0(bottom(enc2(enc1(enc0(conv_first(x)))))), "
        +:+ "enc1(enc0(conv_first(x)))]))), enc0(conv_first(x))]))")
  /\ exists e, UNet_init c = raise e.
Proof.
  intros c named add_ cat u.
  destruct (unet_skip_method_cat_is_concat c) as (_ & _ & _ & Hforward & Hreject).
  split.
  - destruct (Hforward string add_ cat u "cat" (or_introl eq_refl)) as (_ & _ & Hrun).
    exact (eq_trans (Hrun "x") eq_refl).
  - apply Hreject.
    cbn. rewrite !elem_of_cons, elem_of_nil. intros [H | [H | [H | []]]]; discriminate H.
Defined.

End UNetConstruction.

Section ResidualFacts.
Import Network.
Context {V : Type} (add : V -> V -> result V).

Lemma bindM_ok {A B} (m : M (V:=V) A) (k : A -> M B) (h h' : store) (a : A) :
  m h = ok (a, h') -> bindM m k h = k a h'.
Proof. intros H. unfold bindM. rewrite H. reflexivity. Qed.

Lemma bindM_raise {A B} (m : M (V:=V) A) (k : A -> M B) (h : store) (e : exn) :
  m h = raise e -> bindM m k h = raise e.
Proof. intros H. unfold bindM. rewrite H. reflexivity. Qed.

Lemma read_ok (h : store (V:=V)) (x : ref) (v : V) :
  h !! x = Some v -> read x h = ok (v, h).
Proof. intros H. unfold read. rewrite H. reflexivity. Qed.

(** A module that is not in place leaves every stored tensor as it is and
    appends its result. *)
Lemma call_ok (f : V -> result V) (h : store) (x : ref) (v w : V) :
  h !! x = Some v -> f v = ok w -> call f x h = ok (length h, h ++ [w]).
Proof.
  intros H Hf. unfold call. rewrite (bindM_ok _ _ _ _ _ (read_ok h x v H)).
  unfold bindM, lift. rewrite Hf. reflexivity.
Qed.

(** A module that refuses its argument ends the computation. *)
Lemma call_raise (f : V -> result V) (h : store) (x : ref) (v : V) (e : exn) :
  h !! x = Some v -> f v = raise e -> call f x h = raise e.
Proof.
  intros H Hf. unfold call. rewrite (bindM_ok _ _ _ _ _ (read_ok h x v H)).
  unfold bindM, lift. rewrite Hf. reflexivity.
Qed.

Lemma lookup_snoc (h : store (V:=V)) (a : V) : (h ++ [a]) !! length h = Some a.
Proof. rewrite lookup_app_r by lia. rewrite Nat.sub_diag. reflexivity. Qed.

(** The in-place activation applied to the tensor allocated last overwrites
    that tensor only. *)
Lemma call_inplace_last (f : V -> result V) (h : store) (a w : V) :
  f a = ok w -> call_inplace f (length h) (h ++ [a]) = ok (length h, h ++ [w]).
Proof.
  intros Hf. unfold call_inplace.
  rewrite (bindM_ok _ _ _ _ _ (read_ok _ _ _ (lookup_snoc h a))).
  unfold bindM, lift, write. rewrite Hf. cbn [ok]. rewrite length_app. cbn [length].
  destruct (decide (length h < length h + 1)%nat) as [_|Hn]; [|lia].
  cbn [ok ret]. rewrite insert_app_r_alt by lia. rewrite Nat.sub_diag. reflexivity.
Qed.

Lemma call_inplace_raise (f : V -> result V) (h : store) (x : ref) (v : V) (e : exn) :
  h !! x = Some v -> f v = raise e -> call_inplace f x h = raise e.
Proof.
  intros H Hf. unfold call_inplace. rewrite (bindM_ok _ _ _ _ _ (read_ok h x v H)).
  unfold bindM, lift. rewrite Hf. reflexivity.
Qed.

(** The main branch of a unit without FFC: its result is allocated last,
    and no tensor that was stored before is changed; the first module to
    refuse its argument ends it. *)
Lemma layers_spec (u : ResidualUnit) (h : store) (x : ref) (pre : V) :
  ru_ffc u = false -> h !! x = Some pre ->
  match (do c1 <- ru_layers_conv1 u pre; do c2 <- ru_layers_bn u c1;
         do c3 <- ru_act u c2; ru_layers_conv2 u c3) with
  | inr main =>
      exists h', layers u x h = ok (Tensor (length h'), h' ++ [main])
                 /\ (forall i w, h !! i = Some w -> h' !! i = Some w)
  | inl e => layers u x h = raise e
  end.
Proof.
  intros Hffc Hx. unfold layers. rewrite Hffc.
  destruct (ru_layers_conv1 u pre) as [e | c1] eqn:H1; cbn [bind].
  { apply bindM_raise. eapply call_raise; eassumption. }
  rewrite (bindM_ok _ _ _ _ _ (call_ok _ h x pre c1 Hx H1)).
  destruct (ru_layers_bn u c1) as [e | c2] eqn:H2; cbn [bind].
  { apply bindM_raise. eapply call_raise; [apply lookup_snoc | exact H2]. }
  rewrite (bindM_ok _ _ _ _ _ (call_ok _ _ (length h) c1 c2 (lookup_snoc h _) H2)).
  destruct (ru_act u c2) as [e | c3] eqn:H3; cbn [bind].
  { apply bindM_raise. eapply call_inplace_raise; [apply lookup_snoc | exact H3]. }
  rewrite (bindM_ok _ _ _ _ _ (call_inplace_last _ (h ++ [c1]) c2 c3 H3)).
  destruct (ru_layers_conv2 u c3) as [e | main] eqn:H4.
  { apply bindM_raise. eapply call_raise; [apply lookup_snoc | exact H4]. }
  rewrite (bindM_ok _ _ _ _ _ (call_ok _ _ _ c3 main (lookup_snoc _ _) H4)).
  exists ((h ++ [c1]) ++ [c3]). split; [reflexivity|].
  intros i w Hi. apply lookup_app_l_Some, lookup_app_l_Some. exact Hi.
Qed.

(** Lines 178-181: normalisation and activation on a fresh tensor, then
    the shortcut. *)
Lemma forward_head (u : ResidualUnit) (h : store) (x : ref) (v : V) :
  ru_ffc u = false -> h !! x = Some v ->
  ResidualUnit_forward add u x h
  = match ru_bn u v with
    | inl e => raise e
    | inr normed =>
        match ru_act u normed with
        | inl e => raise e
        | inr pre =>
            if negb (ru_in_channels u =? ru_out_channels u) || ru_downsample u
            then match ru_conv_shortcut u pre with
                 | inl e => raise e
                 | inr shortcut =>
                     forward_rest add u (length (h ++ [pre]), length h)
                                  ((h ++ [pre]) ++ [shortcut])
                 end
            else forward_rest add u (x, length h) (h ++ [pre])
        end
    end.
Proof.
  intros Hffc Hx. unfold ResidualUnit_forward. rewrite Hffc.
  change (fun sx : ref * ref => let '(shortcut, x0) := sx in _) with (forward_rest add u).
  destruct (ru_bn u v) as [e | normed] eqn:Hbn.
  { apply bindM_raise, bindM_raise. eapply call_raise; eassumption. }
  unfold bindM at 1.
  rewrite (bindM_ok _ _ _ _ _ (call_ok _ h x v normed Hx Hbn)).
  destruct (ru_act u normed) as [e | pre] eqn:Hact.
  { rewrite (bindM_raise _ _ _ e); [reflexivity|].
    eapply call_inplace_raise; [apply lookup_snoc | exact Hact]. }
  rewrite (bindM_ok _ _ _ _ _ (call_inplace_last _ h normed pre Hact)).
  destruct (negb (ru_in_channels u =? ru_out_channels u) || ru_downsample u).
  - destruct (ru_conv_shortcut u pre) as [e | shortcut] eqn:Hsc.
    { rewrite (bindM_raise _ _ _ e); [reflexivity|].
      eapply call_raise; [apply lookup_snoc | exact Hsc]. }
    rewrite (bindM_ok _ _ _ _ _ (call_ok _ _ _ pre shortcut (lookup_snoc h pre) Hsc)).
    reflexivity.
  - reflexivity.
Qed.

Lemma forward_tail (u : ResidualUnit) (h : store) (x sc : ref) (pre shortcut : V) :
  ru_ffc u = false -> h !! x = Some pre -> h !! sc = Some shortcut ->
  match (do c1 <- ru_layers_conv1 u pre; do c2 <- ru_layers_bn u c1;
         do c3 <- ru_act u c2; do main <- ru_layers_conv2 u c3; add main shortcut) with
  | inr w =>
      exists r h', forward_rest add u (sc, x) h = ok (r, h') /\ h' !! r = Some w
                   /\ (forall i w', h !! i = Some w' -> h' !! i = Some w')
                   /\ (length h <= r)%nat
  | inl e => forward_rest add u (sc, x) h = raise e
  end.
Proof.
  intros Hffc Hx Hsc. unfold forward_rest.
  pose proof (layers_spec u h x pre Hffc Hx) as Hlayers.
  destruct (ru_layers_conv1 u pre) as [e | c1]; cbn [bind] in *.
  { apply bindM_raise. exact Hlayers. }
  destruct (ru_layers_bn u c1) as [e | c2]; cbn [bind] in *.
  { apply bindM_raise. exact Hlayers. }
  destruct (ru_act u c2) as [e | c3]; cbn [bind] in *.
  { apply bindM_raise. exact Hlayers. }
  destruct (ru_layers_conv2 u c3) as [e | main]; cbn [bind] in *.
  { apply bindM_raise. exact Hlayers. }
  destruct Hlayers as (h2 & Hrun & Hkeep).
  assert (Hsc2 : h2 !! sc = Some shortcut) by (apply Hkeep; exact Hsc).
  assert (Hlen : (length h <= length h2)%nat).
  { destruct (decide (length h <= length h2)%nat) as [|Hlt]; [assumption|].
    destruct (lookup_lt_is_Some_2 h (length h2) ltac:(lia)) as [w0 Hw0].
    apply Hkeep, lookup_lt_Some in Hw0. lia. }
  destruct (add main shortcut) as [e | w] eqn:Hadd.
  - rewrite (bindM_ok _ _ _ _ _ Hrun).
    rewrite (bindM_ok _ _ _ _ _ (read_ok _ _ _ (lookup_snoc h2 main))).
    rewrite (bindM_ok _ _ _ _ _ (read_ok _ _ _ (lookup_app_l_Some _ [main] _ _ Hsc2))).
    unfold bindM, lift. rewrite Hadd. reflexivity.
  - exists (length (h2 ++ [main])), ((h2 ++ [main]) ++ [w]). split.
    { rewrite (bindM_ok _ _ _ _ _ Hrun).
      rewrite (bindM_ok _ _ _ _ _ (read_ok _ _ _ (lookup_snoc h2 main))).
      rewrite (bindM_ok _ _ _ _ _ (read_ok _ _ _ (lookup_app_l_Some _ [main] _ _ Hsc2))).
      unfold bindM, lift. rewrite Hadd. reflexivity. }
    split; [apply lookup_snoc|]. split.
    + intros i w' Hi. apply lookup_app_l_Some, lookup_app_l_Some, Hkeep. exact Hi.
    + rewrite length_app. cbn [length]. lia.
Qed.

(** C7 (amended): started on a tensor holding [v], the forward pass of a
    unit without FFC computes [layers(relu(bn(v)))] plus the shortcut term,
    where the shortcut is [conv_shortcut(relu(bn(v)))] when
    [in_channels != out_channels] or [downsample] is set and [v] itself
    otherwise.  When the modules and the addition accept their operands,
    the pass returns a fresh tensor holding that value, and the in-place
    activations have touched neither the input tensor nor any other tensor
    stored before the call; when one of them refuses its operands, the pass
    raises the exception it raised. *)
Theorem residual_unit_forward (u : ResidualUnit) (h : store) (x : ref) (v : V) :
  ru_ffc u = false -> h !! x = Some v ->
  match residual_value add u v with
  | inr w =>
      exists r h',
        ResidualUnit_forward add u x h = ok (r, h')
        /\ h' !! r = Some w
        /\ h' !! x = Some v
        /\ (forall i w', h !! i = Some w' -> h' !! i = Some w')
        /\ (length h <= r)%nat
  | inl e => ResidualUnit_forward add u x h = raise e
  end.
Proof.
  intros Hffc Hx. rewrite (forward_head u h x v Hffc Hx). unfold residual_value.
  destruct (ru_bn u v) as [e | normed]; [reflexivity|]. cbn [bind].
  destruct (ru_act u normed) as [e | pre]; [reflexivity|]. cbn [bind].
  destruct (negb (ru_in_channels u =? ru_out_channels u) || ru_downsample u).
  - destruct (ru_conv_shortcut u pre) as [e | shortcut]; [reflexivity|]. cbn [bind].
    pose proof (forward_tail u ((h ++ [pre]) ++ [shortcut]) (length h) (length (h ++ [pre]))
                  pre shortcut Hffc
                  (lookup_app_l_Some _ _ _ _ (lookup_snoc h pre)) (lookup_snoc _ _))
      as Htail.
    destruct (do c1 <- ru_layers_conv1 u pre; do c2 <- ru_layers_bn u c1;
              do c3 <- ru_act u c2; do main <- ru_layers_conv2 u c3; add main shortcut)
      as [e | w]; [exact Htail|].
    destruct Htail as (r & h' & Hrun & Hr & Hkeep & Hfresh).
    exists r, h'. split; [exact Hrun|]. split; [exact Hr|].
    assert (Hold : forall i w', h !! i = Some w' -> h' !! i = Some w').
    { intros i w' Hi. apply Hkeep, lookup_app_l_Some, lookup_app_l_Some. exact Hi. }
    split; [apply Hold; exact Hx|]. split; [exact Hold|].
    rewrite !length_app in Hfresh. cbn [length] in Hfresh. lia.
  - cbn [bind ok].
    pose proof (forward_tail u (h ++ [pre]) (length h) x pre v Hffc
                  (lookup_snoc h pre) (lookup_app_l_Some _ _ _ _ Hx)) as Htail.
    destruct (do c1 <- ru_layers_conv1 u pre; do c2 <- ru_layers_bn u c1;
              do c3 <- ru_act u c2; do main <- ru_layers_conv2 u c3; add main v)
      as [e | w]; [exact Htail|].
    destruct Htail as (r & h' & Hrun & Hr & Hkeep & Hfresh).
    exists r, h'. split; [exact Hrun|]. split; [exact Hr|].
    assert (Hold : forall i w', h !! i = Some w' -> h' !! i = Some w').
    { intros i w' Hi. apply Hkeep, lookup_app_l_Some. exact Hi. }
    split; [apply Hold; exact Hx|]. split; [exact Hold|].
    rewrite !length_app in Hfresh. cbn [length] in Hfresh. lia.
Qed.

End ResidualFacts.

(** The expression of the claim, for the modules of a unit built with
    [ffc=False], is the shape function of the unit. *)
Lemma residual_value_shape (training : bool) (a : Network.ResidualUnitArgs) (x : list Z) :
  Network.residual_value (Network.add) (Network.ResidualUnit_init training a) x
  = Network.ResidualUnit_shape training a x.
Proof.
  unfold Network.residual_value, Network.ResidualUnit_shape, Network.ResidualUnit_init.
  cbn [Network.ru_bn Network.ru_act Network.ru_in_channels Network.ru_out_channels
       Network.ru_downsample Network.ru_conv_shortcut Network.ru_layers_conv1
       Network.ru_layers_bn Network.ru_layers_conv2 Network.Sequential].
  destruct (Network.BatchNorm training _ _ x) as [e | y]; [reflexivity|]. cbn [bind].
  unfold Network.ReLU at 1 3. cbn [bind ok].
  destruct (if negb (Network.unit_in a =? Network.unit_out a) || Network.unit_downsample a
            then _ else _) as [e | sc]; [reflexivity|]. cbn [bind].
  destruct (Network.Conv _ _ _ _ _ _ y) as [e | c1]; [reflexivity|]. cbn [bind].
  destruct (Network.BatchNorm training _ _ c1) as [e | c2]; [reflexivity|]. cbn [bind].
  unfold Network.ReLU. cbn [bind ok].
  destruct (Network.Conv _ _ _ _ _ _ c2) as [e | c3]; reflexivity.
Qed.

(** C7 (counterexample): a downsampling unit from 4 to 8 channels on an
    input of shape [(2, 4, 7, 4)].  The main branch ends with 3 rows and the
    shortcut with 4, the addition of line 187 refuses them, and the forward
    pass returns nothing. *)
Lemma residual_unit_forward_raises :
  let d := Network.ResidualUnit_init true
             {| Network.unit_in := 4; Network.unit_out := 8; Network.unit_n_dim := 2;
                Network.unit_kernel_size := 3; Network.unit_downsample := true |} in
  Network.ru_ffc d = false
  /\ Network.ru_conv_shortcut d [2; 4; 7; 4] = ok [2; 8; 4; 2]
  /\ Network.layers (V := list Z) d 0%nat [[2; 4; 7; 4]]
     = ok (Network.Tensor 3%nat, [[2; 4; 7; 4]; [2; 8; 3; 2]; [2; 8; 3; 2]; [2; 8; 3; 2]])
  /\ Network.add [2; 8; 3; 2] [2; 8; 4; 2] = raise RuntimeError
  /\ Network.ResidualUnit_forward Network.add d 0%nat [[2; 4; 7; 4]] = raise RuntimeError.
Proof. cbv zeta. repeat split. Qed.

(** C7 on integers standing for tensors, and on the shapes of a
    downsampling unit: an input of shape [(2, 4, 8, 8)] gives
    [(2, 8, 4, 4)], and on [(2, 4, 7, 4)] the addition raises. *)
Lemma residual_unit_forward_witness :
  let u := {| Network.ru_in_channels := 4; Network.ru_out_channels := 4;
              Network.ru_downsample := false; Network.ru_ffc := false;
              Network.ru_bn := fun v => ok (v - 3);
              Network.ru_act := fun v => ok (Z.max 0 v);
              Network.ru_conv_shortcut := fun v => ok (10 * v);
              Network.ru_layers_conv1 := fun v => ok (v + 1);
              Network.ru_layers_bn := fun v => ok (v - 5);
              Network.ru_layers_conv2 := fun v => ok (2 * v);
              Network.ru_ffc_shortcut := fun v => ok (v, v);
              Network.ru_ffc_layers := fun v => ok (v, v) |} in
  let add := fun a b : Z => ok (a + b) in
  let d := Network.ResidualUnit_init true
             {| Network.unit_in := 4; Network.unit_out := 8; Network.unit_n_dim := 2;
                Network.unit_kernel_size := 3; Network.unit_downsample := true |} in
  (exists r h',
     Network.ResidualUnit_forward add u 0%nat [7] = ok (r, h')
     /\ h' !! r = Some 7 /\ h' !! 0%nat = Some 7)
  /\ (exists r h',
        Network.ResidualUnit_forward Network.add d 0%nat [[2; 4; 8; 8]] = ok (r, h')
        /\ h' !! r = Some [2; 8; 4; 4])
  /\ Network.ResidualUnit_forward Network.add d 0%nat [[2; 4; 7; 4]] = raise RuntimeError.
Proof.
  intros u add d. split; [|split].
  - destruct (residual_unit_forward add u [7] 0%nat 7 eq_refl eq_refl)
      as (r & h' & Hrun & Hr & Hx & _).
    exists r, h'. repeat split; assumption.
  - destruct (residual_unit_forward Network.add d [[2; 4; 8; 8]] 0%nat [2; 4; 8; 8]
                eq_refl eq_refl) as (r & h' & Hrun & Hr & _).
    exists r, h'. split; assumption.
  - exact (residual_unit_forward Network.add d [[2; 4; 7; 4]] 0%nat [2; 4; 7; 4]
             eq_refl eq_refl).
Defined.

(** ** Shapes through the network *)
Section ShapeFacts.
Import Network.

Variable training : bool.

Lemma on_spatial_batched (D : nat) (cin cout n : Z) (f : list Z -> result (list Z))
    (sp sp' : list Z) :
  length sp = D -> f sp = ok sp' ->
  on_spatial D cin cout f (n :: cin :: sp) = ok (n :: cout :: sp').
Proof.
  intros Hlen Hf. unfold on_spatial. cbn [length].
  destruct (decide (S (S (length sp)) = S (S D))) as [_|]; [|lia].
  rewrite Z.eqb_refl, Hf. reflexivity.
Qed.

Lemma forallb_Forall_bool {A} (p : A -> bool) (l : list A) :
  Forall (fun a => p a = true) l -> forallb p l = true.
Proof. induction 1 as [|a l Ha _ IH]; [reflexivity|]. cbn. rewrite Ha, IH. reflexivity. Qed.

Lemma Conv_ok (D : nat) (cin cout k p s n : Z) (sp : list Z) :
  length sp = D -> 1 <= k -> 0 <= p -> 1 <= s ->
  Forall (fun d => 0 <= d /\ k <= d + 2 * p) sp ->
  Conv D cin cout k p s (n :: cin :: sp)
  = ok (n :: cout :: ((fun d => FFTConv.conv_out_len d p k s) <$> sp)).
Proof.
  intros Hlen Hk Hp Hs Hsp. unfold Conv. apply on_spatial_batched; [exact Hlen|].
  destruct (Z.leb_spec 1 k); [|lia]. destruct (Z.leb_spec 0 p); [|lia].
  destruct (Z.leb_spec 1 s); [|lia]. cbn [andb].
  rewrite forallb_Forall_bool; [reflexivity|].
  eapply Forall_impl; [exact Hsp|]. intros d [Hd0 Hd1]. cbn beta.
  destruct (Z.leb_spec 0 d); [|lia]. destruct (Z.leb_spec k (d + 2 * p)); [reflexivity | lia].
Qed.

Lemma odd_half (k : Z) : k mod 2 = 1 -> 2 * (k / 2) = k - 1.
Proof. intros H. pose proof (Z.div_mod k 2 ltac:(lia)). lia. Qed.

(** A convolution with an odd kernel, padding [k // 2] and stride 1 keeps
    the spatial shape. *)
Lemma Conv_keep (D : nat) (cin cout k n : Z) (sp : list Z) :
  length sp = D -> 1 <= k -> k mod 2 = 1 -> Forall (fun d => 1 <= d) sp ->
  Conv D cin cout k (k / 2) 1 (n :: cin :: sp) = ok (n :: cout :: sp).
Proof.
  intros Hlen Hk Hodd Hsp. pose proof (odd_half k Hodd) as Hhalf.
  rewrite Conv_ok; try lia.
  - do 3 f_equal. rewrite <- (list_fmap_id sp) at 2. apply list_fmap_ext.
    intros i d _. unfold FFTConv.conv_out_len. rewrite Z.div_1_r. cbn. lia.
  - eapply Forall_impl; [exact Hsp|]. intros d Hd. cbn beta in *. lia.
Qed.

(** Kernel 2, stride 2 and kernel 1, stride 2 halve an even length. *)
Lemma Conv_halve (D : nat) (cin cout k n : Z) (ms : list Z) :
  length ms = D -> k = 1 \/ k = 2 -> Forall (fun m => 1 <= m) ms ->
  Conv D cin cout k 0 2 (n :: cin :: ((fun m => 2 * m) <$> ms)) = ok (n :: cout :: ms).
Proof.
  intros Hlen Hk Hms. rewrite Conv_ok; try lia.
  - do 3 f_equal. rewrite <- list_fmap_compose. rewrite <- (list_fmap_id ms) at 2.
    apply Forall_fmap_ext_1. eapply Forall_impl; [exact Hms|]. intros m Hm.
    unfold FFTConv.conv_out_len, compose, Datatypes.id. cbn beta.
    destruct Hk as [-> | ->].
    + rewrite <- (Z.div_unique (2 * m + 2 * 0 - 1) 2 (m - 1) 1); lia.
    + rewrite <- (Z.div_unique (2 * m + 2 * 0 - 2) 2 (m - 1) 0); lia.
  - rewrite length_fmap. exact Hlen.
  - apply Forall_fmap. eapply Forall_impl; [exact Hms|]. intros m Hm.
    unfold compose. cbn beta in *. lia.
Qed.

Lemma ConvTranspose_double (D : nat) (cin cout n : Z) (ms : list Z) :
  length ms = D -> Forall (fun m => 1 <= m) ms ->
  ConvTranspose D cin cout 2 2 (n :: cin :: ms) = ok (n :: cout :: ((fun m => 2 * m) <$> ms)).
Proof.
  intros Hlen Hms. unfold ConvTranspose. apply on_spatial_batched; [exact Hlen|].
  cbn [Z.leb Z.compare andb]. rewrite forallb_ge by exact Hms.
  rewrite (list_fmap_ext (fun d => (d - 1) * 2 + 2) (fun m => 2 * m) ms); [reflexivity|].
  intros i m _. lia.
Qed.

Lemma BatchNorm_ok (D : nat) (c n : Z) (sp : list Z) :
  length sp = D -> training = false \/ 2 <= n -> Forall (fun d => 1 <= d) sp ->
  BatchNorm training D c (n :: c :: sp) = ok (n :: c :: sp).
Proof.
  intros Hlen Hmode Hsp. unfold BatchNorm.
  rewrite bool_decide_eq_true_2 by exact Hlen. cbn [negb].
  assert (Hfew : training && (n * FFTConv.numel sp =? 1) = false).
  { destruct Hmode as [-> | Hn]; [reflexivity|].
    pose proof (numel_pos sp Hsp).
    destruct (Z.eqb_spec (n * FFTConv.numel sp) 1); [nia|]. apply andb_false_r. }
  rewrite Hfew, Z.eqb_refl. reflexivity.
Qed.

Lemma broadcast_rev_diag (l : list Z) : broadcast_rev l l = ok l.
Proof.
  induction l as [|x l IH]; [reflexivity|].
  cbn [broadcast_rev]. rewrite IH. cbn [bind ok]. rewrite Z.eqb_refl. reflexivity.
Qed.

Lemma add_diag (x : list Z) : add x x = ok x.
Proof. unfold add. rewrite broadcast_rev_diag. cbn. rewrite reverse_involutive. reflexivity. Qed.

Lemma add__diag (x : list Z) : add_ x x = ok x.
Proof.
  unfold add_. rewrite add_diag. cbn [bind ok].
  destruct (decide (x = x)); [reflexivity | contradiction].
Qed.

Lemma cat_pair (n c1 c2 : Z) (sp : list Z) :
  cat [n :: c1 :: sp; n :: c2 :: sp] = ok (n :: c1 + c2 :: sp).
Proof.
  unfold cat. rewrite !filter_cons_True by discriminate. rewrite filter_nil.
  cbn [mapM bind ok].
  destruct (decide (n = n /\ sp = sp)) as [_ | H]; [|exfalso; apply H; split; reflexivity].
  cbn [bind ok fold_right]. rewrite Z.add_0_r. reflexivity.
Qed.

Lemma ResidualUnit_keep (u : ResidualUnitArgs) (n : Z) (sp : list Z) :
  unit_downsample u = false ->
  1 <= unit_kernel_size u -> unit_kernel_size u mod 2 = 1 ->
  well_formed training (spatial_rank (unit_n_dim u)) n sp ->
  ResidualUnit_shape training u (n :: unit_in u :: sp) = ok (n :: unit_out u :: sp).
Proof.
  intros Hds Hk Hodd (Hlen & Hmode & Hsp). unfold ResidualUnit_shape. rewrite Hds.
  rewrite BatchNorm_ok by assumption. cbn [bind ok ReLU].
  rewrite orb_false_r.
  assert (Hmain : Sequential
            [Conv (spatial_rank (unit_n_dim u)) (unit_in u) (unit_out u) (unit_kernel_size u)
               (unit_kernel_size u / 2) 1;
             BatchNorm training (spatial_rank (unit_n_dim u)) (unit_out u); ReLU;
             Conv (spatial_rank (unit_n_dim u)) (unit_out u) (unit_out u) (unit_kernel_size u)
               (unit_kernel_size u / 2) 1] (n :: unit_in u :: sp)
          = ok (n :: unit_out u :: sp)).
  { cbn [Sequential]. rewrite Conv_keep by assumption. cbn [bind ok].
    rewrite BatchNorm_ok by assumption. cbn [bind ok ReLU].
    rewrite Conv_keep by assumption. reflexivity. }
  destruct (Z.eqb_spec (unit_in u) (unit_out u)) as [Heq | Hne]; cbn [negb bind ok].
  - rewrite Hmain. cbn [bind ok]. rewrite <- Heq. apply add_diag.
  - replace 0 with (1 / 2) at 1 by reflexivity.
    rewrite Conv_keep by (assumption || lia || reflexivity). cbn [bind ok].
    rewrite Hmain. cbn [bind ok]. apply add_diag.
Qed.

Lemma ResidualUnit_halve (u : ResidualUnitArgs) (n : Z) (ms : list Z) :
  unit_downsample u = true ->
  1 <= unit_kernel_size u -> unit_kernel_size u mod 2 = 1 ->
  well_formed training (spatial_rank (unit_n_dim u)) n ms ->
  ResidualUnit_shape training u (n :: unit_in u :: ((fun m => 2 * m) <$> ms))
  = ok (n :: unit_out u :: ms).
Proof.
  intros Hds Hk Hodd (Hlen & Hmode & Hms). unfold ResidualUnit_shape. rewrite Hds.
  assert (H2ms : Forall (fun d => 1 <= d) ((fun m => 2 * m) <$> ms)).
  { apply Forall_fmap. eapply Forall_impl; [exact Hms|]. intros m Hm.
    unfold compose. cbn beta in *. lia. }
  rewrite BatchNorm_ok by (rewrite ?length_fmap; assumption). cbn [bind ok ReLU].
  rewrite orb_true_r.
  rewrite Conv_halve by (assumption || (left; reflexivity)). cbn [bind ok].
  cbn [Sequential]. rewrite Conv_halve by (assumption || (right; reflexivity)). cbn [bind ok].
  rewrite BatchNorm_ok by assumption. cbn [bind ok ReLU].
  rewrite Conv_keep by assumption. cbn [bind ok]. apply add_diag.
Qed.


Lemma Sequential_keep (ms : list (list Z -> result (list Z))) (x : list Z) :
  Forall (fun m => m x = ok x) ms -> Sequential ms x = ok x.
Proof.
  induction 1 as [|m ms Hm _ IH]; [reflexivity|].
  cbn [Sequential]. rewrite Hm. exact IH.
Qed.

Lemma range_nil (a b : Z) : b <= a -> range a b = [].
Proof. intros H. unfold range, seqZ. replace (Z.to_nat (b - a)) with 0%nat by lia. reflexivity. Qed.

Lemma range_cons (a b : Z) : a < b -> range a b = a :: range (a + 1) b.
Proof.
  intros H. unfold range. rewrite seqZ_cons by lia.
  f_equal. f_equal; lia.
Qed.

(** A block of no unit is the identity. *)
Lemma ResidualBlock_empty (cin cout bs nd k : Z) (ds : bool) (x : list Z) :
  bs <= 0 -> ResidualBlock_shape training cin cout bs nd k ds x = ok x.
Proof.
  intros H. unfold ResidualBlock_shape, ResidualBlock_units. rewrite range_nil by lia.
  reflexivity.
Qed.

(** The units after the first keep the shape. *)
Lemma ResidualBlock_tail (cin cout nd k n : Z) (ds : bool) (sp : list Z) (a b : Z) :
  1 <= a -> 1 <= k -> k mod 2 = 1 -> well_formed training (spatial_rank nd) n sp ->
  Sequential
    (ResidualUnit_shape training
       <$> ((fun i => {| unit_in := if i =? 0 then cin else cout; unit_out := cout;
                         unit_n_dim := nd; unit_kernel_size := k;
                         unit_downsample := if i =? 0 then ds else false |}) <$> range a b))
    (n :: cout :: sp)
  = ok (n :: cout :: sp).
Proof.
  intros Ha Hk Hodd Hwf. apply Sequential_keep.
  apply Forall_fmap, Forall_fmap, Forall_forall. intros i Hi.
  unfold range in Hi. apply elem_of_seqZ in Hi.
  unfold compose. destruct (Z.eqb_spec i 0) as [|_]; [lia|].
  apply (ResidualUnit_keep {| unit_in := cout; unit_out := cout; unit_n_dim := nd;
                              unit_kernel_size := k; unit_downsample := false |});
    (reflexivity || assumption).
Qed.

Lemma ResidualBlock_keep (cin cout bs nd k n : Z) (sp : list Z) :
  1 <= bs -> 1 <= k -> k mod 2 = 1 -> well_formed training (spatial_rank nd) n sp ->
  ResidualBlock_shape training cin cout bs nd k false (n :: cin :: sp) = ok (n :: cout :: sp).
Proof.
  intros Hbs Hk Hodd Hwf. unfold ResidualBlock_shape, ResidualBlock_units.
  rewrite range_cons by lia. rewrite !fmap_cons. cbn [Sequential].
  rewrite (ResidualUnit_keep {| unit_in := cin; unit_out := cout; unit_n_dim := nd;
                                unit_kernel_size := k; unit_downsample := false |})
    by (reflexivity || assumption).
  cbn [bind ok unit_out].
  apply ResidualBlock_tail; (assumption || lia).
Qed.

Lemma ResidualBlock_same (c bs nd k n : Z) (sp : list Z) :
  1 <= k -> k mod 2 = 1 -> well_formed training (spatial_rank nd) n sp ->
  ResidualBlock_shape training c c bs nd k false (n :: c :: sp) = ok (n :: c :: sp).
Proof.
  intros Hk Hodd Hwf. destruct (Z.le_gt_cases bs 0).
  - apply ResidualBlock_empty. assumption.
  - apply ResidualBlock_keep; (assumption || lia).
Qed.

Lemma ResidualBlock_halve (cin cout nd k n : Z) (ms : list Z) :
  1 <= k -> k mod 2 = 1 -> well_formed training (spatial_rank nd) n ms ->
  ResidualBlock_shape training cin cout 1 nd k true (n :: cin :: ((fun m => 2 * m) <$> ms))
  = ok (n :: cout :: ms).
Proof.
  intros Hk Hodd Hwf. unfold ResidualBlock_shape, ResidualBlock_units.
  rewrite range_cons by lia. rewrite range_nil by lia. rewrite !fmap_cons, !fmap_nil.
  cbn [Sequential].
  rewrite (ResidualUnit_halve {| unit_in := cin; unit_out := cout; unit_n_dim := nd;
                                 unit_kernel_size := k; unit_downsample := true |})
    by (reflexivity || assumption).
  reflexivity.
Qed.

(** What [EncoderBlock.__init__] records. *)
Lemma EncoderBlock_init_inv (c : UNetConfig) (i : Z) (e : EncoderStage) :
  EncoderBlock_init c i = ok e ->
  enc_in e = base_channels c * 2 ^ (i - 2)
  /\ enc_out e = base_channels c * 2 ^ (i - 1)
  /\ index (encoding_block_sizes c) (i - 1) = ok (enc_block_size e)
  /\ exists method, enc_downsampling e = Some method
                    /\ index (downsampling c) (i - 2) = ok method
                    /\ (method = "res" \/ method = "conv").
Proof.
  unfold EncoderBlock_init.
  destruct (index (encoding_block_sizes c) (i - 1)) as [|bs]; [discriminate|]. cbn [bind].
  destruct (index (downsampling c) (i - 2)) as [|method]; [discriminate|]. cbn [bind].
  destruct (bool_decide_reflect (method = "res")) as [Hres | Hres]; cbn [orb].
  - intros [= <-]. cbn. repeat split; try reflexivity. exists method. auto.
  - destruct (bool_decide_reflect (method = "conv")) as [Hconv | Hconv]; [|discriminate].
    intros [= <-]. cbn. repeat split; try reflexivity. exists method. auto.
Qed.

(** An encoder block halves every spatial axis of even length. *)
Lemma EncoderBlock_halve (c : UNetConfig) (i n : Z) (e : EncoderStage) (ms : list Z) :
  EncoderBlock_init c i = ok e ->
  1 <= kernel_size c -> kernel_size c mod 2 = 1 ->
  well_formed training (spatial_rank (n_dim c)) n ms ->
  EncoderBlock_shape training (n_dim c) (kernel_size c) e
    (n :: enc_in e :: ((fun m => 2 * m) <$> ms))
  = ok (n :: enc_out e :: ms).
Proof.
  intros Hinit Hk Hodd Hwf.
  destruct (EncoderBlock_init_inv c i e Hinit) as (_ & _ & _ & method & Hm & _ & Hcase).
  unfold EncoderBlock_shape. rewrite Hm. cbn [Sequential].
  assert (Hdown : (if bool_decide (method = "res")
                   then ResidualBlock_shape training (enc_in e) (enc_out e) 1 (n_dim c)
                          (kernel_size c) true
                   else Conv (spatial_rank (n_dim c)) (enc_in e) (enc_out e) 2 0 2)
                    (n :: enc_in e :: ((fun m => 2 * m) <$> ms))
                  = ok (n :: enc_out e :: ms)).
  { destruct Hcase as [-> | ->].
    - rewrite bool_decide_eq_true_2 by reflexivity. apply ResidualBlock_halve; assumption.
    - rewrite bool_decide_eq_false_2 by discriminate.
      destruct Hwf as (Hlen & _ & Hms). apply Conv_halve; [exact Hlen | right; reflexivity | exact Hms]. }
  rewrite Hdown. cbn [bind ok].
  rewrite ResidualBlock_same by assumption. reflexivity.
Qed.


Lemma mapM_Forall2 {A B} (f : A -> result B) (l : list A) (r : list B) :
  mapM f l = ok r -> Forall2 (fun a b => f a = ok b) l r.
Proof.
  revert r. induction l as [|a l IH]; intros r; cbn.
  - intros [= <-]. constructor.
  - destruct (f a) as [e | b] eqn:Hb; [discriminate|]. cbn [bind].
    destruct (mapM f l) as [e | bs]; [discriminate|]. cbn [bind ok].
    intros [= <-]. constructor; [exact Hb | apply IH; reflexivity].
Qed.

Lemma index_elem {A} (l : list A) (i : Z) (a : A) : index l i = ok a -> a ∈ l.
Proof.
  unfold index. destruct (i <? 0); [discriminate|].
  destruct (l !! Z.to_nat i) eqn:E; [|discriminate].
  intros [= <-]. eapply list_elem_of_lookup_2. exact E.
Qed.

Lemma range_down_nil (start stop : Z) : start <= stop -> range_down start stop = [].
Proof.
  intros H. unfold range_down, seqZ. replace (Z.to_nat (start - stop)) with 0%nat by lia.
  reflexivity.
Qed.

Lemma range_down_cons (start stop : Z) :
  stop < start -> range_down start stop = start :: range_down (start - 1) stop.
Proof.
  intros H. unfold range_down. rewrite seqZ_cons by lia. rewrite fmap_cons. f_equal; [lia|].
  replace (Z.succ 0) with (1 + 0) by lia. rewrite <- (fmap_add_seqZ 1).
  rewrite <- list_fmap_compose. replace (Z.pred (start - stop)) with (start - 1 - stop) by lia.
  apply list_fmap_ext. intros i x _. unfold compose. lia.
Qed.

Lemma reverse_seqZ_0 (len : nat) :
  reverse (seqZ 0 (Z.of_nat len)) = range_down (Z.of_nat len - 1) (-1).
Proof.
  induction len as [|len IH]; [reflexivity|].
  rewrite seqZ_S, reverse_snoc, IH.
  rewrite (range_down_cons (Z.of_nat (S len) - 1)) by lia.
  f_equal; [lia|]. f_equal. lia.
Qed.

Lemma Upsample_double (c : UNetConfig) (mode : string) (n ch : Z) (sp : list Z) :
  (mode ∈ ["nearest"; "bilinear"; "bicubic"] /\ n_dim c = 2)
  \/ (mode ∈ ["nearest"; "trilinear"] /\ n_dim c = 3) ->
  length sp = spatial_rank (n_dim c) -> 1 <= ch -> Forall (fun d => 1 <= d) sp ->
  Upsample mode (n :: ch :: sp) = ok (n :: ch :: ((fun d => 2 * d) <$> sp)).
Proof.
  intros Hmode Hlen Hch Hsp. unfold Upsample.
  rewrite (forallb_ge 1 (ch :: sp)) by (constructor; assumption). rewrite andb_true_r.
  rewrite bool_decide_eq_true_2; [reflexivity|].
  cbn [length]. rewrite Hlen. unfold spatial_rank.
  destruct Hmode as [[Hm ->] | [Hm ->]]; cbn [Z.eqb Pos.eqb].
  - rewrite !elem_of_cons, elem_of_nil in Hm.
    destruct Hm as [-> | [-> | [-> | []]]]; vm_compute; set_solver.
  - rewrite !elem_of_cons, elem_of_nil in Hm.
    destruct Hm as [-> | [-> | []]]; vm_compute; set_solver.
Qed.

(** What one turn of the decoder loop records. *)
Lemma decoder_stage_inv (c : UNetConfig) (i : Z) (d : DecoderStage) :
  decoder_stage c i = ok d ->
  up_in d = base_channels c * 2 ^ i
  /\ up_out d = base_channels c * 2 ^ (i - 1)
  /\ dec_in d = base_channels c * 2 ^ (i - 1) * (if bool_decide (skip_method c = "add") then 1 else 2)
  /\ dec_out d = base_channels c * 2 ^ (i - 1)
  /\ index (upsampling c) (i - 1) = ok (up_mode d)
  /\ index (decoding_block_sizes c) (depth c - 1 - i) = ok (dec_block_size d)
  /\ ((up_mode d = "conv" /\ ffc c = false /\ fusion_conv d = None)
      \/ (up_mode d <> "conv"
          /\ ((up_mode d ∈ ["nearest"; "bilinear"; "bicubic"] /\ n_dim c = 2)
              \/ (up_mode d ∈ ["nearest"; "trilinear"] /\ n_dim c = 3))
          /\ fusion_conv d
             = Some (if bool_decide (skip_method c = "add")
                     then (base_channels c * 2 ^ (i - 1), base_channels c * 2 ^ (i - 1))
                     else (base_channels c * 2 ^ i, base_channels c * 2 ^ i)))).
Proof.
  unfold decoder_stage.
  destruct (index (upsampling c) (i - 1)) as [|method]; [discriminate|]. cbn [bind].
  destruct (bool_decide_reflect (method = "conv")) as [Hconv | Hconv].
  - destruct (ffc c) eqn:Hffc; [discriminate|]. cbn [bind ok].
    destruct (index (decoding_block_sizes c) (depth c - 1 - i)) as [|bs]; [discriminate|].
    cbn [bind ok]. intros [= <-]. cbn. repeat split; try reflexivity. left. auto.
  - destruct (bool_decide_reflect (method ∈ ["nearest"; "bilinear"; "bicubic"])) as [H2 | H2];
      destruct (Z.eqb_spec (n_dim c) 2) as [Hn2 | Hn2]; cbn [andb orb].
    + cbn [bind ok].
      destruct (index (decoding_block_sizes c) (depth c - 1 - i)) as [|bs]; [discriminate|].
      cbn [bind ok]. intros [= <-]. cbn. repeat split; try reflexivity. right. auto.
    + destruct (bool_decide_reflect (method ∈ ["nearest"; "trilinear"])) as [H3 | H3];
        destruct (Z.eqb_spec (n_dim c) 3) as [Hn3 | Hn3]; cbn [andb orb bind]; try discriminate.
      destruct (index (decoding_block_sizes c) (depth c - 1 - i)) as [|bs]; [discriminate|].
      cbn [bind ok]. intros [= <-]. cbn. repeat split; try reflexivity. right. auto.
    + destruct (bool_decide_reflect (method ∈ ["nearest"; "trilinear"])) as [H3 | H3];
        destruct (Z.eqb_spec (n_dim c) 3) as [Hn3 | Hn3]; cbn [andb orb bind]; try discriminate.
      lia.
    + destruct (bool_decide_reflect (method ∈ ["nearest"; "trilinear"])) as [H3 | H3];
        destruct (Z.eqb_spec (n_dim c) 3) as [Hn3 | Hn3]; cbn [andb orb bind]; try discriminate.
      destruct (index (decoding_block_sizes c) (depth c - 1 - i)) as [|bs]; [discriminate|].
      cbn [bind ok]. intros [= <-]. cbn. repeat split; try reflexivity. right. auto.
Qed.


Section Levels.

Variable c : UNetConfig.
Variable n : Z.
Variable ms : list Z.
Hypothesis Hk : 1 <= kernel_size c.
Hypothesis Hodd : kernel_size c mod 2 = 1.
Hypothesis Hbase : 1 <= base_channels c.
Hypothesis Hwf : well_formed training (spatial_rank (n_dim c)) n ms.

Lemma level_well_formed (j : Z) :
  j <= depth c - 1 ->
  well_formed training (spatial_rank (n_dim c)) n ((fun m => 2 ^ (depth c - 1 - j) * m) <$> ms).
Proof.
  intros Hj. destruct Hwf as (Hlen & Hmode & Hms).
  split; [rewrite length_fmap; exact Hlen|]. split; [exact Hmode|].
  apply Forall_fmap. eapply Forall_impl; [exact Hms|]. intros m Hm.
  unfold compose. cbn beta in *.
  pose proof (Z.pow_pos_nonneg 2 (depth c - 1 - j) ltac:(lia) ltac:(lia)). nia.
Qed.

Lemma level_double (j : Z) :
  j < depth c - 1 ->
  (fun m => 2 ^ (depth c - 1 - j) * m) <$> ms
  = (fun m => 2 * m) <$> ((fun m => 2 ^ (depth c - 1 - (j + 1)) * m) <$> ms).
Proof.
  intros Hj. rewrite <- list_fmap_compose. apply list_fmap_ext. intros i m _.
  unfold compose.
  replace (depth c - 1 - j) with (Z.succ (depth c - 1 - (j + 1))) by lia.
  rewrite Z.pow_succ_r by lia. lia.
Qed.

Lemma level_channels_pos (j : Z) : 0 <= j -> 1 <= base_channels c * 2 ^ j.
Proof. intros Hj. pose proof (Z.pow_pos_nonneg 2 j ltac:(lia) Hj). nia. Qed.

(** The encoder loop walks down the levels and records every level it
    leaves. *)
Lemma encode_levels (es : list EncoderStage) :
  forall (i0 : Z) (outs : list (list Z)),
    Forall2 (fun i e => EncoderBlock_init c i = ok e) (seqZ i0 (Z.of_nat (length es))) es ->
    2 <= i0 -> i0 + Z.of_nat (length es) <= depth c + 1 ->
    encode (EncoderBlock_shape training (n_dim c) (kernel_size c) <$> es) outs
           (level c n ms (i0 - 2))
    = ok (outs ++ (level c n ms <$> seqZ (i0 - 2) (Z.of_nat (length es))),
          level c n ms (i0 - 2 + Z.of_nat (length es))).
Proof.
  induction es as [|e es IH]; intros i0 outs Hes Hi0 Hlen.
  - cbn. rewrite app_nil_r, Z.add_0_r. reflexivity.
  - cbn [length] in *. rewrite seqZ_cons in Hes by lia.
    apply Forall2_cons in Hes as [He Hes].
    replace (Z.pred (Z.of_nat (S (length es)))) with (Z.of_nat (length es)) in Hes by lia.
    rewrite fmap_cons. cbn [encode].
    destruct (EncoderBlock_init_inv c i0 e He) as (Hin & Hout & _).
    assert (Hstep : EncoderBlock_shape training (n_dim c) (kernel_size c) e (level c n ms (i0 - 2))
                    = ok (level c n ms (i0 - 1))).
    { unfold level. rewrite <- Hin, level_double by lia.
      replace (i0 - 2 + 1) with (i0 - 1) by lia.
      rewrite (EncoderBlock_halve c i0 n e) by (assumption || (apply level_well_formed; lia)).
      rewrite Hout. reflexivity. }
    rewrite Hstep. cbn [bind ok].
    replace (i0 - 1) with (Z.succ i0 - 2) by lia.
    rewrite IH by (assumption || lia).
    rewrite <- app_assoc. cbn [app].
    rewrite (seqZ_cons (i0 - 2)) by lia. rewrite fmap_cons.
    replace (Z.succ (i0 - 2)) with (Z.succ i0 - 2) by lia.
    replace (Z.pred (Z.of_nat (S (length es)))) with (Z.of_nat (length es)) by lia.
    do 2 f_equal. f_equal. lia.
Qed.

Hypothesis Hskip : skip_method c ∈ ["add"; "concat"; "cat"].
Hypothesis Hblocks : Forall (fun b => 1 <= b) (decoding_block_sizes c).

(** One turn of the decoder loop climbs one level. *)
Lemma decoder_stage_climbs (i : Z) (d : DecoderStage) :
  decoder_stage c i = ok d -> 1 <= i <= depth c - 1 ->
  (do x <- upsampling_block_shape (n_dim c) (kernel_size c) d (level c n ms i);
   do x <- fuse add_ cat (skip_method c) x (level c n ms (i - 1));
   do x <- conv_after_upsample_shape (n_dim c) (kernel_size c) d x;
   decoder_block_shape training (n_dim c) (kernel_size c) d x)
  = ok (level c n ms (i - 1)).
Proof.
  intros Hd Hi.
  destruct (decoder_stage_inv c i d Hd) as (Hup_in & Hup_out & Hdec_in & Hdec_out & _ & Hbs & Hcase).
  assert (Hsize : 1 <= dec_block_size d).
  { apply index_elem in Hbs. rewrite Forall_forall in Hblocks. apply Hblocks. exact Hbs. }
  pose proof (level_well_formed i ltac:(lia)) as Hwf_i.
  pose proof (level_well_formed (i - 1) ltac:(lia)) as Hwf_j.
  pose proof (level_double (i - 1) ltac:(lia)) as Hdouble.
  replace (i - 1 + 1) with i in Hdouble by lia.
  set (S_i := (fun m => 2 ^ (depth c - 1 - i) * m) <$> ms) in *.
  set (S_j := (fun m => 2 ^ (depth c - 1 - (i - 1)) * m) <$> ms) in *.
  set (B_i := base_channels c * 2 ^ i) in *.
  set (B_j := base_channels c * 2 ^ (i - 1)) in *.
  assert (HB : B_i = B_j + B_j).
  { unfold B_i, B_j. replace i with (Z.succ (i - 1)) at 1 by lia.
    rewrite Z.pow_succ_r by lia. lia. }
  assert (HBpos : 1 <= B_i) by (apply level_channels_pos; lia).
  (* the upsampling block *)
  assert (Hup : upsampling_block_shape (n_dim c) (kernel_size c) d (level c n ms i)
                = ok (n :: B_j :: S_j)).
  { unfold upsampling_block_shape, level. fold S_i B_i.
    destruct Hcase as [(Hconv & _ & _) | (Hconv & Hmode & _)].
    - rewrite bool_decide_eq_true_2 by exact Hconv. rewrite Hup_in, Hup_out.
      destruct Hwf_i as (Hlen & _ & Hms).
      rewrite ConvTranspose_double by assumption. rewrite Hdouble. reflexivity.
    - rewrite bool_decide_eq_false_2 by exact Hconv. cbn [Sequential].
      destruct Hwf_i as (Hlen & _ & Hms).
      rewrite (Upsample_double c) by assumption. cbn [bind ok].
      rewrite Hup_in, Hup_out, <- Hdouble.
      rewrite Conv_keep by (destruct Hwf_j as (? & _ & ?); assumption). reflexivity. }
  rewrite Hup. cbn [bind ok].
  unfold level at 1. fold S_j B_j.
  unfold conv_after_upsample_shape, decoder_block_shape. rewrite Hdec_in, Hdec_out.
  fold B_j.
  destruct (bool_decide_reflect (skip_method c = "add")) as [Hadd | Hadd].
  - (* add *)
    unfold fuse. rewrite bool_decide_eq_true_2 by exact Hadd.
    rewrite add__diag. cbn [bind ok].
    assert (Hextra : match fusion_conv d with
                     | Some (ci, co) =>
                         Conv (spatial_rank (n_dim c)) ci co (kernel_size c) (kernel_size c / 2) 1
                     | None => Identity
                     end (n :: B_j :: S_j) = ok (n :: B_j :: S_j)).
    { destruct Hcase as [(_ & _ & ->) | (_ & _ & ->)]; [reflexivity|].
      apply Conv_keep; (destruct Hwf_j as (? & _ & ?); assumption). }
    rewrite Hextra. cbn [bind ok].
    replace (B_j * 1) with B_j by lia.
    rewrite ResidualBlock_keep by assumption. reflexivity.
  - (* concat *)
    unfold fuse. rewrite bool_decide_eq_false_2 by exact Hadd.
    rewrite bool_decide_eq_true_2.
    2:{ rewrite !elem_of_cons in Hskip. rewrite !elem_of_cons. tauto. }
    rewrite cat_pair. cbn [bind ok]. rewrite <- HB.
    assert (Hextra : match fusion_conv d with
                     | Some (ci, co) =>
                         Conv (spatial_rank (n_dim c)) ci co (kernel_size c) (kernel_size c / 2) 1
                     | None => Identity
                     end (n :: B_i :: S_j) = ok (n :: B_i :: S_j)).
    { destruct Hcase as [(_ & _ & ->) | (_ & _ & ->)]; [reflexivity|].
      apply Conv_keep; (destruct Hwf_j as (? & _ & ?); assumption). }
    rewrite Hextra. cbn [bind ok].
    replace (B_j * 2) with B_i by lia.
    rewrite ResidualBlock_keep by assumption. reflexivity.
Qed.

(** The decoder loop climbs back to level 0. *)
Lemma decode_levels (ds : list DecoderStage) :
  forall t : Z,
    Forall2 (fun i d => decoder_stage c i = ok d) (range_down t 0) ds ->
    0 <= t <= depth c - 1 ->
    decode add_ cat (skip_method c)
           (upsampling_block_shape (n_dim c) (kernel_size c) <$> ds)
           (decoder_block_shape training (n_dim c) (kernel_size c) <$> ds)
           (level c n ms <$> range_down (t - 1) (-1))
           (conv_after_upsample_shape (n_dim c) (kernel_size c) <$> ds)
           (level c n ms t)
    = ok (level c n ms 0).
Proof.
  induction ds as [|d ds IH]; intros t Hds Ht.
  - apply Forall2_nil_inv_r in Hds.
    destruct (Z.le_gt_cases t 0) as [H0 | H0].
    + replace t with 0 by lia. reflexivity.
    + rewrite range_down_cons in Hds by lia. discriminate Hds.
  - destruct (Z.le_gt_cases t 0) as [H0 | H0].
    { rewrite range_down_nil in Hds by lia. inversion Hds. }
    rewrite range_down_cons in Hds by lia. apply Forall2_cons in Hds as [Hd Hds].
    rewrite (range_down_cons (t - 1)) by lia. rewrite !fmap_cons.
    cbn [decode].
    pose proof (decoder_stage_climbs t d Hd ltac:(lia)) as Hstep.
    destruct (upsampling_block_shape (n_dim c) (kernel_size c) d (level c n ms t)) as [e | x1];
      [discriminate Hstep|].
    cbn [bind] in Hstep |- *.
    destruct (fuse add_ cat (skip_method c) x1 (level c n ms (t - 1))) as [e | x2];
      [discriminate Hstep|].
    cbn [bind] in Hstep |- *.
    destruct (conv_after_upsample_shape (n_dim c) (kernel_size c) d x2) as [e | x3];
      [discriminate Hstep|].
    cbn [bind] in Hstep |- *.
    rewrite Hstep. cbn [bind].
    apply IH; [exact Hds | lia].
Qed.

End Levels.


(** A kernel that does not fit in the padded input makes the convolution
    raise. *)
Lemma Conv_small (D : nat) (cin cout k p s n : Z) (sp : list Z) :
  length sp = D -> ~ Forall (fun d => 0 <= d /\ k <= d + 2 * p) sp ->
  Conv D cin cout k p s (n :: cin :: sp) = raise RuntimeError.
Proof.
  intros Hlen Hnot. unfold Conv, on_spatial. cbn [length].
  destruct (decide (S (S (length sp)) = S (S D))) as [_|]; [|lia].
  rewrite Z.eqb_refl.
  destruct (forallb (fun d => (0 <=? d) && (k <=? d + 2 * p)) sp) eqn:Hall.
  - exfalso. apply Hnot. apply Forall_forall. intros d Hd.
    rewrite forallb_forall in Hall. specialize (Hall d (proj1 (list_elem_of_In _ _) Hd)).
    apply andb_true_iff in Hall as [H0 H1]. apply Z.leb_le in H0, H1. split; assumption.
  - rewrite !andb_false_r. reflexivity.
Qed.

Lemma broadcast_rev_error (a : list Z) :
  forall b e, broadcast_rev a b = raise e -> e = RuntimeError.
Proof.
  induction a as [|x a IH]; intros [|y b] e; cbn [broadcast_rev]; try discriminate.
  destruct (broadcast_rev a b) as [e' | r] eqn:Hr; cbn [bind].
  - intros [= <-]. eapply IH. exact Hr.
  - destruct (x =? y); [discriminate|]. destruct (x =? 1); [discriminate|].
    destruct (y =? 1); [discriminate|]. intros [= <-]. reflexivity.
Qed.

Lemma broadcast_rev_clash (a : list Z) :
  forall b, Exists clash (zip a b) -> broadcast_rev a b = raise RuntimeError.
Proof.
  induction a as [|x a IH]; intros [|y b] Hex; cbn [zip zip_with] in Hex;
    try (inversion Hex; fail).
  cbn [broadcast_rev]. apply Exists_cons in Hex as [(Hxy & Hx & Hy) | Hex].
  - cbn [fst snd] in *.
    destruct (broadcast_rev a b) as [e | r] eqn:Hr; cbn [bind].
    + rewrite (broadcast_rev_error _ _ _ Hr). reflexivity.
    + destruct (Z.eqb_spec x y); [contradiction|].
      destruct (Z.eqb_spec x 1); [contradiction|].
      destruct (Z.eqb_spec y 1); [contradiction|]. reflexivity.
  - rewrite (IH b Hex). reflexivity.
Qed.

Lemma add_clash (n c : Z) (f g : Z -> Z) (sp : list Z) :
  Exists (fun d => clash (f d, g d)) sp ->
  add (n :: c :: (f <$> sp)) (n :: c :: (g <$> sp)) = raise RuntimeError.
Proof.
  intros Hex. unfold add. rewrite broadcast_rev_clash; [reflexivity|].
  rewrite !reverse_cons, <- !fmap_reverse.
  rewrite <- !app_assoc. cbn [app].
  apply Exists_exists in Hex as (d & Hd & Hclash).
  apply Exists_exists. exists (f d, g d). split; [|exact Hclash].
  apply elem_of_reverse in Hd.
  induction (reverse sp) as [|d' l IH]; [inversion Hd|].
  cbn [fmap list_fmap app zip zip_with].
  apply elem_of_cons in Hd as [-> | Hd]; [left | right; apply IH; exact Hd].
Qed.

(** X14: a unit built with [ffc=False] and an odd kernel size, on a batched
    input with [in_channels] channels (more than one sample in training
    mode): without [downsample] it keeps every spatial length and returns
    [out_channels] channels; with [downsample] it halves every even spatial
    length; with [downsample] and an odd spatial length of 5 or more it
    raises a [RuntimeError]: the two branches differ by one on that axis and
    cannot be added (an axis of length 3 is broadcast instead, and one of
    length 1 is refused by the strided convolution). *)
Theorem ResidualUnit_shape_spec (u : ResidualUnitArgs) (n : Z) (sp : list Z) :
  1 <= unit_kernel_size u -> unit_kernel_size u mod 2 = 1 ->
  length sp = spatial_rank (unit_n_dim u) -> Forall (fun d => 1 <= d) sp ->
  1 <= n -> training = false \/ 2 <= n ->
  (unit_downsample u = false ->
   ResidualUnit_shape training u (n :: unit_in u :: sp) = ok (n :: unit_out u :: sp))
  /\ (unit_downsample u = true ->
      ResidualUnit_shape training u (n :: unit_in u :: ((fun d => 2 * d) <$> sp))
      = ok (n :: unit_out u :: sp))
  /\ (unit_downsample u = true -> Exists (fun d => d mod 2 = 1 /\ 5 <= d) sp ->
      ResidualUnit_shape training u (n :: unit_in u :: sp) = raise RuntimeError).
Proof.
  intros Hk Hodd Hlen Hsp Hn Hmode.
  assert (Hwf : well_formed training (spatial_rank (unit_n_dim u)) n sp) by (split; [|split]; assumption).
  split; [intros Hds; apply ResidualUnit_keep; assumption|].
  split; [intros Hds; apply ResidualUnit_halve; assumption|].
  intros Hds Hex. unfold ResidualUnit_shape. rewrite Hds.
  rewrite BatchNorm_ok by assumption. cbn [bind ok ReLU]. rewrite orb_true_r.
  rewrite Conv_ok; try lia; try assumption.
  2:{ eapply Forall_impl; [exact Hsp|]. intros d Hd. cbn beta in *. lia. }
  cbn [bind ok Sequential].
  destruct (decide (Forall (fun d => 0 <= d /\ 2 <= d + 2 * 0) sp)) as [Hbig | Hsmall].
  2:{ rewrite Conv_small by assumption. reflexivity. }
  rewrite Conv_ok; try lia; try assumption. cbn [bind ok].
  assert (Hhalf : Forall (fun d => 1 <= d) ((fun d => FFTConv.conv_out_len d 0 2 2) <$> sp)).
  { apply Forall_fmap. eapply Forall_impl; [exact Hbig|]. intros d [_ Hd].
    unfold compose, FFTConv.conv_out_len. cbn beta.
    pose proof (Z.div_pos (d + 2 * 0 - 2) 2 ltac:(lia) ltac:(lia)). lia. }
  rewrite BatchNorm_ok by (rewrite ?length_fmap; assumption). cbn [bind ok ReLU].
  rewrite Conv_keep by (rewrite ?length_fmap; assumption). cbn [bind ok].
  apply add_clash.
  eapply Exists_impl; [exact Hex|]. intros d [Hd1 Hd5]. cbn beta.
  unfold clash, FFTConv.conv_out_len. cbn [fst snd].
  pose proof (Z.div_mod d 2 ltac:(lia)) as Hdm. rewrite Hd1 in Hdm.
  rewrite <- (Z.div_unique (d + 2 * 0 - 2) 2 (d / 2 - 1) 1) by lia.
  rewrite <- (Z.div_unique (d + 2 * 0 - 1) 2 (d / 2) 0) by lia.
  lia.
Qed.



(** What the checks of lines 320-326 leave. *)
Lemma validate_ok_inv (c : UNetConfig) :
  validate c = ok tt ->
  depth c = len (encoding_block_sizes c)
  /\ (exists first, index (encoding_block_sizes c) 0 = ok first /\ 0 < first)
  /\ last (encoding_block_sizes c) = Some 0
  /\ depth c = len (decoding_block_sizes c) + 1
  /\ depth c = len (downsampling c) + 1
  /\ len (downsampling c) = len (upsampling c)
  /\ skip_method c ∈ ["add"; "concat"; "cat"].
Proof.
  unfold validate, assert.
  destruct (Z.eqb_spec (depth c) (len (encoding_block_sizes c))); [|discriminate]. cbn [bind ok].
  destruct (index (encoding_block_sizes c) 0) as [|first]; [discriminate|]. cbn [bind ok].
  destruct (Z.ltb_spec 0 first); [|discriminate]. cbn [bind ok].
  unfold index_last. destruct (last (encoding_block_sizes c)) as [final|]; [|discriminate].
  cbn [bind ok].
  destruct (Z.eqb_spec final 0) as [-> |]; [|discriminate]. cbn [bind ok].
  destruct (Z.eqb_spec (depth c) (len (decoding_block_sizes c) + 1)); [|discriminate]. cbn [bind ok].
  destruct (Z.eqb_spec (depth c) (len (downsampling c) + 1)); [|discriminate]. cbn [bind ok].
  destruct (Z.eqb_spec (len (downsampling c)) (len (upsampling c))); [|discriminate]. cbn [bind ok].
  destruct (bool_decide_reflect (skip_method c ∈ ["add"; "concat"; "cat"])); [|discriminate].
  intros _. repeat split; try assumption. exists first. split; [reflexivity | assumption].
Qed.

(** A network that passes the checks has at least two levels. *)
Lemma validate_depth (c : UNetConfig) : validate c = ok tt -> 2 <= depth c.
Proof.
  intros H. destruct (validate_ok_inv c H) as (Hd & (first & Hfirst & Hpos) & Hlast & _).
  unfold len in Hd. destruct (encoding_block_sizes c) as [|a [|b rest]].
  - discriminate Hfirst.
  - cbn in Hfirst, Hlast. injection Hfirst as ->. injection Hlast as ->. lia.
  - cbn [length] in Hd. lia.
Qed.

(** What [UNet.__init__] builds. *)
Lemma UNet_init_inv (c : UNetConfig) (l : UNetLayout) :
  UNet_init c = ok l ->
  validate c = ok tt
  /\ exists first es ds,
       index (encoding_block_sizes c) 0 = ok first
       /\ mapM (EncoderBlock_init c) (range 2 (depth c + 1)) = ok es
       /\ mapM (decoder_stage c) (range_down (depth c - 1) 0) = ok ds
       /\ l = {| config := c;
                 encoder_blocks :=
                   {| enc_in := base_channels c; enc_out := base_channels c;
                      enc_block_size := first; enc_downsampling := None |} :: es;
                 bottom_block :=
                   (match last es with Some e => enc_out e | None => base_channels c end,
                    base_channels c * 2 ^ (depth c - 1));
                 decoder_blocks := ds |}.
Proof.
  unfold UNet_init.
  destruct (validate c) as [|[]]; [discriminate|]. cbn [bind ok].
  destruct (index (encoding_block_sizes c) 0) as [|first]; [discriminate|]. cbn [bind ok].
  destruct (mapM (EncoderBlock_init c) (range 2 (depth c + 1))) as [|es]; [discriminate|].
  cbn [bind ok].
  destruct (mapM (decoder_stage c) (range_down (depth c - 1) 0)) as [|ds]; [discriminate|].
  cbn [bind ok]. intros [= <-]. split; [reflexivity|].
  exists first, es, ds. repeat split.
Qed.

Lemma lookup_range_down (start stop : Z) (k : nat) :
  Z.of_nat k < start - stop -> range_down start stop !! k = Some (start - Z.of_nat k).
Proof.
  intros H. unfold range_down. rewrite list_lookup_fmap, lookup_seqZ_lt by lia.
  cbn. f_equal.
Qed.

(** X17: a network that is built has [depth >= 2] (with [depth = 1] lines
    321 and 322 test the same entry), [depth] encoder blocks and [depth - 1]
    decoder stages; encoder block [j] returns [base_channels * 2 ** j]
    channels and takes what block [j - 1] returns; the bottom block keeps
    the channels of the last encoder block; decoder stage [k] takes what the
    stage before it (or the bottom block) returns, upsamples to half as many
    channels, which is what the encoder output it is fused with holds, and
    its block takes as many channels for "add" and twice as many
    otherwise. *)
Theorem UNet_init_layout (c : UNetConfig) (l : UNetLayout) :
  UNet_init c = ok l ->
  2 <= depth c
  /\ len (encoder_blocks l) = depth c
  /\ len (decoder_blocks l) = depth c - 1
  /\ (forall (j : nat) e, encoder_blocks l !! j = Some e ->
        enc_out e = base_channels c * 2 ^ Z.of_nat j
        /\ enc_in e = (if decide (j = 0%nat) then enc_out e
                       else base_channels c * 2 ^ (Z.of_nat j - 1)))
  /\ bottom_block l = (base_channels c * 2 ^ (depth c - 1), base_channels c * 2 ^ (depth c - 1))
  /\ (forall (k : nat) d, decoder_blocks l !! k = Some d ->
        up_in d = base_channels c * 2 ^ (depth c - 1 - Z.of_nat k)
        /\ up_out d = base_channels c * 2 ^ (depth c - 2 - Z.of_nat k)
        /\ dec_out d = up_out d
        /\ dec_in d = (if bool_decide (skip_method c = "add") then up_out d else 2 * up_out d)
        /\ (forall e, encoder_blocks l !! Z.to_nat (depth c - 2 - Z.of_nat k) = Some e ->
              enc_out e = up_out d)).
Proof.
  intros Hinit.
  destruct (UNet_init_inv c l Hinit) as (Hval & first & es & ds & Hfirst & Hes & Hds & ->).
  pose proof (validate_depth c Hval) as Hdepth.
  pose proof (mapM_length _ _ _ Hes) as Hes_len.
  pose proof (mapM_length _ _ _ Hds) as Hds_len.
  unfold range in Hes_len. rewrite length_seqZ in Hes_len.
  unfold range_down in Hds_len. rewrite length_fmap, length_seqZ in Hds_len.
  apply mapM_Forall2 in Hes, Hds.
  cbn [encoder_blocks decoder_blocks bottom_block].
  assert (Henc : forall (j : nat) e,
            ({| enc_in := base_channels c; enc_out := base_channels c;
                enc_block_size := first; enc_downsampling := None |} :: es) !! j = Some e ->
            enc_out e = base_channels c * 2 ^ Z.of_nat j
            /\ enc_in e = (if decide (j = 0%nat) then enc_out e
                           else base_channels c * 2 ^ (Z.of_nat j - 1))).
  { intros [|j] e He.
    - injection He as <-. cbn. split; [lia | reflexivity].
    - cbn [lookup list_lookup] in He.
      destruct (Forall2_lookup_r _ _ _ _ _ Hes He) as (i & Hi & Hstage).
      unfold range in Hi. apply lookup_seqZ in Hi as [-> _].
      destruct (EncoderBlock_init_inv c _ e Hstage) as (-> & -> & _).
      destruct (decide (S j = 0%nat)); [lia|].
      split; f_equal; f_equal; lia. }
  split; [exact Hdepth|].
  split; [unfold len; cbn [length]; lia|].
  split; [unfold len; lia|].
  split; [exact Henc|].
  split.
  { f_equal. destruct (last es) as [e|] eqn:Hlast.
    - rewrite last_lookup in Hlast.
      destruct (Henc (S (pred (length es))) e Hlast) as [-> _].
      f_equal. f_equal. lia.
    - apply last_None in Hlast. subst es. cbn [length] in Hes_len. lia. }
  intros k d Hd.
  destruct (Forall2_lookup_r _ _ _ _ _ Hds Hd) as (i & Hi & Hstage).
  apply lookup_lt_Some in Hd as Hk.
  rewrite lookup_range_down in Hi by lia. injection Hi as <-.
  destruct (decoder_stage_inv c _ d Hstage) as (-> & -> & -> & -> & _).
  replace (depth c - 1 - Z.of_nat k - 1) with (depth c - 2 - Z.of_nat k) by lia.
  split; [reflexivity|]. split; [reflexivity|]. split; [reflexivity|].
  split; [destruct (bool_decide (skip_method c = "add")); lia|].
  intros e He. destruct (Henc _ e He) as [-> _]. f_equal. f_equal. lia.
Qed.


(** X13: a network built with [ffc=False] and an odd kernel size, on a
    batch (of more than one sample in training mode) with [in_channels]
    channels whose spatial lengths are multiples of [2 ** (depth - 1)],
    returns the same batch and spatial shape with [base_channels] channels,
    for every supported downsampling, upsampling and skip method, as long as
    no decoder block is empty. *)
Theorem UNet_forward_shape (c : UNetConfig) (l : UNetLayout) (n : Z) (ms : list Z) :
  UNet_init c = ok l -> ffc c = false ->
  1 <= kernel_size c -> kernel_size c mod 2 = 1 ->
  1 <= in_channels c -> 1 <= base_channels c ->
  Forall (fun b => 1 <= b) (decoding_block_sizes c) ->
  length ms = spatial_rank (n_dim c) -> Forall (fun m => 1 <= m) ms ->
  1 <= n -> training = false \/ 2 <= n ->
  UNet_shape training c (n :: in_channels c :: ((fun m => 2 ^ (depth c - 1) * m) <$> ms))
  = Some (ok (n :: base_channels c :: ((fun m => 2 ^ (depth c - 1) * m) <$> ms))).
Proof.
  intros Hinit Hffc Hk Hodd Hin Hbase Hblocks Hlen Hms Hn Hmode.
  assert (Hwf : well_formed training (spatial_rank (n_dim c)) n ms) by (split; [|split]; assumption).
  destruct (UNet_init_inv c l Hinit) as (Hval & first & es & ds & Hfirst & Hes & Hds & ->).
  pose proof (validate_depth c Hval) as Hdepth.
  destruct (validate_ok_inv c Hval) as (_ & _ & _ & _ & _ & _ & Hskip).
  unfold UNet_shape. rewrite Hinit. unfold ok at 1. cbv beta iota. unfold UNet_modules. cbv zeta. cbn [config]. rewrite Hffc.
  cbn [fmap option_fmap option_map]. f_equal.
  unfold forward.
  cbn [u_conv_first u_encoder_blocks u_bottom_block u_upsampling_blocks u_decoder_blocks
       u_conv_after_upsample_blocks u_skip_method encoder_blocks bottom_block decoder_blocks
       fst snd].
  assert (Hlevel0 : n :: base_channels c :: ((fun m => 2 ^ (depth c - 1) * m) <$> ms)
                    = level c n ms 0).
  { unfold level. rewrite Z.pow_0_r, Z.mul_1_r, Z.sub_0_r. reflexivity. }
  pose proof (level_well_formed c n ms Hwf 0 ltac:(lia)) as Hwf0.
  rewrite Z.sub_0_r in Hwf0.
  (* conv_first *)
  rewrite Conv_keep by (destruct Hwf0 as (? & _ & ?); assumption). cbn [bind ok].
  (* the first block *)
  rewrite fmap_cons.
  change (index (?f :: ?r) 0) with (ok (A := list Z -> result (list Z)) f).
  cbn [bind ok]. unfold EncoderBlock_shape at 1. cbn [enc_downsampling enc_in enc_out enc_block_size].
  rewrite ResidualBlock_same by assumption. cbn [bind ok skipn].
  rewrite drop_0.
  (* the encoder *)
  pose proof (mapM_length _ _ _ Hes) as Hes_len.
  unfold range in Hes_len. rewrite length_seqZ in Hes_len.
  apply mapM_Forall2 in Hes. unfold range in Hes.
  replace (depth c + 1 - 2) with (Z.of_nat (length es)) in Hes by lia.
  rewrite Hlevel0. change 0 with (2 - 2) at 1.
  rewrite (encode_levels c n ms Hk Hodd Hwf es 2 []) by (assumption || lia).
  cbn [bind ok app]. replace (2 - 2 + Z.of_nat (length es)) with (depth c - 1) by lia.
  (* the bottom block *)
  assert (Hlast : match last es with Some e => enc_out e | None => base_channels c end
                  = base_channels c * 2 ^ (depth c - 1)).
  { destruct es as [|e0 es0] using rev_ind; [cbn [length] in Hes_len; lia|].
    rewrite last_snoc. rewrite length_app in Hes. cbn [length] in Hes.
    rewrite Nat.add_1_r, seqZ_S in Hes.
    apply Forall2_app_inv_r in Hes as (l1 & l2 & _ & Hone & Heq).
    apply Forall2_cons_inv_r in Hone as (i & l3 & He & Hnil & ->).
    apply Forall2_nil_inv_r in Hnil as ->.
    apply app_inj_tail in Heq as [_ <-].
    destruct (EncoderBlock_init_inv c _ e0 He) as (_ & -> & _).
    rewrite length_app in Hes_len. cbn [length] in Hes_len.
    do 2 f_equal. lia. }
  rewrite Hlast.
  unfold level at 1.
  rewrite ResidualBlock_same by (assumption || (apply level_well_formed; [assumption | lia])).
  cbn [bind ok].
  (* the decoder *)
  apply mapM_Forall2 in Hds.
  rewrite <- fmap_reverse.
  replace (2 - 2) with 0 by lia. rewrite reverse_seqZ_0.
  replace (Z.of_nat (length es) - 1) with (depth c - 1 - 1) by lia.
  fold (level c n ms (depth c - 1)).
  apply (decode_levels c n ms Hk Hodd Hbase Hwf Hskip Hblocks ds (depth c - 1)); [exact Hds | lia].
Qed.

(** The encoder loop records its input first. *)
Lemma encode_inv {T} (blocks : list (T -> result T)) :
  forall (outs0 : list T) (x : T) (outs : list T) (y : T),
    encode blocks outs0 x = ok (outs, y) ->
    exists rest, outs = outs0 ++ rest /\ length rest = length blocks
                 /\ (blocks <> [] -> head rest = Some x).
Proof.
  induction blocks as [|b blocks IH]; intros outs0 x outs y; cbn [encode].
  - intros [= <- <-]. exists []. rewrite app_nil_r. repeat split. congruence.
  - destruct (b x) as [e | x']; [discriminate|]. cbn [bind]. intros Hrun.
    destruct (IH _ _ _ _ Hrun) as (rest & -> & Hlen & _).
    exists (x :: rest). rewrite <- app_assoc. repeat split. cbn [length]. lia.
Qed.

(** A decoder loop that returns has run its last stage. *)
Lemma decode_last {T} (add_ : T -> T -> result T) (cat : list T -> result T) (m : string)
    (ups : list (T -> result T)) :
  forall (decs : list (T -> result T)) (skips : list T) (extras : list (T -> result T))
         (x y : T),
    decode add_ cat m ups decs skips extras x = ok y ->
    ups <> [] -> length decs = length ups -> length skips = length ups ->
    length extras = length ups ->
    exists up skip xin x1 x2,
      last ups = Some up /\ last skips = Some skip
      /\ up xin = ok x1 /\ fuse add_ cat m x1 skip = ok x2.
Proof.
  induction ups as [|up ups IH]; intros decs skips extras x y Hrun Hne Hd Hs He;
    [congruence|].
  destruct decs as [|dec decs], skips as [|skip skips], extras as [|extra extras];
    try discriminate.
  cbn [decode] in Hrun.
  destruct (up x) as [e | x1] eqn:Hup; [discriminate|]. cbn [bind] in Hrun.
  destruct (fuse add_ cat m x1 skip) as [e | x2] eqn:Hfuse; [discriminate|]. cbn [bind] in Hrun.
  destruct (extra x2) as [e | x3]; [discriminate|]. cbn [bind] in Hrun.
  destruct (dec x3) as [e | x4]; [discriminate|]. cbn [bind] in Hrun.
  destruct ups as [|up' ups].
  - destruct skips; [|discriminate]. exists up, skip, x, x1, x2. repeat split; assumption.
  - destruct skips as [|skip' skips]; [discriminate|].
    destruct (IH decs (skip' :: skips) extras x4 y Hrun) as (u & s & xin & y1 & y2 & Hu & Hsk & H1 & H2);
      [discriminate | cbn [length] in *; lia | cbn [length] in *; lia | cbn [length] in *; lia|].
    exists u, s, xin, y1, y2. repeat split; assumption.
Qed.

Lemma on_spatial_inv (D : nat) (ci co : Z) (f : list Z -> result (list Z)) (x y : list Z) :
  on_spatial D ci co f x = ok y ->
  (exists n sp sp', x = n :: ci :: sp /\ length sp = D /\ f sp = ok sp' /\ y = n :: co :: sp')
  \/ (exists sp sp', f sp = ok sp' /\ length sp = D /\ y = co :: sp').
Proof.
  unfold on_spatial.
  destruct (decide (length x = S (S D))) as [Hlen | Hlen].
  - destruct x as [|n [|c sp]]; try discriminate.
    destruct (Z.eqb_spec c ci) as [-> |]; [|discriminate].
    destruct (f sp) as [e | sp'] eqn:Hf; [discriminate|]. cbn. intros [= <-].
    left. exists n, sp, sp'. cbn [length] in Hlen. repeat split; [lia | exact Hf].
  - destruct (decide (length x = S D)) as [Hlen' | Hlen']; [|discriminate].
    destruct x as [|c sp]; [discriminate|].
    destruct (Z.eqb_spec c ci) as [-> |]; [|discriminate].
    destruct (f sp) as [e | sp'] eqn:Hf; [discriminate|]. cbn. intros [= <-].
    right. exists sp, sp'. cbn [length] in Hlen'. repeat split; [exact Hf | lia].
Qed.

Lemma Conv_keep_inv (D : nat) (ci co k : Z) (x y : list Z) :
  k mod 2 = 1 -> Conv D ci co k (k / 2) 1 x = ok y ->
  (exists n sp, x = n :: ci :: sp /\ length sp = D /\ y = n :: co :: sp) \/ length y = S D.
Proof.
  intros Hodd Hrun. unfold Conv in Hrun.
  apply on_spatial_inv in Hrun as [(n & sp & sp' & -> & Hlen & Hf & ->) | (sp & sp' & Hf & Hlen & ->)].
  - left. exists n, sp. repeat split; [exact Hlen|].
    destruct (_ && _); [|discriminate]. injection Hf as <-.
    do 2 f_equal. rewrite <- (list_fmap_id sp) at 2. apply list_fmap_ext. intros i d _.
    unfold FFTConv.conv_out_len. rewrite Z.div_1_r. pose proof (odd_half k Hodd). cbn. lia.
  - right. destruct (_ && _); [|discriminate]. injection Hf as <-.
    cbn [length]. rewrite length_fmap. lia.
Qed.

(** What the upsampling block of a decoder stage returns has even spatial lengths. *)
Lemma upsampling_block_even (nd k : Z) (d : DecoderStage) (x y : list Z) :
  k mod 2 = 1 ->
  upsampling_block_shape nd k d x = ok y -> even_shape (spatial_rank nd) y.
Proof.
  intros Hodd. unfold upsampling_block_shape.
  destruct (bool_decide (up_mode d = "conv")).
  - unfold ConvTranspose. intros Hrun.
    apply on_spatial_inv in Hrun as [(n & sp & sp' & -> & Hlen & Hf & ->) | (sp & sp' & Hf & Hlen & ->)].
    + left. exists n, (up_out d), sp'.
      destruct (_ && _); [|discriminate]. injection Hf as <-.
      split; [reflexivity|]. split; [rewrite length_fmap; exact Hlen|].
      apply Forall_fmap, Forall_forall. intros m _. unfold compose.
      replace ((m - 1) * 2 + 2) with (m * 2) by lia. apply Z.mod_mul. lia.
    + right. destruct (_ && _); [|discriminate]. injection Hf as <-.
      cbn [length]. rewrite length_fmap. lia.
  - cbn [Sequential]. destruct (Upsample (up_mode d) x) as [e | x'] eqn:Hup; [discriminate|].
    cbn [bind]. destruct (Conv _ _ _ _ _ _ x') as [e | y'] eqn:Hconv; [discriminate|].
    cbn [bind ok]. intros [= <-].
    apply (Conv_keep_inv _ _ _ _ _ _ Hodd) in Hconv as [(n & sp & -> & Hlen & ->) | Hlen];
      [|right; exact Hlen].
    left. exists n, (up_out d), sp. split; [reflexivity|]. split; [exact Hlen|].
    unfold Upsample in Hup. destruct x as [|n0 [|c0 sp0]]; try discriminate.
    destruct (_ && _); [|discriminate]. injection Hup as _ _ <-.
    apply Forall_fmap, Forall_forall. intros m _. unfold compose.
    rewrite Z.mul_comm. apply Z.mod_mul. lia.
Qed.

Lemma broadcast_rev_left (a : list Z) :
  forall b, broadcast_rev a b = ok a -> length a = length b ->
            Forall2 (fun x y => y = x \/ y = 1) a b.
Proof.
  induction a as [|x a IH]; intros [|y b] Hrun Hlen; try discriminate Hlen; [constructor|].
  cbn [broadcast_rev] in Hrun.
  destruct (broadcast_rev a b) as [e | r] eqn:Hr; [discriminate|]. cbn [bind] in Hrun.
  assert (Hcase : r = a /\ (y = x \/ y = 1)).
  { destruct (Z.eqb_spec x y) as [-> | Hxy].
    - injection Hrun as ->. auto.
    - destruct (Z.eqb_spec x 1) as [-> | Hx1].
      + injection Hrun as -> ->. auto.
      + destruct (Z.eqb_spec y 1) as [-> | Hy1]; [|discriminate].
        injection Hrun as ->. auto. }
  destruct Hcase as [-> Hy]. constructor; [exact Hy|].
  apply IH; [exact Hr | cbn in Hlen; lia].
Qed.

Lemma broadcast_rev_length (a : list Z) :
  forall b r, broadcast_rev a b = ok r -> length r = Nat.max (length a) (length b).
Proof.
  induction a as [|x a IH]; intros [|y b] r; cbn [broadcast_rev].
  - intros [= <-]. reflexivity.
  - intros [= <-]. reflexivity.
  - intros [= <-]. cbn [length]. lia.
  - destruct (broadcast_rev a b) as [e | r'] eqn:Hr; [discriminate|]. cbn [bind].
    pose proof (IH _ _ Hr) as Hlen.
    destruct (x =? y); [intros [= <-]; cbn [length]; lia|].
    destruct (x =? 1); [intros [= <-]; cbn [length]; lia|].
    destruct (y =? 1); [intros [= <-]; cbn [length]; lia | discriminate].
Qed.

(** What fusing by "add" or by concatenation asks of the skipped tensor. *)
Lemma fuse_inv (m : string) (x skip r : list Z) :
  (3 <= length x)%nat -> (length x <= length skip)%nat ->
  fuse add_ cat m x skip = ok r ->
  length x = length skip
  /\ Forall2 (fun a b => b = a \/ b = 1) (drop 2 x) (drop 2 skip).
Proof.
  intros Hx3 Hx. unfold fuse.
  destruct (bool_decide (m = "add")).
  - unfold add_, add. destruct (broadcast_rev (reverse x) (reverse skip)) as [e | r'] eqn:Hr;
      [discriminate|].
    cbn [on_ok bind]. destruct (decide (reverse r' = x)) as [Heq | Hne]; [|discriminate].
    intros _. pose proof (broadcast_rev_length _ _ _ Hr) as Hlen.
    rewrite !length_reverse in Hlen.
    assert (Hsame : length x = length skip) by (rewrite <- Heq, length_reverse in *; lia).
    split; [exact Hsame|].
    assert (Hr' : r' = reverse x) by (rewrite <- Heq, reverse_involutive; reflexivity).
    subst r'. apply broadcast_rev_left in Hr; [|rewrite !length_reverse; exact Hsame].
    apply Forall2_reverse in Hr. rewrite !reverse_involutive in Hr.
    apply Forall2_drop. exact Hr.
  - destruct (bool_decide (m ∈ ["cat"; "concat"])); [|discriminate].
    unfold cat.
    assert (Hx0 : x <> [0]) by (intros ->; cbn in Hx3; lia).
    assert (Hs0 : skip <> [0]) by (intros ->; cbn in Hx; lia).
    rewrite !filter_cons_True by assumption. rewrite filter_nil.
    destruct x as [|n [|c sp]]; try (cbn in Hx3; lia).
    cbn [mapM]. destruct skip as [|n' [|c' sp']]; try discriminate.
    destruct (decide (n' = n /\ sp' = sp)) as [[-> ->] | Hne]; [|discriminate].
    intros _. split; [reflexivity|]. cbn [skipn]. rewrite !drop_0.
    apply Forall_Forall2_diag, Forall_forall. intros d _. left. reflexivity.
Qed.


Lemma not_Forall_one (sp : list Z) (p : Z) :
  Exists (fun d => d = 1) sp -> ~ Forall (fun d => 0 <= d /\ 2 <= d + 2 * p) sp \/ 0 < p.
Proof.
  intros Hex. destruct (Z.lt_ge_cases 0 p) as [Hp | Hp]; [right; exact Hp|].
  left. intros Hall. apply Exists_exists in Hex as (d & Hd & ->).
  rewrite Forall_forall in Hall. specialize (Hall 1 Hd). lia.
Qed.

(** An encoder block raises on an axis of length 1. *)
Lemma EncoderBlock_one (c : UNetConfig) (i n : Z) (e : EncoderStage) (sp : list Z) :
  EncoderBlock_init c i = ok e ->
  well_formed training (spatial_rank (n_dim c)) n sp ->
  Exists (fun d => d = 1) sp ->
  EncoderBlock_shape training (n_dim c) (kernel_size c) e (n :: enc_in e :: sp)
  = raise RuntimeError.
Proof.
  intros Hinit (Hlen & Hmode & Hsp) Hone.
  destruct (EncoderBlock_init_inv c i e Hinit) as (_ & _ & _ & method & Hm & _ & Hcase).
  assert (Hsmall : ~ Forall (fun d => 0 <= d /\ 2 <= d + 2 * 0) sp).
  { destruct (not_Forall_one sp 0 Hone) as [H | H]; [exact H | lia]. }
  unfold EncoderBlock_shape. rewrite Hm. cbn [Sequential].
  destruct Hcase as [-> | ->].
  - rewrite bool_decide_eq_true_2 by reflexivity.
    unfold ResidualBlock_shape, ResidualBlock_units.
    rewrite range_cons by lia. rewrite range_nil by lia. rewrite !fmap_cons, !fmap_nil.
    cbn [Sequential]. unfold ResidualUnit_shape at 1.
    cbn [unit_in unit_out unit_n_dim unit_kernel_size unit_downsample Z.eqb].
    rewrite BatchNorm_ok by assumption. cbn [bind ok ReLU]. rewrite orb_true_r.
    rewrite Conv_ok; try lia; try assumption.
    2:{ eapply Forall_impl; [exact Hsp|]. intros d Hd. cbn beta in *. lia. }
    cbn [bind ok Sequential]. rewrite Conv_small by assumption. reflexivity.
  - rewrite bool_decide_eq_false_2 by discriminate.
    rewrite Conv_small by assumption. reflexivity.
Qed.

(** X19: a network built with [ffc=False] and an odd kernel size never
    returns for a batched input with an odd spatial length: an axis of
    length 1 is refused by the first downsampling, and on any other odd axis
    the last upsampling returns an even length, which can neither be
    concatenated with nor added to the skipped tensor. *)
Theorem UNet_forward_odd_length (c : UNetConfig) (l : UNetLayout) (n : Z) (sp : list Z) :
  UNet_init c = ok l -> ffc c = false ->
  1 <= kernel_size c -> kernel_size c mod 2 = 1 ->
  1 <= in_channels c -> 1 <= base_channels c ->
  length sp = spatial_rank (n_dim c) -> Forall (fun d => 1 <= d) sp ->
  1 <= n -> training = false \/ 2 <= n ->
  Exists (fun d => d mod 2 = 1) sp ->
  exists e, UNet_shape training c (n :: in_channels c :: sp) = Some (raise e).
Proof.
  intros Hinit Hffc Hk Hodd Hin Hbase Hlen Hsp Hn Hmode Hex.
  assert (Hwf : well_formed training (spatial_rank (n_dim c)) n sp) by (split; [|split]; assumption).
  destruct (UNet_init_inv c l Hinit) as (Hval & first & es & ds & Hfirst & Hes & Hds & ->).
  pose proof (validate_depth c Hval) as Hdepth.
  pose proof (mapM_length _ _ _ Hes) as Hes_len.
  pose proof (mapM_length _ _ _ Hds) as Hds_len.
  unfold range in Hes_len. rewrite length_seqZ in Hes_len.
  unfold range_down in Hds_len. rewrite length_fmap, length_seqZ in Hds_len.
  apply mapM_Forall2 in Hes.
  unfold UNet_shape. rewrite Hinit. unfold ok at 1. cbv beta iota.
  unfold UNet_modules. cbv zeta. cbn [config]. rewrite Hffc.
  cbn [fmap option_fmap option_map].
  unfold forward.
  cbn [u_conv_first u_encoder_blocks u_bottom_block u_upsampling_blocks u_decoder_blocks
       u_conv_after_upsample_blocks u_skip_method encoder_blocks bottom_block decoder_blocks
       fst snd].
  rewrite Conv_keep by assumption. cbn [bind ok].
  rewrite fmap_cons.
  change (index (?f :: ?r) 0) with (ok (A := list Z -> result (list Z)) f).
  cbn [bind ok]. unfold EncoderBlock_shape at 1.
  cbn [enc_downsampling enc_in enc_out enc_block_size].
  rewrite ResidualBlock_same by assumption. cbn [bind ok skipn]. rewrite drop_0.
  set (x2 := n :: base_channels c :: sp).
  (* the first encoder block *)
  destruct es as [|e1 es]; [cbn [length] in Hes_len; lia|].
  unfold range in Hes. rewrite seqZ_cons in Hes by lia.
  apply Forall2_cons in Hes as [He1 _].
  destruct (EncoderBlock_init_inv c 2 e1 He1) as (Hin1 & _).
  replace (2 - 2) with 0 in Hin1 by lia. rewrite Z.pow_0_r, Z.mul_1_r in Hin1.
  destruct (decide (Exists (fun d => d = 1) sp)) as [Hone | Hnone].
  { rewrite fmap_cons. cbn [encode]. unfold x2. rewrite <- Hin1.
    rewrite (EncoderBlock_one c 2 n e1 sp He1 Hwf Hone). eexists. reflexivity. }
  destruct (encode _ [] x2) as [e | [outs x3]] eqn:Henc; [eexists; reflexivity|].
  cbn [bind].
  apply encode_inv in Henc as (rest & -> & Hrest & Hhead).
  destruct (ResidualBlock_shape _ _ _ _ _ _ _ x3) as [e | x4]; [eexists; reflexivity|].
  cbn [bind app].
  destruct (decode _ _ _ _ _ _ _ x4) as [e | y] eqn:Hdec; [eexists; reflexivity|].
  exfalso.
  apply decode_last in Hdec
    as (up & skip & xin & x1 & x2' & Hup & Hskip & Hrun & Hfuse).
  2:{ destruct ds; [cbn [length] in Hds_len; lia | discriminate]. }
  2:{ rewrite !length_fmap. reflexivity. }
  2:{ rewrite length_reverse, Hrest, !length_fmap. cbn [length] in *. lia. }
  2:{ rewrite !length_fmap. reflexivity. }
  rewrite last_reverse, Hhead in Hskip by discriminate. injection Hskip as <-.
  rewrite fmap_last in Hup. destruct (last ds) as [d|]; [|discriminate]. injection Hup as <-.
  apply (upsampling_block_even _ _ _ _ _ Hodd) in Hrun.
  assert (Hx1 : (3 <= length x1 <= length x2)%nat).
  { unfold x2. cbn [length]. rewrite Hlen.
    destruct Hrun as [(n1 & c1 & sp1 & -> & Hl1 & _) | Hl1]; cbn [length]; rewrite ?Hl1.
    - unfold spatial_rank. destruct (n_dim c =? 2); lia.
    - unfold spatial_rank. destruct (n_dim c =? 2); lia. }
  apply fuse_inv in Hfuse as [Hsame Hall]; [|lia|lia].
  destruct Hrun as [(n1 & c1 & sp1 & -> & Hl1 & Heven) | Hl1].
  2:{ unfold x2 in Hsame. cbn [length] in Hsame. lia. }
  unfold x2 in Hall. cbn [skipn] in Hall. rewrite !drop_0 in Hall.
  apply Exists_exists in Hex as (d0 & Hd & Hdodd).
  apply list_elem_of_lookup in Hd as [i Hi].
  destruct (Forall2_lookup_r _ _ _ _ _ Hall Hi) as (a & Ha & Hcase).
  rewrite Forall_lookup in Heven. specialize (Heven _ _ Ha). cbn beta in Heven.
  destruct Hcase as [-> | ->].
  - lia.
  - apply Hnone. apply Exists_exists. exists 1. split; [|reflexivity].
    eapply list_elem_of_lookup_2. exact Hi.
Qed.

End ShapeFacts.

(** X13 on the default architecture with four base channels. *)
Lemma UNet_forward_shape_witness :
  Network.UNet_shape true
    {| Network.in_channels := 1; Network.base_channels := 4; Network.kernel_size := 3;
       Network.n_dim := 2; Network.depth := 3;
       Network.encoding_block_sizes := [1; 1; 0]; Network.decoding_block_sizes := [1; 1];
       Network.downsampling := ["conv"; "conv"]; Network.upsampling := ["conv"; "conv"];
       Network.skip_method := "concat"; Network.ffc := false |}
    [2; 1; 8; 12]
  = Some (ok [2; 4; 8; 12]).
Proof.
  refine (UNet_forward_shape true _ _ 2 [2; 3] _ _ _ _ _ _ _ _ _ _ _).
  - vm_compute. reflexivity.
  - reflexivity.
  - cbn. lia.
  - reflexivity.
  - cbn. lia.
  - cbn. lia.
  - repeat (constructor; [lia|]). constructor.
  - reflexivity.
  - repeat (constructor; [lia|]). constructor.
  - lia.
  - right. lia.
Defined.

(** X19 on the default architecture. *)
Lemma UNet_forward_odd_length_witness :
  exists e,
    Network.UNet_shape true
      {| Network.in_channels := 1; Network.base_channels := 4; Network.kernel_size := 3;
         Network.n_dim := 2; Network.depth := 3;
         Network.encoding_block_sizes := [1; 1; 0]; Network.decoding_block_sizes := [1; 1];
         Network.downsampling := ["conv"; "conv"]; Network.upsampling := ["conv"; "conv"];
         Network.skip_method := "concat"; Network.ffc := false |}
      [2; 1; 7; 8]
    = Some (raise e).
Proof.
  refine (UNet_forward_odd_length true _ _ 2 [7; 8] _ _ _ _ _ _ _ _ _ _ _).
  - vm_compute. reflexivity.
  - reflexivity.
  - cbn. lia.
  - reflexivity.
  - cbn. lia.
  - cbn. lia.
  - reflexivity.
  - repeat (constructor; [lia|]). constructor.
  - lia.
  - right. lia.
  - left. reflexivity.
Defined.

(** X14 on a downsampling unit. *)
Lemma ResidualUnit_shape_spec_witness :
  let u := {| Network.unit_in := 4; Network.unit_out := 8; Network.unit_n_dim := 2;
              Network.unit_kernel_size := 3; Network.unit_downsample := true |} in
  Network.ResidualUnit_shape true u [2; 4; 14; 8] = ok [2; 8; 7; 4]
  /\ Network.ResidualUnit_shape true u [2; 4; 7; 4] = raise RuntimeError.
Proof.
  intros u.
  destruct (ResidualUnit_shape_spec true u 2 [7; 4]) as (_ & Hhalve & Hodd).
  - cbn. lia.
  - reflexivity.
  - reflexivity.
  - repeat (constructor; [lia|]). constructor.
  - lia.
  - right. lia.
  - split; [apply Hhalve; reflexivity|].
    apply Hodd; [reflexivity|]. left. split; [reflexivity | lia].
Defined.



(** X17 on the default architecture. *)
Lemma UNet_init_layout_witness :
  let c := {| Network.in_channels := 1; Network.base_channels := 96; Network.kernel_size := 3;
              Network.n_dim := 2; Network.depth := 3;
              Network.encoding_block_sizes := [1; 1; 0];
              Network.decoding_block_sizes := [1; 1];
              Network.downsampling := ["conv"; "conv"]; Network.upsampling := ["conv"; "conv"];
              Network.skip_method := "concat"; Network.ffc := false |} in
  exists l,
    Network.UNet_init c = ok l
    /\ Network.len (Network.encoder_blocks l) = 3
    /\ Network.len (Network.decoder_blocks l) = 2
    /\ Network.bottom_block l = (384, 384).
Proof.
  intros c. eexists. split; [vm_compute; reflexivity|].
  refine (let H := UNet_init_layout c _ _ in
          conj (proj1 (proj2 H)) (conj (proj1 (proj2 (proj2 H)))
                                       (proj1 (proj2 (proj2 (proj2 (proj2 H))))))).
  vm_compute. reflexivity.
Defined.


(** ** Crops *)
Section CropFacts.
Import Util.

Lemma np_slice_inner (len start stop : Z) :
  0 <= start <= stop -> stop <= len -> np_slice len start stop = (start, stop).
Proof.
  intros H1 H2. unfold np_slice.
  destruct (Z.ltb_spec start 0); [lia|]. destruct (Z.ltb_spec stop 0); [lia|].
  rewrite !Z.min_l by lia. rewrite Z.max_r by lia. reflexivity.
Qed.

Lemma half_bounds (d : Z) : 0 <= d -> 0 <= d / 2 /\ 2 * (d / 2) <= d <= 2 * (d / 2) + 1.
Proof.
  intros Hd. pose proof (Z.div_mod d 2 ltac:(lia)).
  pose proof (Z.mod_pos_bound d 2 ltac:(lia)). lia.
Qed.

Lemma crop_as_slices (x gt : list Z) :
  Forall2 (fun g s => 0 <= g <= s) gt x ->
  let diff := zip_with Z.sub x gt in
  let top_left := (fun d => d / 2) <$> diff in
  zip_with (fun tl s_br => np_slice s_br.1 tl (s_br.1 - s_br.2))
           top_left (zip x (zip_with Z.sub diff top_left))
  = zip_with (fun s g => ((s - g) / 2, (s - g) / 2 + g)) x gt.
Proof.
  induction 1 as [|g s gt x Hgs _ IH]; [reflexivity|].
  cbn -[Z.div]. cbn -[Z.div] in IH. rewrite IH. f_equal.
  pose proof (half_bounds (s - g) ltac:(lia)).
  rewrite np_slice_inner by lia. f_equal. lia.
Qed.

Lemma forallb_diff (x gt : list Z) :
  length x = length gt ->
  forallb (fun d => 0 <=? d) (zip_with Z.sub x gt) = true <-> Forall2 Z.le gt x.
Proof.
  revert gt. induction x as [|s x IH]; intros [|g gt] Hlen; try discriminate Hlen.
  - split; [constructor | reflexivity].
  - cbn [zip_with forallb]. rewrite andb_true_iff, Z.leb_le, IH by (cbn in Hlen; lia).
    rewrite Forall2_cons. split; intros [? ?]; split; (lia || assumption).
Qed.

(** X6: for [x] and [gt] of the same rank, [crop_as] passes both of its
    assertions exactly when no axis of [x] is shorter than [gt]'s, and
    raises the [AssertionError] of line 54 otherwise.  The crop keeps, on an
    axis of length [s] against [g], the window starting at [(s - g) // 2] of
    length [g]: the margin removed at the end is the one removed at the
    start, or one more. *)
Theorem crop_as_window (x gt : list Z) :
  length x = length gt -> Forall (fun g => 0 <= g) gt ->
  (Forall2 Z.le gt x ->
   crop_as x gt = ok (zip_with (fun s g => ((s - g) / 2, (s - g) / 2 + g)) x gt)
   /\ Forall2 (fun s w => 0 <= w.1 /\ w.1 <= s - w.2 <= w.1 + 1)
              x (zip_with (fun s g => ((s - g) / 2, (s - g) / 2 + g)) x gt))
  /\ (~ Forall2 Z.le gt x -> crop_as x gt = raise (AssertionError 54)).
Proof.
  intros Hlen Hgt. unfold crop_as, np_sub.
  destruct (decide (length x = length gt)) as [_|]; [|contradiction].
  cbn [bind ok]. unfold Network.assert. split.
  - intros Hle. rewrite (proj2 (forallb_diff x gt Hlen) Hle). cbn [bind ok].
    assert (Hboth : Forall2 (fun g s => 0 <= g <= s) gt x).
    { clear Hlen. induction Hle as [|g s gt x Hgs _ IH]; [constructor|].
      inversion Hgt; subst. constructor; [lia | auto]. }
    rewrite (crop_as_slices x gt Hboth).
    assert (Hshape : sliced_shape x (zip_with (fun s g => ((s - g) / 2, (s - g) / 2 + g)) x gt)
                     = gt).
    { unfold sliced_shape. rewrite length_zip_with, <- Hlen, Nat.min_id, drop_all, app_nil_r.
      clear Hlen Hle Hgt. induction Hboth as [|g s gt x Hgs _ IH]; [reflexivity|].
      cbn -[Z.div]. cbn -[Z.div] in IH. rewrite IH. f_equal. lia. }
    rewrite Hshape, bool_decide_eq_true_2 by reflexivity. cbn [bind ok].
    split; [reflexivity|].
    clear Hshape Hlen Hle Hgt. induction Hboth as [|g s gt x Hgs _ IH]; [constructor|].
    cbn -[Z.div]. constructor; [|exact IH]. cbn -[Z.div].
    pose proof (half_bounds (s - g) ltac:(lia)). lia.
  - intros Hnot.
    destruct (forallb (fun d => 0 <=? d) (zip_with Z.sub x gt)) eqn:Hall; [|reflexivity].
    exfalso. apply Hnot. apply forallb_diff; assumption.
Qed.

Lemma crop_as_window_witness :
  crop_as [10; 7] [4; 4] = ok [(3, 7); (1, 5)]
  /\ crop_as [3; 7] [4; 4] = raise (AssertionError 54).
Proof.
  destruct (crop_as_window [10; 7] [4; 4]) as [Hfit _];
    [reflexivity | repeat (constructor; [lia|]); constructor |].
  destruct (crop_as_window [3; 7] [4; 4]) as [_ Hshort];
    [reflexivity | repeat (constructor; [lia|]); constructor |].
  split.
  - apply Hfit. repeat (constructor; [lia|]). constructor.
  - apply Hshort. intros H. inversion H; subst. lia.
Defined.

(** X7: for [size >= 0], [center_crop] keeps on an axis of length [d] the
    window starting at [max(0, d // 2 - size // 2)] with
    [min(d, size + 1 - size % 2)] entries: an even [size] keeps [size + 1]
    entries of a long axis, and an axis shorter than that is kept whole. *)
Theorem center_crop_window (x : list Z) (size : Z) :
  0 <= size -> Forall (fun d => 0 <= d) x ->
  center_crop x size
  = (fun d => let start := Z.max 0 (d / 2 - size / 2) in
              (start, start + Z.min d (size + 1 - size mod 2))) <$> x.
Proof.
  intros Hsize Hx. unfold center_crop. apply Forall_fmap_ext_1.
  eapply Forall_impl; [exact Hx|]. intros d Hd. cbn beta zeta.
  pose proof (half_bounds d Hd). pose proof (half_bounds size Hsize).
  pose proof (Z.div_mod size 2 ltac:(lia)).
  pose proof (Z.mod_pos_bound size 2 ltac:(lia)).
  rewrite np_slice_inner by lia. f_equal. lia.
Qed.

Lemma center_crop_window_witness :
  center_crop [100; 9; 64] 64 = [(18, 83); (0, 9); (0, 64)].
Proof.
  refine (eq_trans (center_crop_window [100; 9; 64] 64 _ _) _).
  - lia.
  - repeat (constructor; [lia|]). constructor.
  - reflexivity.
Defined.

End CropFacts.

Section MinMSEFacts.
Import Util.
Local Open Scope Q_scope.

(** C3: on [gt = x = [0, 2]] (with [normalize_gt=False]) the scale of line
    221 is 2, so the centred [x = [-1, 1]] comes back as [[-2, 2]], although
    covariance over variance under either single convention is 1, the scale
    at which the mean squared error to [gt] vanishes; the returned pair has
    mean squared error 1. *)
Theorem normalize_min_mse_scale_is_doubled (normalize_percentile : list Q -> list Q) :
  exists scale gt' x',
    normalize_min_mse_scaled normalize_percentile [0; 2] [0; 2] false
    = Some (scale, (gt', x'))
    /\ normalize_min_mse normalize_percentile [0; 2] [0; 2] false = Some (gt', x')
    /\ scale == 2
    /\ Forall2 Qeq gt' [-1; 1] /\ Forall2 Qeq x' [-2; 2]
    /\ (exists s0, min_mse_scale 0 gt' [-1; 1] = Some s0 /\ s0 == 1)
    /\ (exists s1, min_mse_scale 1 gt' [-1; 1] = Some s1 /\ s1 == 1)
    /\ (exists e, mse gt' x' = Some e /\ e == 1)
    /\ (exists e, mse gt' [-1; 1] = Some e /\ e == 0).
Proof.
  eexists _, _, _. split; [vm_compute; reflexivity|].
  split; [vm_compute; reflexivity|].
  split; [vm_compute; reflexivity|].
  split; [repeat constructor; vm_compute; reflexivity|].
  split; [repeat constructor; vm_compute; reflexivity|].
  split; [eexists; split; [vm_compute; reflexivity | vm_compute; reflexivity]|].
  split; [eexists; split; [vm_compute; reflexivity | vm_compute; reflexivity]|].
  split; eexists; (split; [vm_compute; reflexivity | vm_compute; reflexivity]).
Qed.

Lemma divQ_Some (a b q : Q) : divQ a b = Some q -> ~ b == 0 /\ q = a / b.
Proof.
  unfold divQ. destruct (Qeq_bool b 0) eqn:Hb; [discriminate|].
  intros [= <-]. split; [apply Qeq_bool_neq; exact Hb | reflexivity].
Qed.

Lemma divQ_nonzero (a b : Q) : ~ b == 0 -> divQ a b = Some (a / b).
Proof.
  intros Hb. unfold divQ. destruct (Qeq_bool b 0) eqn:E; [|reflexivity].
  apply Qeq_bool_iff in E. contradiction.
Qed.

(** Whatever the arrays, the scale of line 221 is the least-squares scale
    (covariance over variance, both divided by [N]) times [N / (N - 1)]. *)
Lemma line_221_inflated (x gt : list Q) (s : Q) :
  (2 <= length x)%nat ->
  min_mse_scale 0 gt x = Some s ->
  exists s', line_221 x gt = Some s' /\ s' == s * (sizeQ x / (sizeQ x - 1)).
Proof.
  intros Hlen. unfold min_mse_scale, line_221, np_cov01, np_var, covariance.
  destruct (np_mean x) as [mx|]; [|discriminate]. cbn [mbind option_bind].
  destruct (np_mean gt) as [mg|]; [|discriminate]. cbn [mbind option_bind].
  set (Sxy := sumQ (zip_with (fun a b => (a - mx) * (b - mg)) x gt)).
  set (Sxx := sumQ (zip_with (fun a b => (a - mx) * (b - mx)) x x)).
  set (N := sizeQ x).
  assert (HN : 2 <= N).
  { unfold N, sizeQ. change 2 with (inject_Z 2). rewrite <- Zle_Qle. lia. }
  change (inject_Z 0) with 0. change (inject_Z 1) with 1.
  destruct (divQ Sxy (N - 0)) as [c0|] eqn:Hc0; [|discriminate]. cbn [mbind option_bind].
  destruct (divQ Sxx (N - 0)) as [v0|] eqn:Hv0; [|discriminate]. cbn [mbind option_bind].
  intros Hs.
  apply divQ_Some in Hc0 as [_ ->]. apply divQ_Some in Hv0 as [_ ->].
  apply divQ_Some in Hs as [Hv ->].
  rewrite (divQ_nonzero Sxy (N - 1)) by Lqa.lra. cbn [mbind option_bind].
  rewrite divQ_nonzero by exact Hv.
  eexists. split; [reflexivity|].
  assert (HSxx : ~ Sxx == 0).
  { intros H0. apply Hv. rewrite H0. unfold Qdiv. ring. }
  field. repeat split; try Lqa.lra; exact HSxx.
Qed.

End MinMSEFacts.

Section CheckpointFacts.
Import Util.
Context {S D : Type} (load_state_dict : S -> D -> S * option exn).







(** The loop never adds or removes an attribute, nor a [load_state_dict]. *)
Lemma load_entry_kind (m m' : gmap string (attribute (S:=S))) (log log' : list string)
    (entry : string * D) (a : string) :
  load_entry load_state_dict (m, log) entry = ok (m', log') ->
  absent m' a = absent m a /\ skipped m' a = skipped m a.
Proof.
  destruct entry as [attr sd]. unfold Util.load_entry, absent, skipped.
  destruct (m !! attr) as [[s|]|] eqn:Hm.
  - destruct (load_state_dict s sd) as [s' [e|]].
    + destruct e; try discriminate; intros [= <- <-];
        (destruct (decide (attr = a)) as [<-|Hne];
         [rewrite lookup_insert_eq, Hm; split; reflexivity
         |rewrite lookup_insert_ne by exact Hne; split; reflexivity]).
    + intros [= <- <-].
      destruct (decide (attr = a)) as [<-|Hne];
        [rewrite lookup_insert_eq, Hm; split; reflexivity
        |rewrite lookup_insert_ne by exact Hne; split; reflexivity].
  - intros [= <- <-]. split; reflexivity.
  - intros [= <- <-]. split; reflexivity.
Qed.

Lemma load_entries_kind (items : list (string * D)) :
  forall (m m' : gmap string (attribute (S:=S))) (log log' : list string) (a : string),
    load_entries load_state_dict (m, log) items = ok (m', log') ->
    absent m' a = absent m a /\ skipped m' a = skipped m a.
Proof.
  induction items as [|entry items IH]; intros m m' log log' a Hrun.
  - injection Hrun as <- <-. split; reflexivity.
  - cbn [Util.load_entries] in Hrun.
    destruct (load_entry load_state_dict (m, log) entry) as [e | [m1 log1]] eqn:Hentry;
      [discriminate Hrun|].
    cbn [bind] in Hrun.
    destruct (IH _ _ _ _ a Hrun) as [Ha Hs].
    destruct (load_entry_kind _ _ _ _ _ a Hentry) as [Ha1 Hs1].
    split; congruence.
Qed.






End CheckpointFacts.


(** ** Mutual information of constant images *)
Section Float64.
Import Util.

Lemma digits2_pos_iter (p k : positive) :
  digits2_pos (Pos.iter xO p k) = (digits2_pos p + k)%positive.
Proof.
  induction k as [|k IH] using Pos.peano_ind.
  - cbn. rewrite Pos.add_1_r. reflexivity.
  - rewrite Pos.iter_succ. cbn [digits2_pos]. rewrite IH, Pos.add_succ_r. reflexivity.
Qed.

Lemma digits2_pos_pow (p : positive) : 2 ^ (Z.pos (digits2_pos p) - 1) <= Z.pos p.
Proof.
  induction p as [p IH | p IH |]; cbn [digits2_pos]; [| |cbn; lia].
  - rewrite Pos2Z.inj_succ. replace (Z.succ (Z.pos (digits2_pos p)) - 1)
      with (Z.succ (Z.pos (digits2_pos p) - 1)) by lia.
    rewrite Z.pow_succ_r by lia. lia.
  - rewrite Pos2Z.inj_succ. replace (Z.succ (Z.pos (digits2_pos p)) - 1)
      with (Z.succ (Z.pos (digits2_pos p) - 1)) by lia.
    rewrite Z.pow_succ_r by lia. lia.
Qed.

Lemma digits2_pos_bound (p : positive) : Z.pos p < 2 ^ 53 -> Z.pos (digits2_pos p) <= 53.
Proof.
  intros Hp. destruct (Z.le_gt_cases (Z.pos (digits2_pos p)) 53) as [|Hd]; [assumption|].
  pose proof (digits2_pos_pow p) as Hpow.
  assert (2 ^ 53 <= 2 ^ (Z.pos (digits2_pos p) - 1)) by (apply Z.pow_le_mono_r; lia).
  lia.
Qed.

(** A count below [2 ^ 53] is a positive float64. *)
Lemma of_int_finite (z : Z) :
  1 <= z < 2 ^ 53 -> exists m e, of_int z = S754_finite false m e.
Proof.
  intros [Hlo Hhi]. destruct z as [|p|p]; try lia.
  pose proof (digits2_pos_bound p Hhi) as Hd.
  unfold of_int, binary_normalize, binary_round.
  set (d := digits2_pos p) in *.
  assert (Hfexp : fexp 53 1024 (Z.pos d + 0) = Z.pos d - 53).
  { unfold fexp, emin. lia. }
  rewrite Hfexp. unfold shl_align.
  destruct (Z.pos d - 53 - 0) as [|k|k] eqn:Hk; try lia.
  - unfold binary_round_aux, shr_fexp, Zdigits2. fold d.
    rewrite Hfexp. replace (Z.pos d - 53 - 0) with 0 by lia.
    cbn [shr shr_record_of_loc shr_m loc_of_shr_record round_nearest_even Zdigits2].
    fold d. rewrite Hfexp. replace (Z.pos d - 53 - 0) with 0 by lia.
    cbn [shr shr_record_of_loc shr_m]. cbn. eauto.
  - unfold binary_round_aux, shr_fexp, Zdigits2.
    rewrite digits2_pos_iter. fold d.
    assert (Hfexp' : fexp 53 1024 (Z.pos (d + k) + (Z.pos d - 53)) = Z.pos d - 53).
    { unfold fexp, emin. lia. }
    rewrite Hfexp'. rewrite Z.sub_diag.
    cbn [shr shr_record_of_loc shr_m loc_of_shr_record round_nearest_even Zdigits2].
    rewrite digits2_pos_iter. fold d. rewrite Hfexp', Z.sub_diag.
    cbn [shr shr_record_of_loc shr_m].
    destruct (Z.leb_spec (Z.pos d - 53) (1024 - 53)); [eauto | lia].
Qed.

(** A finite number divided by itself is exactly 1. *)
Lemma fdiv_diag (s : bool) (m : positive) (e : Z) :
  fdiv (S754_finite s m e) (S754_finite s m e) = of_int 1.
Proof.
  unfold fdiv, SFdiv.
  assert (Hcore : SFdiv_core_binary 53 1024 (Z.pos m) e (Z.pos m) e = (2 ^ 53, -53, loc_Exact)).
  { unfold SFdiv_core_binary.
    replace (Zdigits2 (Z.pos m) + e - (Zdigits2 (Z.pos m) + e)) with 0 by lia.
    rewrite Z.sub_diag.
    change (Z.min (fexp 53 1024 0) 0) with (-53).
    change (0 - -53) with 53.
    cbv iota beta.
    assert (Hdiv : Z.div_eucl (Z.shiftl (Z.pos m) 53) (Z.pos m) = (2 ^ 53, 0)).
    { rewrite Z.shiftl_mul_pow2 by lia.
      pose proof (Z.div_eucl_eq (Z.pos m * 2 ^ 53) (Z.pos m) ltac:(lia)) as Heq.
      pose proof (Z.mod_pos_bound (Z.pos m * 2 ^ 53) (Z.pos m) ltac:(lia)) as Hb.
      unfold Z.modulo in Hb.
      destruct (Z.div_eucl (Z.pos m * 2 ^ 53) (Z.pos m)) as [q r].
      assert (Hr : r = 0).
      { assert (Hq : Z.pos m * (2 ^ 53 - q) = r) by lia.
        destruct (Z.eq_dec (2 ^ 53 - q) 0) as [H0 | H0]; [rewrite H0 in Hq; lia|].
        exfalso. assert (Z.pos m <= Z.abs (Z.pos m * (2 ^ 53 - q))).
        { rewrite Z.abs_mul. nia. }
        lia. }
      subst r. f_equal. nia. }
    rewrite Hdiv. f_equal. unfold new_location.
    destruct (Z.even (Z.pos m)); reflexivity. }
  rewrite Hcore. destruct s; reflexivity.
Qed.

(** Whatever is divided by a zero, the quotient is [nan] or an infinity. *)
Lemma fdiv_zero (x : float64) (s : bool) : nan_or_inf (fdiv x (S754_zero s)).
Proof. destruct x; cbn; unfold nan_or_inf; eauto. Qed.

Lemma nan_or_inf_outside (x : float64) : nan_or_inf x -> in_unit_interval x = false.
Proof. intros [-> | [[] ->]]; reflexivity. Qed.

Lemma filter_only {A} (P : A -> Prop) `{!forall a, Decision (P a)} (l : list A) (a : A) :
  NoDup l -> a ∈ l -> (forall b, b ∈ l -> P b <-> b = a) -> filter P l = [a].
Proof.
  induction 1 as [|b l Hb Hnd IH]; intros Ha HP; [inversion Ha|].
  destruct (decide (P b)) as [Hyes | Hno].
  - assert (b = a) as -> by (apply HP; [left | exact Hyes]).
    rewrite filter_cons_True by exact Hyes. f_equal.
    clear IH Ha Hyes. induction l as [|c l IH]; [reflexivity|].
    apply not_elem_of_cons in Hb as [Hc Hb]. apply NoDup_cons in Hnd as [_ Hnd].
    rewrite filter_cons_False.
    + apply IH; try assumption. intros d Hd. apply HP.
      apply elem_of_cons in Hd as [-> | Hd]; [left | right; right; exact Hd].
    + intros Hc'. apply HP in Hc'; [congruence | right; left].
  - rewrite filter_cons_False by exact Hno.
    apply elem_of_cons in Ha as [-> | Ha]; [contradiction Hno; apply HP; [left | reflexivity]|].
    apply IH; [exact Ha|]. intros c Hc. apply HP. right. exact Hc.
Qed.

Lemma sumZ_only {A} `{!EqDecision A} (f : A -> Z) (l : list A) (a : A) :
  NoDup l -> a ∈ l -> (forall b, b ∈ l -> b <> a -> f b = 0) -> sumZ (f <$> l) = f a.
Proof.
  induction 1 as [|b l Hb Hnd IH]; intros Ha Hz; [inversion Ha|].
  cbn [fmap list_fmap sumZ fold_right]. fold (sumZ (f <$> l)).
  destruct (decide (b = a)) as [-> | Hne].
  - assert (Hrest : sumZ (f <$> l) = 0).
    { clear IH Ha Hnd. induction l as [|c l IH]; [reflexivity|].
      apply not_elem_of_cons in Hb as [Hc Hb].
      cbn [fmap list_fmap sumZ fold_right]. fold (sumZ (f <$> l)).
      rewrite (Hz c); [| right; left | congruence].
      rewrite IH; [reflexivity | exact Hb |]. intros d Hd. apply Hz.
      apply elem_of_cons in Hd as [-> | Hd]; [left | right; right; exact Hd]. }
    lia.
  - rewrite (Hz b); [| left | exact Hne].
    apply elem_of_cons in Ha as [-> | Ha]; [contradiction|].
    rewrite IH; [lia | exact Ha |]. intros c Hc. apply Hz. right. exact Hc.
Qed.

Lemma cells_spec (t : table) (i j : nat) :
  (i, j) ∈ cells t <-> (i < rows t)%nat /\ (j < cols t)%nat.
Proof.
  unfold cells. rewrite list_elem_of_bind. split.
  - intros (i' & Hj & Hi). apply list_elem_of_bind in Hj as (j' & Hij & Hj).
    apply list_elem_of_singleton in Hij. injection Hij as -> ->.
    apply elem_of_seq in Hi, Hj. lia.
  - intros [Hi Hj]. exists i. split; [|apply elem_of_seq; lia].
    apply list_elem_of_bind. exists j. split; [left | apply elem_of_seq; lia].
Qed.

Lemma cells_NoDup (t : table) : NoDup (cells t).
Proof.
  unfold cells. apply NoDup_bind; [| |apply NoDup_seq].
  - intros i1 i2 ij _ _ H1 H2.
    apply list_elem_of_bind in H1 as (j1 & H1 & _), H2 as (j2 & H2 & _).
    apply list_elem_of_singleton in H1, H2. congruence.
  - intros i _. apply NoDup_bind; [| |apply NoDup_seq].
    + intros j1 j2 ij _ _ H1 H2. apply list_elem_of_singleton in H1, H2. congruence.
    + intros j _. apply NoDup_singleton.
Qed.

Section SingleCell.

Variable np_log2 : float64 -> float64.
Variable np_sum : list float64 -> float64.
Variable t : table.
Variables (i0 j0 : nat) (n : Z).

Hypothesis log2_one : np_log2 (of_int 1) = S754_zero false.
Hypothesis sum_of_a_zero : forall s, exists s', np_sum [S754_zero s] = S754_zero s'.
Hypothesis Hcell : (i0 < rows t)%nat /\ (j0 < cols t)%nat.
Hypothesis Hcount : entry t i0 j0 = n /\ 1 <= n < 2 ^ 53.
Hypothesis Hothers : forall i j, (i, j) <> (i0, j0) -> entry t i j = 0.

Lemma single_cell_nonzero : nonzero t = [(i0, j0)].
Proof.
  unfold nonzero. apply filter_only; [apply cells_NoDup | apply cells_spec; exact Hcell|].
  intros [i j] _. cbn [fst snd]. split.
  - intros Hnz. destruct (decide ((i, j) = (i0, j0))) as [|Hne]; [assumption|].
    contradiction Hnz. apply Hothers. exact Hne.
  - intros [= -> ->]. lia.
Qed.

Lemma single_cell_sum : table_sum t = n.
Proof.
  unfold table_sum.
  rewrite (sumZ_only _ _ (i0, j0)); [apply Hcount | apply cells_NoDup | apply cells_spec; exact Hcell|].
  intros [i j] _ Hne. apply Hothers. exact Hne.
Qed.

(** The only probability is exactly 1, its logarithm 0 and the entropy a
    zero. *)
Lemma single_cell_entropy :
  exists s, joint_entropy_from_contingency np_log2 np_sum t = S754_zero s.
Proof.
  unfold joint_entropy_from_contingency.
  rewrite single_cell_nonzero, single_cell_sum. cbn [fmap list_fmap fst snd].
  destruct Hcount as [-> Hn].
  destruct (of_int_finite n Hn) as (m & e & ->).
  rewrite fdiv_diag, log2_one.
  change (fmul (fneg (of_int 1)) (S754_zero false)) with (S754_zero true).
  apply sum_of_a_zero.
Qed.

Lemma single_cell_normalised :
  nan_or_inf (mutual_information_of np_log2 np_sum t true).
Proof.
  unfold mutual_information_of. destruct single_cell_entropy as [s ->]. apply fdiv_zero.
Qed.

End SingleCell.

Lemma zip_replicate {A B} (n : nat) (a : A) (b : B) :
  zip (replicate n a) (replicate n b) = replicate n (a, b).
Proof. induction n as [|n IH]; [reflexivity|]. cbn. rewrite IH. reflexivity. Qed.

Lemma filter_replicate {A} (P : A -> Prop) `{!forall a, Decision (P a)} (n : nat) (a : A) :
  filter P (replicate n a) = if decide (P a) then replicate n a else [].
Proof.
  induction n as [|n IH]; [destruct (decide (P a)); reflexivity|].
  cbn [replicate]. rewrite filter_cons, IH. destruct (decide (P a)); reflexivity.
Qed.

Lemma forallb_replicate {A} (f : A -> bool) (n : nat) (a : A) :
  f a = true -> forallb f (replicate n a) = true.
Proof. intros Ha. induction n as [|n IH]; [reflexivity|]. cbn. rewrite Ha, IH. reflexivity. Qed.

Section ConstantImages.

Variable np_log2 : float64 -> float64.
Variable np_sum : list float64 -> float64.
Variable bin_of : list float64 -> nat -> float64 -> nat.

(** What the development uses of the three parameters: the logarithm of 1
    is 0, the sum of an array holding one zero is a zero, and a value of
    the sample falls in one of the bins. *)
Hypothesis log2_one : np_log2 (of_int 1) = S754_zero false.
Hypothesis sum_of_a_zero : forall s, exists s', np_sum [S754_zero s] = S754_zero s'.
Hypothesis bin_in_range :
  forall xs bins v, v ∈ xs -> (0 < bins)%nat -> (bin_of xs bins v < bins)%nat.

(** C8: for two constant images of the same size (of fewer than [2 ^ 53]
    pixels, with finite values) every pixel pair falls in one cell of the
    table, the only probability is 1, the joint entropy is a zero and line
    345 divides by it: [mutual_information] with [normalised=True] returns
    [nan] or an infinity, which is not a number of [[0, 1]]. *)
Theorem mutual_information_constant_images (v w : float64) (n bins : nat) :
  isfinite v = true -> isfinite w = true ->
  (1 <= n)%nat -> Z.of_nat n < 2 ^ 53 -> (1 <= bins)%nat ->
  exists r,
    mutual_information np_log2 np_sum bin_of (replicate n v) (replicate n w) bins true = ok r
    /\ nan_or_inf r
    /\ in_unit_interval r = false.
Proof.
  intros Hv Hw Hn Hsize Hbins.
  set (x := replicate n v). set (y := replicate n w).
  assert (Hnorm : nan_or_inf (mutual_information_of np_log2 np_sum
                                (histogram_counts bin_of x y bins) true)).
  { apply (single_cell_normalised np_log2 np_sum _
             (bin_of x bins v) (bin_of y bins w) (Z.of_nat n) log2_one sum_of_a_zero).
    - cbn [rows cols histogram_counts].
      split; (apply bin_in_range; [|lia]); unfold x, y; (destruct n; [lia | left]).
    - cbn [entry histogram_counts]. split; [|lia].
      unfold x, y. rewrite zip_replicate, filter_replicate.
      destruct (decide _) as [_ | Hno]; [rewrite length_replicate; reflexivity|].
      contradiction Hno. split; reflexivity.
    - intros i j Hne. cbn [entry histogram_counts].
      unfold x, y. rewrite zip_replicate, filter_replicate.
      destruct (decide _) as [[Hi Hj] | _]; [|reflexivity].
      cbn [fst snd] in Hi, Hj. subst i j. contradiction Hne. reflexivity. }
  eexists. split; [|split; [exact Hnorm | apply nan_or_inf_outside; exact Hnorm]].
  unfold mutual_information, histogram2d, x, y.
  rewrite !length_replicate, Nat.eqb_refl. cbn [negb].
  destruct (Nat.eqb_spec bins 0) as [|_]; [lia|].
  rewrite forallb_app, !forallb_replicate by assumption. reflexivity.
Qed.

End ConstantImages.

End Float64.

(** C8 on two constant images of four pixels, with a logarithm cut down to
    the exponent of its argument (exact at the powers of two), sums taken
    from the right and every value put in bin 0. *)
Lemma mutual_information_constant_images_witness :
  let log2 := fun x : Util.float64 => Util.of_int (snd (SFfrexp 53 1024 x) - 1) in
  let sum := fold_right Util.fadd (S754_zero false) in
  let bin := fun (_ : list Util.float64) (_ : nat) (_ : Util.float64) => 0%nat in
  exists r,
    Util.mutual_information log2 sum bin
      (replicate 4 (Util.of_int 5)) (replicate 4 (Util.of_int 7)) 256 true = ok r
    /\ Util.nan_or_inf r
    /\ Util.in_unit_interval r = false.
Proof.
  intros log2 sum bin.
  apply (mutual_information_constant_images log2 sum bin).
  - reflexivity.
  - intros s. destruct s; eexists; reflexivity.
  - intros xs bins v _ Hbins. exact Hbins.
  - reflexivity.
  - reflexivity.
  - lia.
  - cbn. lia.
  - lia.
Defined.
